(** * Hetero-LR (caesar) training coordinator and the pipelined model store

    A shallow embedding of
    - [python/federatedml/linear_model/caesar_model/hetero_lr/hetero_lr_base.py]
      (class [HeteroLRBase]: [share_init_model], [fit_binary],
      [review_models], [share_z]), and
    - [python/fate_flow/pipelined_model/pipelined_model.py]
      (class [PipelinedModel]: [save_component_model],
      [parse_proto_object], [unpack_model]).

    A party's code is a tree of the calls it makes to its collaborators
    (the transfer channel, the model strategy of the subclass, the cipher);
    the tree is run either against an arbitrary environment, which yields
    the trace of calls, or against the other party's tree, with the shares
    travelling through mailboxes. *)

From Stdlib Require Import ZArith.
From Stdlib.Strings Require Import Byte Ascii.
From stdpp Require Import base option list strings gmap pretty relations.

(** ** Part I: definitions *)

Module HeteroLR.

(** [consts.GUEST], [consts.HOST], [consts.ARBITER]. *)
Inductive Role := GUEST | HOST | ARBITER.

#[global] Instance Role_eq_dec : EqDecision Role.
Proof. solve_decision. Defined.

(** The exceptions of the Python code; [ShapeMismatch] is the one the
    tensor operations raise, [UnsupportedPolicy] the one the initializer
    of the base class raises. *)
Inductive exn :=
| ValueError (msg : string)
| NotImplementedError (msg : string)
| UnboundLocalError (name : string)
| KeyError (key : string)
| IndexError
| AttributeError
| ShapeMismatch
| UnsupportedPolicy (name : string).

(** An element of a transfer suffix: a tuple mixes names and counters. *)
Inductive suffix_item :=
| SStr (s : string)
| SInt (z : Z).

#[global] Instance suffix_item_eq_dec : EqDecision suffix_item.
Proof. solve_decision. Defined.

Abbreviation suffix := (list suffix_item).

(** [fixedpoint_numpy.FixedPointTensor]: the local additive share of a
    vector and the modulus of the field. *)
Record FixedPointTensor := {
  value : list Z;
  q_field : Z
}.

(** [t.shape[0]] *)
Definition shape (t : FixedPointTensor) : nat := length (value t).

(** [fixedpoint_table.FixedPointTensor]: a table from record ids to field
    elements (the prediction, the error) or to rows (a batch of features). *)
Record TableTensor (V : Type) := {
  tvalue : gmap Z V;
  tq_field : Z
}.
Arguments tvalue {V} _.
Arguments tq_field {V} _.

(** [LinearModelWeights(l, fit_intercept)] *)
Record LinearModelWeights := {
  unboxed : list Z;
  lmw_fit_intercept : bool
}.

(** What [from_source] is given: a local plaintext, or the party that
    supplies it. *)
Inductive source :=
| SrcValue (w : list Z)
| SrcParty (r : Role).

(** The calls a party makes to its collaborators, with the rest of the
    program as continuation. *)
Inductive proc (A : Type) : Type :=
| Ret (a : A)
| Raise (e : exn)
| BroadcastShare (name : string) (share : list Z) (k : proc A)
| GetShare (name : string) (k : list Z → proc A)
| FromSource (name : string) (src : source) (k : FixedPointTensor → proc A)
| CalPrediction (w_self w_remote : FixedPointTensor)
    (features : TableTensor (list Z)) (sfx : suffix)
    (k : TableTensor Z → proc A)
| ComputeGradient (wa wb : FixedPointTensor) (error : TableTensor Z)
    (features : TableTensor (list Z)) (sfx : suffix)
    (k : FixedPointTensor * FixedPointTensor → proc A)
| CheckConverge (last_w : list Z * option LinearModelWeights)
    (new_w : list Z) (sfx : suffix) (k : bool → proc A)
| DistributeEncrypt (z : gmap Z Z) (k : gmap Z Z → proc A)
| RemoteEncrypted (payload : gmap Z Z) (to : Role) (sfx : suffix) (k : proc A)
| GetParties (sfx : suffix) (k : list (gmap Z Z) → proc A)
| TransferPubkey (k : Z → proc A)
| GenerateKey (key_length : Z) (k : proc A).

Arguments Ret {A} _.
Arguments Raise {A} _.
Arguments BroadcastShare {A} _ _ _.
Arguments GetShare {A} _ _.
Arguments FromSource {A} _ _ _.
Arguments CalPrediction {A} _ _ _ _ _.
Arguments ComputeGradient {A} _ _ _ _ _ _.
Arguments CheckConverge {A} _ _ _ _.
Arguments DistributeEncrypt {A} _ _.
Arguments RemoteEncrypted {A} _ _ _ _.
Arguments GetParties {A} _ _.
Arguments TransferPubkey {A} _.
Arguments GenerateKey {A} _ _.

Fixpoint bind {A B} (p : proc A) (f : A → proc B) : proc B :=
  match p with
  | Ret a => f a
  | Raise e => Raise e
  | BroadcastShare n s k => BroadcastShare n s (bind k f)
  | GetShare n k => GetShare n (λ x, bind (k x) f)
  | FromSource n s k => FromSource n s (λ x, bind (k x) f)
  | CalPrediction ws wr ft sf k => CalPrediction ws wr ft sf (λ x, bind (k x) f)
  | ComputeGradient wa wb er ft sf k =>
      ComputeGradient wa wb er ft sf (λ x, bind (k x) f)
  | CheckConverge l n sf k => CheckConverge l n sf (λ x, bind (k x) f)
  | DistributeEncrypt z k => DistributeEncrypt z (λ x, bind (k x) f)
  | RemoteEncrypted p r sf k => RemoteEncrypted p r sf (bind k f)
  | GetParties sf k => GetParties sf (λ x, bind (k x) f)
  | TransferPubkey k => TransferPubkey (λ x, bind (k x) f)
  | GenerateKey n k => GenerateKey n (bind k f)
  end.

#[global] Instance proc_ret : MRet proc := @Ret.
#[global] Instance proc_bind : MBind proc := λ A B f p, bind p f.

(** *** The fixed-point encoder and the tensor operations *)

(** Modelled from the spec: [FixedPointEndec.decode] is missing from the
    sources. A plaintext is kept as its scaled integer; a field element
    above [q/2] stands for a negative number (balanced representation). *)
Definition decode (q x : Z) : Z :=
  if bool_decide (q / 2 < x)%Z then (x - q)%Z else x.

(** Modelled from the spec: [FixedPointEndec.encode] is missing from the
    sources. The scaled integer is reduced modulo [q]. *)
Definition encode (q x : Z) : Z := (x mod q)%Z.

(** The plaintext behind a local share and the share of the other party:
    the sum in the field, decoded. *)
Definition combine_shares (t : FixedPointTensor) (other : list Z) : list Z :=
  zip_with (λ a b, decode (q_field t) ((a + b) mod q_field t)%Z)
           (value t) other.

(** Modelled from the spec: [FixedPointTensor.reconstruct_unilateral] is
    missing from the sources. The other party sends its share under the
    tag; the caller sums the shares in the field and decodes. *)
Definition reconstruct_unilateral (t : FixedPointTensor) (tensor_name : string)
  : proc (list Z) :=
  GetShare tensor_name (λ other,
    if bool_decide (length other = shape t)
    then Ret (combine_shares t other)
    else Raise ShapeMismatch).

(** Modelled from the spec: [FixedPointTensor.broadcast_reconstruct_share]
    is missing from the sources. The caller sends its own share under the
    tag and learns nothing. *)
Definition broadcast_reconstruct_share (t : FixedPointTensor)
  (tensor_name : string) : proc unit :=
  BroadcastShare tensor_name (value t) (Ret tt).

(** Modelled from the spec: [fixedpoint_table.FixedPointTensor.from_value]
    is missing from the sources. A disclosed plaintext table is encoded
    again. *)
Definition from_value (v : gmap Z Z) (q : Z) : TableTensor Z :=
  {| tvalue := encode q <$> v; tq_field := q |}.

(** [table.join(other, operator.sub)]: the keys of both, value by value. *)
Definition join_sub (a b : gmap Z Z) : gmap Z Z :=
  intersection_with (λ x y, Some (x - y)%Z) a b.

(** [np.zeros(shape)] *)
Definition np_zeros (n : nat) : list Z := replicate n 0%Z.

(** *** The model object *)

(** The attributes of [self] that the methods below read or assign. *)
Record HeteroLRBase := {
  role : Role;
  other_party : Role;
  review_strategy : string;       (* model_param.review_strategy *)
  fit_intercept : bool;           (* model_param.init_param.fit_intercept *)
  key_length : Z;                 (* model_param.encrypt_param.key_length *)
  max_iter : Z;
  n_iter_ : Z;
  is_converged : bool;
  model_weights : option LinearModelWeights;
  hosted_model_weights : option LinearModelWeights;
  labels : option (gmap Z Z);
  fix_point_encoder_n : Z         (* fix_point_encoder.n *)
}.

Definition set_n_iter_ (v : Z) (s : HeteroLRBase) : HeteroLRBase :=
  let 'Build_HeteroLRBase a b c d e f _ h i j k l := s in
  Build_HeteroLRBase a b c d e f v h i j k l.

Definition set_is_converged (v : bool) (s : HeteroLRBase) : HeteroLRBase :=
  let 'Build_HeteroLRBase a b c d e f g _ i j k l := s in
  Build_HeteroLRBase a b c d e f g v i j k l.

Definition set_model_weights (v : option LinearModelWeights)
  (s : HeteroLRBase) : HeteroLRBase :=
  let 'Build_HeteroLRBase a b c d e f g h _ j k l := s in
  Build_HeteroLRBase a b c d e f g h v j k l.

Definition set_hosted_model_weights (v : option LinearModelWeights)
  (s : HeteroLRBase) : HeteroLRBase :=
  let 'Build_HeteroLRBase a b c d e f g h i _ k l := s in
  Build_HeteroLRBase a b c d e f g h i v k l.

Definition set_labels (v : option (gmap Z Z)) (s : HeteroLRBase)
  : HeteroLRBase :=
  let 'Build_HeteroLRBase a b c d e f g h i j _ l := s in
  Build_HeteroLRBase a b c d e f g h i j v l.

Definition set_fix_point_encoder_n (v : Z) (s : HeteroLRBase) : HeteroLRBase :=
  let 'Build_HeteroLRBase a b c d e f g h i j k _ := s in
  Build_HeteroLRBase a b c d e f g h i j k v.

(** [f"wb_{n}"] and [f"wa_{n}"] *)
Definition wb_ (n : Z) : string := "wb_" +:+ pretty n.
Definition wa_ (n : Z) : string := "wa_" +:+ pretty n.
Arguments wb_ : simpl never.
Arguments wa_ : simpl never.

Definition too_many_features : string :=
  "Too many features in Guest. Review strategy: 'all_review_in_guest' should not be used.".

Definition not_implemented (strategy : string) : string :=
  "review strategy: " +:+ strategy +:+ " has not been implemented.".

(** [HeteroLRBase.share_init_model] *)
Definition share_init_model (self : HeteroLRBase) (w : list Z) (n_iter : Z)
  : proc (FixedPointTensor * FixedPointTensor) :=
  if decide (role self = GUEST) then
    wb ← FromSource (wb_ n_iter) (SrcValue w) Ret;
    wa ← FromSource (wa_ n_iter) (SrcParty (other_party self)) Ret;
    mret (wb, wa)
  else
    wa ← FromSource (wa_ n_iter) (SrcValue w) Ret;
    wb ← FromSource (wb_ n_iter) (SrcParty (other_party self)) Ret;
    mret (wa, wb).

(** [HeteroLRBase.review_models] *)
Definition review_models (self : HeteroLRBase)
  (w_self w_remote : FixedPointTensor) : proc (list Z * HeteroLRBase) :=
  '(new_w, self) ←
    (if decide (review_strategy self = "respectively") then
       if decide (role self = GUEST) then
         new_w ← reconstruct_unilateral w_self (wb_ (n_iter_ self));
         _ ← broadcast_reconstruct_share w_remote (wa_ (n_iter_ self));
         mret (new_w, self)
       else
         _ ← broadcast_reconstruct_share w_remote (wb_ (n_iter_ self));
         new_w ← reconstruct_unilateral w_self (wa_ (n_iter_ self));
         mret (new_w, self)
     else if decide (review_strategy self = "all_review_in_guest") then
       if decide (role self = GUEST) then
         new_w ← reconstruct_unilateral w_self (wb_ (n_iter_ self));
         hosted_weights ← reconstruct_unilateral w_remote (wa_ (n_iter_ self));
         mret (new_w,
               set_hosted_model_weights
                 (Some {| unboxed := hosted_weights;
                          lmw_fit_intercept := false |}) self)
       else
         if bool_decide (2 < shape w_remote)%nat then
           Raise (ValueError too_many_features)
         else
           _ ← broadcast_reconstruct_share w_remote (wb_ (n_iter_ self));
           _ ← broadcast_reconstruct_share w_self (wa_ (n_iter_ self));
           mret (np_zeros (shape w_self), self)
     else Raise (NotImplementedError (not_implemented (review_strategy self))));
  mret (new_w,
        set_model_weights
          (Some {| unboxed := new_w; lmw_fit_intercept := fit_intercept self |})
          self).

(** The model after [self.model_weights = LinearModelWeights(l=new_w,
    fit_intercept=...)]. *)
Definition reviewed (new_w : list Z) (self : HeteroLRBase) : HeteroLRBase :=
  set_model_weights
    (Some {| unboxed := new_w; lmw_fit_intercept := fit_intercept self |}) self.

(** The model after [self.hosted_model_weights =
    LinearModelWeights(l=hosted_weights, fit_intercept=False)]. *)
Definition hosting (hosted_weights : list Z) (self : HeteroLRBase)
  : HeteroLRBase :=
  set_hosted_model_weights
    (Some {| unboxed := hosted_weights; lmw_fit_intercept := false |}) self.

(** [for x in l: body] over a state threaded through the iterations. *)
Fixpoint for_each {A St} (l : list A) (body : A → St → proc St) (s : St)
  : proc St :=
  match l with
  | [] => mret s
  | x :: l' => s' ← body x s; for_each l' body s'
  end.

(** [for i, x in enumerate(l): body], counting from [i]. *)
Fixpoint for_enumerate {A St} (i : nat) (l : list A)
  (body : nat → A → St → proc St) (s : St) : proc St :=
  match l with
  | [] => mret s
  | x :: l' => s' ← body i x s; for_enumerate (S i) l' body s'
  end.

(** [fixedpoint_table.PaillierFixedPointTensor(z_table, q_field=..., endec=...)] *)
Definition PaillierFixedPointTensor (z_table : gmap Z Z) (q : Z)
  : TableTensor Z :=
  {| tvalue := z_table; tq_field := q |}.

(** [HeteroLRBase.share_z]; the Host branch falls off the end and returns
    [None]. *)
Definition share_z (self : HeteroLRBase) (sfx : suffix)
  (kwargs : gmap string (TableTensor Z))
  : proc (option (TableTensor Z * TableTensor Z * TableTensor Z)) :=
  if decide (role self = HOST) then
    _ ← for_each ["z"] (λ var_name (_ : unit),
          match kwargs !! var_name with
          | None => Raise (KeyError var_name)
          | Some z =>
              encrypt_z ← DistributeEncrypt (tvalue z) Ret;
              RemoteEncrypted encrypt_z GUEST (SStr var_name :: sfx) (Ret tt)
          end) tt;
    mret None
  else
    res ← for_each ["z"] (λ var_name (res : list (TableTensor Z)),
          parties ← GetParties (SStr var_name :: sfx) Ret;
          match parties !! 0%nat with
          | None => Raise IndexError
          | Some z_table =>
              mret (res ++ [PaillierFixedPointTensor z_table
                              (fix_point_encoder_n self)])
          end) [];
    match res !! 0%nat with
    | None => Raise IndexError
    | Some r0 => mret (Some (r0, r0, r0))
    end.

(** The local variables of [fit_binary] that live across iterations;
    [new_w] is unbound until the first batch has been reviewed. *)
Record locals := {
  w_self : FixedPointTensor;
  w_remote : FixedPointTensor;
  new_w : option (list Z);
  last_models : list Z * option LinearModelWeights
}.

(** The body of [for batch_idx, batch_data in enumerate(encoded_batch_data)]. *)
Definition batch_body (batch_idx : nat) (batch_data : TableTensor (list Z))
  (st : HeteroLRBase * locals) : proc (HeteroLRBase * locals) :=
  let '(self, loc) := st in
  let current_suffix := [SInt (n_iter_ self); SInt (Z.of_nat batch_idx)] in
  y ← CalPrediction (w_self loc) (w_remote loc) batch_data current_suffix Ret;
  '(w_self', w_remote') ←
    (if decide (role self = GUEST) then
       match labels self with
       | None => Raise AttributeError
       | Some lbl =>
           let error := join_sub (tvalue y) lbl in
           let error := from_value error (fix_point_encoder_n self) in
           '(w_remote', w_self') ←
             ComputeGradient (w_remote loc) (w_self loc) error batch_data
               current_suffix Ret;
           mret (w_self', w_remote')
       end
     else
       ComputeGradient (w_self loc) (w_remote loc) y batch_data
         current_suffix Ret);
  '(new_w', self) ← review_models self w_self' w_remote';
  let self :=
    set_model_weights
      (Some {| unboxed := new_w'; lmw_fit_intercept := fit_intercept self |})
      self in
  mret (self, {| w_self := w_self'; w_remote := w_remote';
                 new_w := Some new_w'; last_models := last_models loc |}).

(** [while self.n_iter_ < self.max_iter: ...]; [None] stands for a loop
    that has not finished within [fuel] iterations. *)
Fixpoint while_loop (fuel : nat) (encoded_batch_data : list (TableTensor (list Z)))
  (st : HeteroLRBase * locals) : proc (option (HeteroLRBase * locals)) :=
  if bool_decide (n_iter_ st.1 < max_iter st.1)%Z then
    match fuel with
    | O => mret None
    | S fuel' =>
        '(self, loc) ← for_enumerate 0 encoded_batch_data batch_body st;
        match new_w loc with
        | None => Raise (UnboundLocalError "new_w")
        | Some nw =>
            c ← CheckConverge (last_models loc) nw [SInt (n_iter_ self)] Ret;
            let self := set_is_converged c self in
            let loc := {| w_self := w_self loc; w_remote := w_remote loc;
                          new_w := Some nw;
                          last_models := (nw, hosted_model_weights self) |} in
            if c then mret (Some (self, loc))
            else while_loop fuel' encoded_batch_data
                   (set_n_iter_ (n_iter_ self + 1)%Z self, loc)
        end
    end
  else mret (Some st).

(** [HeteroLRBase.fit_binary]. The initial weights [w], the labels of the
    data and the encoded batches come from collaborators and are
    arguments here; the modulus of the encoder is the [n] of the public
    key received. The loop is given as many rounds as the counter is
    short of [max_iter]. *)
Definition fit_binary (self : HeteroLRBase) (w : list Z)
  (data_labels : gmap Z Z) (encoded_batch_data : list (TableTensor (list Z)))
  : proc (option (HeteroLRBase * locals)) :=
  let last := (w, hosted_model_weights self) in
  let self :=
    if decide (role self = GUEST) then set_labels (Some data_labels) self
    else self in
  remote_pubkey_n ← TransferPubkey Ret;
  let self := set_fix_point_encoder_n remote_pubkey_n self in
  '(ws, wr) ← share_init_model self w (-1);
  while_loop (Z.to_nat (max_iter self - n_iter_ self)) encoded_batch_data
    (self, {| w_self := ws; w_remote := wr; new_w := None;
              last_models := last |}).

(** The fields of [LogisticRegressionParam] that the model reads. *)
Record LogisticRegressionParam := {
  p_review_strategy : string;
  p_fit_intercept : bool;
  p_key_length : Z;
  p_max_iter : Z
}.

(** [HeteroLRBase._init_model]. The initializer of the base class
    [CaesarBase] is not among the sources and is an argument. *)
Definition _init_model
  (super_init_model : LogisticRegressionParam → HeteroLRBase → exn + HeteroLRBase)
  (self : HeteroLRBase) (params : LogisticRegressionParam)
  : proc HeteroLRBase :=
  match super_init_model params self with
  | inl e => Raise e
  | inr self => GenerateKey (key_length self) (Ret self)
  end.

(** A component is initialized with its parameters and then fitted. *)
Definition init_then_fit
  (super_init_model : LogisticRegressionParam → HeteroLRBase → exn + HeteroLRBase)
  (self : HeteroLRBase) (params : LogisticRegressionParam) (w : list Z)
  (data_labels : gmap Z Z) (encoded_batch_data : list (TableTensor (list Z)))
  : proc (option (HeteroLRBase * locals)) :=
  self ← _init_model super_init_model self params;
  fit_binary self w data_labels encoded_batch_data.

(** Modelled from the spec: [CaesarBase._init_model] and the check of the
    parameters that it relies on are missing from the sources. The spec
    names two review policies, and an unknown or unsupported policy name
    fails with [UnsupportedPolicy] at initialization; parameters that pass
    are taken over into the model. *)
Definition CaesarBase_init_model (params : LogisticRegressionParam)
  (self : HeteroLRBase) : exn + HeteroLRBase :=
  if decide (p_review_strategy params = "respectively" ∨
             p_review_strategy params = "all_review_in_guest") then
    inr {| role := role self; other_party := other_party self;
           review_strategy := p_review_strategy params;
           fit_intercept := p_fit_intercept params;
           key_length := p_key_length params;
           max_iter := p_max_iter params;
           n_iter_ := n_iter_ self; is_converged := is_converged self;
           model_weights := model_weights self;
           hosted_model_weights := hosted_model_weights self;
           labels := labels self;
           fix_point_encoder_n := fix_point_encoder_n self |}
  else inl (UnsupportedPolicy (p_review_strategy params)).

(** *** One party against an environment *)

(** A call as seen from outside; an answer that steers the caller is part
    of the record. *)
Inductive event :=
| EvBroadcastShare (name : string) (share : list Z)
| EvGetShare (name : string) (answer : list Z)
| EvFromSource (name : string) (src : source)
| EvCalPrediction (w_self w_remote : FixedPointTensor)
    (features : TableTensor (list Z)) (sfx : suffix) (answer : TableTensor Z)
| EvComputeGradient (wa wb : FixedPointTensor) (error : TableTensor Z)
    (features : TableTensor (list Z)) (sfx : suffix)
| EvCheckConverge (last_w : list Z * option LinearModelWeights)
    (new_w : list Z) (sfx : suffix) (answer : bool)
| EvDistributeEncrypt (z : gmap Z Z)
| EvRemoteEncrypted (payload : gmap Z Z) (to : Role) (sfx : suffix)
| EvGetParties (sfx : suffix) (answer : list (gmap Z Z))
| EvTransferPubkey
| EvGenerateKey (key_length : Z).

(** The collaborators of a party: each answers a call from its own state
    [E], which it may change. *)
Record environment (E : Type) := {
  on_get_share : E → string → list Z * E;
  on_from_source : E → string → source → FixedPointTensor * E;
  on_cal_prediction : E → FixedPointTensor → FixedPointTensor →
    TableTensor (list Z) → suffix → TableTensor Z * E;
  on_compute_gradient : E → FixedPointTensor → FixedPointTensor →
    TableTensor Z → TableTensor (list Z) → suffix →
    (FixedPointTensor * FixedPointTensor) * E;
  on_check_converge : E → list Z * option LinearModelWeights → list Z →
    suffix → bool * E;
  on_distribute_encrypt : E → gmap Z Z → gmap Z Z * E;
  on_get_parties : E → suffix → list (gmap Z Z) * E;
  on_transfer_pubkey : E → Z * E
}.
Arguments on_get_share {E} _ _ _.
Arguments on_from_source {E} _ _ _ _.
Arguments on_cal_prediction {E} _ _ _ _ _ _.
Arguments on_compute_gradient {E} _ _ _ _ _ _ _.
Arguments on_check_converge {E} _ _ _ _ _.
Arguments on_distribute_encrypt {E} _ _ _.
Arguments on_get_parties {E} _ _ _.
Arguments on_transfer_pubkey {E} _ _.

Inductive outcome (A : Type) :=
| Returned (a : A)
| Raised (e : exn).
Arguments Returned {A} _.
Arguments Raised {A} _.

(** Run a party to its end: the calls it made, in order, how it ended,
    and the state its collaborators are left in. *)
Fixpoint run {E A} (env : environment E) (p : proc A) (e : E)
  : list event * outcome A * E :=
  match p with
  | Ret a => ([], Returned a, e)
  | Raise x => ([], Raised x, e)
  | BroadcastShare n s k =>
      let '(tr, o, e) := run env k e in (EvBroadcastShare n s :: tr, o, e)
  | GetShare n k =>
      let '(a, e) := on_get_share env e n in
      let '(tr, o, e) := run env (k a) e in (EvGetShare n a :: tr, o, e)
  | FromSource n s k =>
      let '(a, e) := on_from_source env e n s in
      let '(tr, o, e) := run env (k a) e in (EvFromSource n s :: tr, o, e)
  | CalPrediction ws wr ft sf k =>
      let '(a, e) := on_cal_prediction env e ws wr ft sf in
      let '(tr, o, e) := run env (k a) e in
      (EvCalPrediction ws wr ft sf a :: tr, o, e)
  | ComputeGradient wa wb er ft sf k =>
      let '(a, e) := on_compute_gradient env e wa wb er ft sf in
      let '(tr, o, e) := run env (k a) e in
      (EvComputeGradient wa wb er ft sf :: tr, o, e)
  | CheckConverge l n sf k =>
      let '(a, e) := on_check_converge env e l n sf in
      let '(tr, o, e) := run env (k a) e in
      (EvCheckConverge l n sf a :: tr, o, e)
  | DistributeEncrypt z k =>
      let '(a, e) := on_distribute_encrypt env e z in
      let '(tr, o, e) := run env (k a) e in (EvDistributeEncrypt z :: tr, o, e)
  | RemoteEncrypted pl r sf k =>
      let '(tr, o, e) := run env k e in (EvRemoteEncrypted pl r sf :: tr, o, e)
  | GetParties sf k =>
      let '(a, e) := on_get_parties env e sf in
      let '(tr, o, e) := run env (k a) e in (EvGetParties sf a :: tr, o, e)
  | TransferPubkey k =>
      let '(a, e) := on_transfer_pubkey env e in
      let '(tr, o, e) := run env (k a) e in (EvTransferPubkey :: tr, o, e)
  | GenerateKey n k =>
      let '(tr, o, e) := run env k e in (EvGenerateKey n :: tr, o, e)
  end.

(** The suffix tuples handed to [cal_prediction] and [compute_gradient],
    and the tensor names used by the review, as they occur in a trace. *)
Definition prediction_suffixes (tr : list event) : list suffix :=
  omap (λ ev, match ev with
              | EvCalPrediction _ _ _ sf _ => Some sf | _ => None end) tr.

Definition gradient_suffixes (tr : list event) : list suffix :=
  omap (λ ev, match ev with
              | EvComputeGradient _ _ _ _ sf => Some sf | _ => None end) tr.

Definition reconstruct_names (tr : list event) : list string :=
  omap (λ ev, match ev with
              | EvGetShare n _ => Some n | _ => None end) tr.

Definition converge_answers (tr : list event) : list (suffix * bool) :=
  omap (λ ev, match ev with
              | EvCheckConverge _ _ sf a => Some (sf, a) | _ => None end) tr.

(** The predictions that [cal_prediction] returned, the error arguments
    that [compute_gradient] was given, and the tensor names of all the
    shares asked for or sent. *)
Definition predictions (tr : list event) : list (TableTensor Z) :=
  omap (λ ev, match ev with
              | EvCalPrediction _ _ _ _ y => Some y | _ => None end) tr.

Definition gradient_errors (tr : list event) : list (TableTensor Z) :=
  omap (λ ev, match ev with
              | EvComputeGradient _ _ er _ _ => Some er | _ => None end) tr.

Definition review_names (tr : list event) : list string :=
  omap (λ ev, match ev with
              | EvGetShare n _ | EvBroadcastShare n _ => Some n
              | _ => None end) tr.

(** Two states of the model that differ at most in the weights. *)
Definition same_config (s s' : HeteroLRBase) : Prop :=
  role s' = role s ∧ other_party s' = other_party s ∧
  review_strategy s' = review_strategy s ∧
  fit_intercept s' = fit_intercept s ∧ key_length s' = key_length s ∧
  max_iter s' = max_iter s ∧ n_iter_ s' = n_iter_ s ∧
  is_converged s' = is_converged s ∧ labels s' = labels s ∧
  fix_point_encoder_n s' = fix_point_encoder_n s.

(** The error argument that [compute_gradient] is given for a prediction
    [y]: at the Guest the difference to the labels, shared again; at any
    other party the prediction itself. *)
Definition error_of (self : HeteroLRBase) (y : TableTensor Z) : TableTensor Z :=
  if decide (role self = GUEST) then
    from_value (join_sub (tvalue y) (default ∅ (labels self)))
      (fix_point_encoder_n self)
  else y.


(** The suffixes of one iteration: its number, then a batch index. *)
Definition in_iteration (n : Z) (sfx : suffix) : Prop :=
  ∃ j : nat, sfx = [SInt n; SInt (Z.of_nat j)].

(** *** Two parties against each other *)

Abbreviation mailbox := (list (string * list Z)).

(** The first message under a tag, and the mailbox without it. *)
Fixpoint take (name : string) (box : mailbox) : option (list Z * mailbox) :=
  match box with
  | [] => None
  | (n, s) :: box' =>
      if decide (n = name) then Some (s, box')
      else '(r, rest) ← take name box'; Some (r, (n, s) :: rest)
  end.

(** Guest and Host side by side; a share that was sent waits in the
    mailbox of its recipient until that party asks for its tag. *)
Record config (A B : Type) := {
  guest : proc A;
  host : proc B;
  to_guest : mailbox;
  to_host : mailbox;
  guest_log : list event;
  host_log : list event
}.
Arguments guest {A B} _.
Arguments host {A B} _.
Arguments to_guest {A B} _.
Arguments to_host {A B} _.
Arguments guest_log {A B} _.
Arguments host_log {A B} _.

Definition step_guest {A B} (c : config A B) : option (config A B) :=
  match guest c with
  | BroadcastShare n s k =>
      Some {| guest := k; host := host c; to_guest := to_guest c;
              to_host := to_host c ++ [(n, s)];
              guest_log := guest_log c ++ [EvBroadcastShare n s];
              host_log := host_log c |}
  | GetShare n k =>
      '(s, rest) ← take n (to_guest c);
      Some {| guest := k s; host := host c; to_guest := rest;
              to_host := to_host c;
              guest_log := guest_log c ++ [EvGetShare n s];
              host_log := host_log c |}
  | _ => None
  end.

Definition step_host {A B} (c : config A B) : option (config A B) :=
  match host c with
  | BroadcastShare n s k =>
      Some {| guest := guest c; host := k;
              to_guest := to_guest c ++ [(n, s)]; to_host := to_host c;
              guest_log := guest_log c;
              host_log := host_log c ++ [EvBroadcastShare n s] |}
  | GetShare n k =>
      '(s, rest) ← take n (to_host c);
      Some {| guest := guest c; host := k s; to_guest := to_guest c;
              to_host := rest; guest_log := guest_log c;
              host_log := host_log c ++ [EvGetShare n s] |}
  | _ => None
  end.

(** One move of either party, in any order. *)
Definition step {A B} (c c' : config A B) : Prop :=
  step_guest c = Some c' ∨ step_host c = Some c'.

(** A move, or none. *)
Definition step_or_stay {A B} (c c' : config A B) : Prop := c = c' ∨ step c c'.

(** Nobody can move: each party has ended or waits for a share that is
    not there. *)
Definition quiescent {A B} (c : config A B) : Prop :=
  step_guest c = None ∧ step_host c = None.

Definition start {A B} (g : proc A) (h : proc B) : config A B :=
  {| guest := g; host := h; to_guest := []; to_host := [];
     guest_log := []; host_log := [] |}.

(** A fixed schedule: the Guest moves when it can, else the Host. *)
Fixpoint joint_run {A B} (fuel : nat) (c : config A B) : config A B :=
  match fuel with
  | O => c
  | S fuel' =>
      match step_guest c with
      | Some c' => joint_run fuel' c'
      | None =>
          match step_host c with
          | Some c' => joint_run fuel' c'
          | None => c
          end
      end
  end.

(** *** Sample parties *)

Definition sample_party (r o : Role) (strategy : string) (iters : Z)
  : HeteroLRBase :=
  {| role := r; other_party := o; review_strategy := strategy;
     fit_intercept := false; key_length := 1024; max_iter := iters;
     n_iter_ := 0; is_converged := false; model_weights := None;
     hosted_model_weights := None; labels := None;
     fix_point_encoder_n := 97 |}.

Definition tensor97 (v : list Z) : FixedPointTensor :=
  {| value := v; q_field := 97 |}.

(** Collaborators that answer every call the same way: a share [[2]],
    tensors of length one, a gradient that hands the weights back, and a
    convergence check that is told what to say. *)
Definition sample_env (converges : bool) : environment unit :=
  {| on_get_share := λ e _, ([2%Z], e);
     on_from_source := λ e _ _, (tensor97 [1%Z], e);
     on_cal_prediction := λ e _ _ _ _,
       ({| tvalue := {[ 1%Z := 5%Z ]}; tq_field := 97 |}, e);
     on_compute_gradient := λ e wa wb _ _ _, ((wa, wb), e);
     on_check_converge := λ e _ _ _, (converges, e);
     on_distribute_encrypt := λ e z, (z, e);
     on_get_parties := λ e _, ([∅], e);
     on_transfer_pubkey := λ e, (97%Z, e) |}.

Definition sample_batch : TableTensor (list Z) :=
  {| tvalue := {[ 1%Z := [3%Z] ]}; tq_field := 97 |}.

(** *** The tags of a whole run *)

(** The suffixes of the batches of iteration [n], in order. *)
Definition batch_suffixes (n : Z) (i k : nat) : list suffix :=
  (λ j, [SInt n; SInt (Z.of_nat j)]) <$> seq i k.

(** The suffixes of [iters] iterations over [k] batches, from iteration
    [n0] on. *)
Fixpoint all_suffixes (n0 : Z) (iters k : nat) : list suffix :=
  match iters with
  | O => []
  | S iters' => batch_suffixes n0 0 k ++ all_suffixes (n0 + 1) iters' k
  end.

(** The tensor names of the reviews of these iterations: two names for
    each batch. *)
Fixpoint all_review_names (n0 : Z) (iters k : nat) : list string :=
  match iters with
  | O => []
  | S iters' =>
      concat (replicate k [wb_ n0; wa_ n0]) ++ all_review_names (n0 + 1) iters' k
  end.

(** The suffixes of the convergence checks of these iterations. *)
Fixpoint check_suffixes (n0 : Z) (iters : nat) : list suffix :=
  match iters with
  | O => []
  | S iters' => [SInt n0] :: check_suffixes (n0 + 1) iters'
  end.

(** The weights that each call of [check_converge] was asked to compare:
    the first entry of [last_w], and [new_w]. *)
Definition converge_calls (tr : list event) : list (list Z * list Z) :=
  omap (λ ev, match ev with
              | EvCheckConverge lw nw _ _ => Some (lw.1, nw) | _ => None end) tr.

(** Each comparison starts from the weights that the one before ended
    with, the first one from [prev]. *)
Fixpoint chained (prev : list Z) (calls : list (list Z * list Z)) : Prop :=
  match calls with
  | [] => True
  | (lw, nw) :: rest => lw = prev ∧ chained nw rest
  end.

(** The names and sources of the calls of [from_source]. *)
Definition sources (tr : list event) : list (string * source) :=
  omap (λ ev, match ev with
              | EvFromSource n s => Some (n, s) | _ => None end) tr.

(** *** Export and load of the trained model *)

(** [LinearModelWeights.coef_] and [LinearModelWeights.intercept_]; the
    class is not among the sources. *)
Class WeightsView := {
  coef_ : LinearModelWeights → list Z;
  intercept_ : LinearModelWeights → Z
}.

(** The attributes of [self] that export and load use beside those of
    the training loop. *)
Record ModelState := {
  base : HeteroLRBase;
  header : list string;
  self_fit_intercept : bool;          (* self.fit_intercept *)
  loss_history : list Z;
  validation_strategy : option Z      (* None, or its best_iteration *)
}.

(** The dictionary that [get_single_model_param] returns, by its keys. *)
Record result_dict := {
  r_iters : Z;                        (* result['iters'] *)
  r_loss_history : list Z;
  r_is_converged : bool;
  r_weight : gmap string Z;
  r_intercept : Z;
  r_header : list string;
  r_best_iteration : Z
}.

(** The parameter object that [load_single_model] is given, by the
    attributes that it reads. *)
Record single_model := {
  iters : Z;                          (* single_model_obj.iters *)
  weight : gmap string Z;
  intercept : Z
}.

(** What export and load may raise: an exception of the training code,
    or the [TypeError] of storing [None] in an array of numbers. *)
Inductive load_exn :=
| OfTraining (e : exn)
| TypeError.

(** [for idx, header_name in enumerate(header): weight_dict[header_name] =
    model_weights.coef_[idx]] *)
Fixpoint export_weights `{WeightsView} (model_weights : option LinearModelWeights)
  (idx : nat) (header : list string) (weight_dict : gmap string Z)
  : exn + gmap string Z :=
  match header with
  | [] => inr weight_dict
  | header_name :: header' =>
      match model_weights with
      | None => inl AttributeError
      | Some mw =>
          match coef_ mw !! idx with
          | None => inl IndexError
          | Some coef_i =>
              export_weights model_weights (S idx) header'
                (<[header_name := coef_i]> weight_dict)
          end
      end
  end.

(** [HeteroLRBase.get_single_model_param]; an empty [header] argument
    counts as none, a weights object that is given counts as true. *)
Definition get_single_model_param `{WeightsView} (self : ModelState)
  (model_weights_arg : option LinearModelWeights)
  (header_arg : option (list string)) : exn + result_dict :=
  let model_weights_used :=
    match model_weights_arg with
    | Some mw => Some mw
    | None => model_weights (base self)
    end in
  let header_used :=
    match header_arg with
    | Some (x :: l) => x :: l
    | _ => header self
    end in
  match export_weights model_weights_used 0 header_used ∅ with
  | inl e => inl e
  | inr weight_dict =>
      match model_weights (base self) with
      | None => inl AttributeError
      | Some own =>
          inr {| r_iters := n_iter_ (base self);
                 r_loss_history := loss_history self;
                 r_is_converged := is_converged (base self);
                 r_weight := weight_dict;
                 r_intercept := intercept_ own;
                 r_header := header_used;
                 r_best_iteration :=
                   default (-1)%Z (validation_strategy self) |}
      end
  end.

(** [for idx, header_name in enumerate(self.header): tmp_vars[idx] =
    weight_dict.get(header_name)] *)
Fixpoint load_weights (weight_dict : gmap string Z) (header : list string)
  : load_exn + list Z :=
  match header with
  | [] => inr []
  | header_name :: header' =>
      match weight_dict !! header_name with
      | None => inl TypeError
      | Some v =>
          match load_weights weight_dict header' with
          | inl e => inl e
          | inr vs => inr (v :: vs)
          end
      end
  end.

(** [HeteroLRBase.load_single_model] *)
Definition load_single_model (self : ModelState) (single_model_obj : single_model)
  : load_exn + ModelState :=
  match load_weights (weight single_model_obj) (header self) with
  | inl e => inl e
  | inr tmp_vars =>
      let tmp_vars :=
        if self_fit_intercept self
        then tmp_vars ++ [intercept single_model_obj] else tmp_vars in
      inr {| base := set_n_iter_ (iters single_model_obj)
                       (set_model_weights
                          (Some {| unboxed := tmp_vars;
                                   lmw_fit_intercept := self_fit_intercept self |})
                          (base self));
             header := header self;
             self_fit_intercept := self_fit_intercept self;
             loss_history := loss_history self;
             validation_strategy := validation_strategy self |}
  end.

(** Weights whose last entry is the intercept when one is fitted, and a
    model that holds three of them. *)
Definition sample_view : WeightsView :=
  {| coef_ := λ mw, if lmw_fit_intercept mw
                    then firstn (length (unboxed mw) - 1) (unboxed mw)
                    else unboxed mw;
     intercept_ := λ mw, if lmw_fit_intercept mw
                         then default 0%Z (last (unboxed mw)) else 0%Z |}.

Definition sample_state (hd : list string) (fit : bool) : ModelState :=
  {| base := set_model_weights
               (Some {| unboxed := [11; 22; 33]%Z; lmw_fit_intercept := fit |})
               (sample_party GUEST HOST "respectively" 5);
     header := hd; self_fit_intercept := fit;
     loss_history := []; validation_strategy := None |}.

End HeteroLR.

Module PipelinedModel.

Abbreviation bytes := (list byte).

(** A path, component by component. *)
Abbreviation path := (list string).

(** A Python [str] whose characters are looked at, by its code points. *)
Abbreviation text := (list N).

Inductive exn :=
| FileExistsError
| FileNotFoundError
| IsADirectoryError
| NotADirectoryError
| ValueError (msg : string)
| TypeError
| DecodeError
| UnicodeDecodeError
| ReadError.

(** The meta file [define_meta.yaml], as the dictionary it holds. *)
Record define_index := {
  component_define : gmap string (gmap string string);
  model_proto : gmap string (gmap string (gmap string string))
}.

#[global] Instance define_index_eq_dec : EqDecision define_index.
Proof. solve_decision. Defined.

(** What a path leads to; the meta file is kept as its dictionary. *)
Inductive node :=
| Dir
| File (content : bytes)
| Yaml (doc : define_index).

Abbreviation filesystem := (gmap path node).

(** *** Calls that may raise and that change the file system *)

Inductive result (A : Type) :=
| Ok (a : A)
| Err (e : exn).
Arguments Ok {A} _.
Arguments Err {A} _.

Definition io (A : Type) : Type := filesystem → result A * filesystem.

Definition ret {A} (a : A) : io A := λ fs, (Ok a, fs).

Definition bind {A B} (m : io A) (f : A → io B) : io B := λ fs,
  match m fs with
  | (Ok a, fs') => f a fs'
  | (Err e, fs') => (Err e, fs')
  end.

Notation "'let*' x ':=' m 'in' k" := (bind m (λ x, k))
  (at level 10, x name, m at level 100, k at level 200).

Definition raise {A} (e : exn) : io A := λ fs, (Err e, fs).

(** [os.path.exists], [os.path.isfile] *)
Definition os_path_exists (p : path) : io bool :=
  λ fs, (Ok (bool_decide (is_Some (fs !! p))), fs).

Definition os_path_isfile (p : path) : io bool :=
  λ fs, (Ok match fs !! p with
            | Some (File _) | Some (Yaml _) => true
            | _ => false
            end, fs).

(** The proper ancestors of a path, outermost first. *)
Definition ancestors (p : path) : list path :=
  (λ n, take n p) <$> seq 1 (length p - 1).

(** [os.makedirs(p, exist_ok=...)]: the missing ancestors are created on
    the way. *)
Definition os_makedirs (p : path) (exist_ok : bool) : io unit := λ fs,
  match fs !! p with
  | Some Dir => if exist_ok then (Ok tt, fs) else (Err FileExistsError, fs)
  | Some _ => (Err FileExistsError, fs)
  | None =>
      if forallb (λ a, match fs !! a with
                       | None | Some Dir => true
                       | _ => false
                       end) (ancestors p)
      then (Ok tt, foldr (λ a fs, <[a := Dir]> fs) fs (p :: ancestors p))
      else (Err NotADirectoryError, fs)
  end.

(** [open(p, 'rb').read()]; the meta file is not read as bytes here. *)
Definition read_bytes (p : path) : io bytes := λ fs,
  match fs !! p with
  | Some (File c) => (Ok c, fs)
  | Some (Yaml _) => (Err (ValueError "not a byte file"), fs)
  | Some Dir => (Err IsADirectoryError, fs)
  | None => (Err FileNotFoundError, fs)
  end.

(** [open(p, 'wb').write(c)]: the directory must be there. *)
Definition write_bytes (p : path) (c : bytes) : io unit := λ fs,
  match fs !! p with
  | Some Dir => (Err IsADirectoryError, fs)
  | _ =>
      match fs !! (take (length p - 1) p) with
      | Some Dir => (Ok tt, <[p := File c]> fs)
      | Some _ => (Err NotADirectoryError, fs)
      | None => (Err FileNotFoundError, fs)
      end
  end.

(** [path + ext]: the extension goes onto the last component. *)
Definition add_ext (p : path) (ext : string) : path :=
  match reverse p with
  | [] => [ext]
  | x :: r => reverse ((x +:+ ext) :: r)
  end.

(** What the Python code takes from [hashlib], [base64], [shutil] and the
    text codec: the hexadecimal digest, the base64 of bytes, what reading
    a file with [encoding='utf8'] makes of its bytes, and the members of
    an archive. *)
Class Runtime := {
  sha1_hexdigest : bytes → text;
  b64encode : bytes → string;
  decode_utf8 : bytes → option text;
  archive_entries : bytes → option (list (path * node))
}.

(** The white space of [str.strip()]: the characters for which
    [str.isspace] holds, those of ASCII (tab to carriage return, the four
    separators, the space) and those of Unicode beyond (next line,
    no-break space, ogham space mark, en quad to hair space, line and
    paragraph separator, narrow no-break space, medium mathematical
    space, ideographic space). *)
Definition is_space (c : N) : bool :=
  ((9 <=? c) && (c <=? 13) || (28 <=? c) && (c <=? 32) ||
   (c =? 133) || (c =? 160) || (c =? 5760) ||
   (8192 <=? c) && (c <=? 8202) || (c =? 8232) || (c =? 8233) ||
   (c =? 8239) || (c =? 8287) || (c =? 12288))%N.

Fixpoint lstrip (s : text) : text :=
  match s with
  | c :: s' => if is_space c then lstrip s' else s
  | [] => []
  end.

(** [s.strip()] *)
Definition strip (s : text) : text :=
  reverse (lstrip (reverse (lstrip s))).

(** *** The model object *)

Record PipelinedModel := {
  model_id : string;
  model_version : string;
  project_base_directory : path    (* file_utils.get_project_base_directory() *)
}.

Definition model_path (self : PipelinedModel) : path :=
  project_base_directory self ++
    ["model_local_cache"; model_id self; model_version self].
Definition define_meta_path (self : PipelinedModel) : path :=
  model_path self ++ ["define"; "define_meta.yaml"].
Definition variables_data_path (self : PipelinedModel) : path :=
  model_path self ++ ["variables"; "data"].

(** [PipelinedModel.exists] *)
Definition exists_ (self : PipelinedModel) : io bool :=
  os_path_exists (model_path self).

(** The decorator [local_cache_required]. *)
Definition local_cache_required {A} (self : PipelinedModel) (method : io A)
  : io A :=
  let* ex := exists_ self in
  if ex : bool then method else raise FileNotFoundError.

(** [shutil.unpack_archive(archive, target)] *)
Definition shutil_unpack_archive `{Runtime} (archive target : path) : io unit :=
  let* c := read_bytes archive in
  match archive_entries c with
  | None => raise ReadError
  | Some entries =>
      λ fs, (Ok tt, foldr (λ '(rel, n) fs, <[target ++ rel := n]> fs) fs entries)
  end.

(** [PipelinedModel.unpack_model] *)
Definition unpack_model `{Runtime} (self : PipelinedModel)
  (archive_file_path : path) : io unit :=
  let* ex := exists_ self in
  if ex : bool then raise FileExistsError else
  let* has_sha1 := os_path_isfile (add_ext archive_file_path ".sha1") in
  let* _ :=
    (if has_sha1 : bool then
       let* text := read_bytes (add_ext archive_file_path ".sha1") in
       match decode_utf8 text with
       | None => raise UnicodeDecodeError
       | Some text =>
           let sha1_orig := strip text in
           let* archive := read_bytes archive_file_path in
           let sha1 := sha1_hexdigest archive in
           if decide (sha1 ≠ sha1_orig)
           then raise (ValueError "Hash not match.")
           else ret tt
       end
     else ret tt) in
  let* _ := os_makedirs (model_path self) false in
  shutil_unpack_archive archive_file_path (model_path self).

(** *** Protocol buffers *)

(** What the Python code takes from [google.protobuf] and from the
    generated modules: classes, objects of a class, and the two
    conversions. [ParseFromString] fills a fresh object of the class, or
    fails with a decode error. *)
Class Protobuf := {
  pb_class : Type;
  message : Type;
  class_name : pb_class → string;              (* cls.__name__ *)
  type_of : message → pb_class;                (* type(obj) *)
  new : pb_class → message;                    (* cls() *)
  SerializeToString : message → bytes;
  ParseFromString : pb_class → bytes → option message;
  DefaultEmptyFillMessage : pb_class;
  fill_message_with_flag : string → message;
  (* the package federatedml.protobuf.generated: its directory listing and
     the members of each module; an import may fail, a member may be
     something else than a class *)
  listdir_generated : list string;
  import_module : string → option (list (string * option pb_class))
}.

Section with_protobuf.
Context `{Runtime} `{Protobuf}.

(** The bytes that stand for an empty serialization. *)
Definition fill_bytes : bytes :=
  SerializeToString (fill_message_with_flag "set").

(** [if not s: s = fill_message.SerializeToString()] *)
Definition serialized_or_fill (buffer_object : message) : bytes :=
  match SerializeToString buffer_object with
  | [] => fill_bytes
  | s => s
  end.

(** [s.rstrip(chars)] *)
Fixpoint lstrip_chars (chars : list Ascii.ascii) (s : string) : string :=
  match s with
  | String c s' => if bool_decide (c ∈ chars) then lstrip_chars chars s' else s
  | EmptyString => EmptyString
  end.

Definition rstrip (s : string) (chars : list Ascii.ascii) : string :=
  String.rev (lstrip_chars chars (String.rev s)).

Definition startswith_dot (f : string) : bool :=
  match f with
  | String "."%char _ => true
  | _ => false
  end.

(** [PipelinedModel.get_proto_buffer_class] *)
Fixpoint get_proto_buffer_class_from (files : list string) (buffer_name : string)
  : option pb_class :=
  match files with
  | [] => None
  | f :: files' =>
      if startswith_dot f then get_proto_buffer_class_from files' buffer_name
      else
        match import_module ("federatedml.protobuf.generated." +:+
                             rstrip f ["."; "p"; "y"]%char) with
        | None => get_proto_buffer_class_from files' buffer_name
        | Some members =>
            match list_find (λ '(name, obj), is_Some obj ∧ name = buffer_name)
                            members with
            | Some (_, (_, Some cls)) => Some cls
            | _ => get_proto_buffer_class_from files' buffer_name
            end
        end
  end.

Definition get_proto_buffer_class (buffer_name : string) : option pb_class :=
  get_proto_buffer_class_from listdir_generated buffer_name.

(** [PipelinedModel.parse_proto_object] *)
Definition parse_proto_object (buffer_name : string)
  (buffer_object_serialized_string : bytes) : result message :=
  match get_proto_buffer_class buffer_name with
  | None => Err TypeError
  | Some cls =>
      match ParseFromString cls buffer_object_serialized_string with
      | Some buffer_object => Ok buffer_object
      | None =>
          match ParseFromString DefaultEmptyFillMessage
                  buffer_object_serialized_string with
          | None => Err DecodeError
          | Some _ =>
              match ParseFromString cls [] with
              | Some buffer_object => Ok buffer_object
              | None => Err DecodeError
              end
          end
      end
  end.

(** [open(define_meta_path).read()] through [yaml.safe_load] *)
Definition read_define_meta (self : PipelinedModel) : io define_index := λ fs,
  match fs !! define_meta_path self with
  | Some (Yaml d) => (Ok d, fs)
  | Some (File _) => (Err (ValueError "Invalid meta file"), fs)
  | Some Dir => (Err IsADirectoryError, fs)
  | None => (Err FileNotFoundError, fs)
  end.

(** [PipelinedModel.update_component_meta] *)
Definition update_component_meta (self : PipelinedModel)
  (component_name component_module_name model_alias : string)
  (model_proto_index : gmap string string) : io unit :=
  local_cache_required self (
    let* _define_index := read_define_meta self in
    let cd := component_define _define_index in
    let cd := <[component_name :=
                  <["module_name" := component_module_name]>
                    (default ∅ (cd !! component_name))]> cd in
    let mp := model_proto _define_index in
    let of_component := default ∅ (mp !! component_name) in
    let of_alias := default ∅ (of_component !! model_alias) in
    let mp := <[component_name :=
                  <[model_alias := model_proto_index ∪ of_alias]> of_component]>
                mp in
    let define_index := {| component_define := cd; model_proto := mp |} in
    if decide (define_index ≠ _define_index)
    then λ fs, (Ok tt, <[define_meta_path self := Yaml define_index]> fs)
    else ret tt).

(** [PipelinedModel.get_model_proto_index] *)
Definition get_model_proto_index (self : PipelinedModel)
  (component_name model_alias : string) : io (gmap string string) :=
  local_cache_required self (
    let* define_index := read_define_meta self in
    ret (default ∅ (default ∅ (model_proto define_index !! component_name)
                      !! model_alias))).

(** A path as the string that [os.path.join] builds of it: every
    component with a slash before it. *)
Definition path_str (p : path) : string :=
  foldr (λ c s, "/" +:+ c +:+ s) "" p.

(** [s.replace(old, new)] from a position on, for an [old] that is not
    empty: the occurrences of [old] are found from left to right and do
    not overlap; [skip] characters of the occurrence found last are still
    to be left out. *)
Fixpoint replace_from (old new : string) (skip : nat) (s : string) : string :=
  match s with
  | EmptyString => EmptyString
  | String c s' =>
      match skip with
      | S k => replace_from old new k s'
      | O =>
          if String.prefix old s
          then new +:+ replace_from old new (String.length old - 1) s'
          else String c (replace_from old new 0 s')
      end
  end.

(** [s.replace(old, new)]; an empty [old] is found before every
    character and at the end. *)
Definition str_replace (s old new : string) : string :=
  if decide (old = "") then
    new +:+ (fix go (s : string) : string :=
               match s with
               | EmptyString => EmptyString
               | String c s' => String c (new +:+ go s')
               end) s
  else replace_from old new 0 s.

(** [d[k] = v] for a dictionary kept as the list of its items in the
    order of insertion: a key that is there keeps its place. *)
Fixpoint dict_set {A} (k : string) (v : A) (d : list (string * A))
  : list (string * A) :=
  match d with
  | [] => [(k, v)]
  | (k', v') :: d' =>
      if decide (k' = k) then (k, v) :: d' else (k', v') :: dict_set k v d'
  end.

(** A name that [os.path.join] appends as one component of its own:
    not empty, not [.] or [..], and without a slash. *)
Definition plain_name (s : string) : bool :=
  negb (String.eqb s "") && negb (String.eqb s ".") &&
  negb (String.eqb s "..") &&
  forallb (λ c, negb (Ascii.eqb c "/")) (String.list_ascii_of_string s).

(** What is handed to the tracker client instead of being written; the
    dictionary under "buffer" has the keys that [save_component_model]
    makes of the storage paths. *)
Record component_model := {
  cm_buffer : list (string * string);
  cm_component_name : string;
  cm_component_module_name : string;
  cm_model_alias : string;
  cm_model_proto_index : gmap string string
}.

(** The loop of [save_component_model] over [model_buffers.items()]. *)
Fixpoint save_buffers (self : PipelinedModel)
  (component_model_storage_path : path) (tracker_client : bool)
  (model_buffers : list (string * message))
  (acc : gmap string string * list (string * string))
  : io (gmap string string * list (string * string)) :=
  match model_buffers with
  | [] => ret acc
  | (model_name, buffer_object) :: rest =>
      let storage_path := component_model_storage_path ++ [model_name] in
      let buffer_object_serialized_string := serialized_or_fill buffer_object in
      let* buffer :=
        (if tracker_client then
           ret (dict_set
                  (str_replace (path_str storage_path)
                     (path_str (project_base_directory self)) "")
                  (b64encode buffer_object_serialized_string) acc.2)
         else
           let* _ := write_bytes storage_path buffer_object_serialized_string in
           ret acc.2) in
      save_buffers self component_model_storage_path tracker_client rest
        (<[model_name := class_name (type_of buffer_object)]> acc.1, buffer)
  end.

(** [PipelinedModel.save_component_model]; with a tracker client the
    result is what that client is given. *)
Definition save_component_model (self : PipelinedModel)
  (component_name component_module_name model_alias : string)
  (model_buffers : list (string * message)) (tracker_client : bool)
  : io (option component_model) :=
  let component_model_storage_path :=
    variables_data_path self ++ [component_name; model_alias] in
  let* _ := (if tracker_client then ret tt
             else os_makedirs component_model_storage_path true) in
  let* r := save_buffers self component_model_storage_path tracker_client
              model_buffers (∅, []) in
  if tracker_client then
    ret (Some {| cm_buffer := r.2; cm_component_name := component_name;
                 cm_component_module_name := component_module_name;
                 cm_model_alias := model_alias;
                 cm_model_proto_index := r.1 |})
  else
    let* _ := update_component_meta self component_name component_module_name
                model_alias r.1 in
    ret None.

(** The loop of [read_component_model] over [model_proto_index.items()]. *)
Fixpoint read_buffers (component_model_storage_path : path) (parse : bool)
  (index : list (string * string))
  : io (list (string * (message + string * string))) :=
  match index with
  | [] => ret []
  | (model_name, buffer_name) :: rest =>
      let* buffer_object_serialized_string :=
        read_bytes (component_model_storage_path ++ [model_name]) in
      let* entry :=
        (if parse then
           match parse_proto_object buffer_name
                   buffer_object_serialized_string with
           | Ok buffer_object => ret (inl buffer_object)
           | Err e => raise e
           end
         else ret (inr (buffer_name,
                        b64encode buffer_object_serialized_string))) in
      let* others := read_buffers component_model_storage_path parse rest in
      ret ((model_name, entry) :: others)
  end.

(** [PipelinedModel.read_component_model] *)
Definition read_component_model (self : PipelinedModel)
  (component_name model_alias : string) (parse : bool)
  : io (list (string * (message + string * string))) :=
  let component_model_storage_path :=
    variables_data_path self ++ [component_name; model_alias] in
  let* model_proto_index := get_model_proto_index self component_name
                              model_alias in
  read_buffers component_model_storage_path parse
    (map_to_list model_proto_index).

End with_protobuf.

(** *** A fragment of the protobuf wire format

    [google.protobuf] is not part of the repository. For running the
    code above on samples, messages whose fields are strings (ASCII) and
    unsigned varints are encoded as the wire format prescribes: a key
    [(field << 3) | wire_type] as a varint, then a varint (wire type 0) or
    a length and that many bytes (wire type 2); fields at their default
    are not written; a field that the class does not have with that wire
    type is kept as an unknown field. Other wire types are outside the
    fragment. *)

Inductive field_type := TString | TUInt64.

Record descriptor := {
  d_name : string;
  d_fields : list (N * field_type)
}.

Inductive field_value :=
| VString (s : bytes)
| VUInt64 (n : N).

Record wire_message := {
  m_class : descriptor;
  m_fields : gmap N field_value;
  m_unknown : bytes
}.

Definition byte_of_N (n : N) : byte := default x00 (Byte.of_N n).

Fixpoint decode_varint (bs : bytes) (shift acc : N) : option (N * bytes) :=
  match bs with
  | [] => None
  | b :: rest =>
      let n := Byte.to_N b in
      let acc := (acc + N.shiftl (N.land n 127) shift)%N in
      if (n <? 128)%N then Some (acc, rest)
      else decode_varint rest (shift + 7)%N acc
  end.

Fixpoint encode_varint (fuel : nat) (n : N) : bytes :=
  match fuel with
  | O => []
  | S fuel' =>
      if (n <? 128)%N then [byte_of_N n]
      else byte_of_N (N.lor (N.land n 127) 128)
             :: encode_varint fuel' (N.shiftr n 7)
  end.

Definition field_type_of (d : descriptor) (field : N) : option field_type :=
  (list_to_map (d_fields d) : gmap N field_type) !! field.

Definition is_ascii (s : bytes) : bool :=
  forallb (λ b, Byte.to_N b <? 128)%N s.

Fixpoint parse_fields (fuel : nat) (d : descriptor) (bs : bytes)
  (fields : gmap N field_value) (unknown : bytes)
  : option (gmap N field_value * bytes) :=
  match bs with
  | [] => Some (fields, unknown)
  | _ =>
      match fuel with
      | O => None
      | S fuel' =>
          '(key, rest) ← decode_varint bs 0 0;
          let field := N.shiftr key 3 in
          let wire_type := N.land key 7 in
          if (field =? 0)%N then None
          else if (wire_type =? 0)%N then
            '(v, rest') ← decode_varint rest 0 0;
            match field_type_of d field with
            | Some TUInt64 =>
                parse_fields fuel' d rest'
                  (if (v =? 0)%N then delete field fields
                   else <[field := VUInt64 v]> fields) unknown
            | _ =>
                parse_fields fuel' d rest' fields
                  (unknown ++ take (length bs - length rest') bs)
            end
          else if (wire_type =? 2)%N then
            '(len, rest') ← decode_varint rest 0 0;
            if (length rest' <? N.to_nat len)%nat then None
            else
              let payload := take (N.to_nat len) rest' in
              let rest'' := drop (N.to_nat len) rest' in
              match field_type_of d field with
              | Some TString =>
                  if is_ascii payload then
                    parse_fields fuel' d rest''
                      (match payload with
                       | [] => delete field fields
                       | _ => <[field := VString payload]> fields
                       end) unknown
                  else None
              | _ =>
                  parse_fields fuel' d rest'' fields
                    (unknown ++ take (length bs - length rest'') bs)
              end
          else None
      end
  end.

Definition serialize_field (fields : gmap N field_value)
  (decl : N * field_type) : bytes :=
  match fields !! decl.1 with
  | Some (VString s) =>
      encode_varint 10 (N.lor (N.shiftl decl.1 3) 2)
        ++ encode_varint 10 (N.of_nat (length s)) ++ s
  | Some (VUInt64 n) =>
      encode_varint 10 (N.shiftl decl.1 3) ++ encode_varint 10 n
  | None => []
  end.

Definition wire_serialize (m : wire_message) : bytes :=
  concat (serialize_field (m_fields m) <$> d_fields (m_class m)) ++ m_unknown m.

Definition wire_parse (cls : descriptor) (bs : bytes) : option wire_message :=
  '(fields, unknown) ← parse_fields (length bs) cls bs ∅ [];
  Some {| m_class := cls; m_fields := fields; m_unknown := unknown |}.

(** [message DefaultEmptyFillMessage { string flag = 1; }] *)
Definition DefaultEmptyFillMessage_descriptor : descriptor :=
  {| d_name := "DefaultEmptyFillMessage"; d_fields := [(1%N, TString)] |}.

(** A generated class whose field 1 is a string, as the penalty of the
    meta message of the logistic regression is. The file that describes
    that message is not among the sources; only its string fields 1
    (penalty) and 4 (optimizer) are kept, and only field 1 plays a part. *)
Definition LRModelMeta : descriptor :=
  {| d_name := "LRModelMeta";
     d_fields := [(1%N, TString); (4%N, TString)] |}.

(** A generated class whose field 1 is a number. *)
Definition OneHotMeta : descriptor :=
  {| d_name := "OneHotMeta"; d_fields := [(1%N, TUInt64); (2%N, TString)] |}.

Definition wire_protobuf : Protobuf :=
  {| pb_class := descriptor;
     message := wire_message;
     class_name := d_name;
     type_of := m_class;
     new := λ cls, {| m_class := cls; m_fields := ∅; m_unknown := [] |};
     SerializeToString := wire_serialize;
     ParseFromString := wire_parse;
     DefaultEmptyFillMessage := DefaultEmptyFillMessage_descriptor;
     fill_message_with_flag := λ flag,
       {| m_class := DefaultEmptyFillMessage_descriptor;
          m_fields := {[ 1%N := VString (String.list_byte_of_string flag) ]};
          m_unknown := [] |};
     listdir_generated := [".gitignore"; "lr_model_meta_pb2.py";
                           "onehot_meta_pb2.py"];
     import_module := λ name,
       if decide (name = "federatedml.protobuf.generated.lr_model_meta_pb2")
       then Some [("DESCRIPTOR", None); ("LRModelMeta", Some LRModelMeta)]
       else if decide (name = "federatedml.protobuf.generated.onehot_meta_pb2")
       then Some [("DESCRIPTOR", None); ("OneHotMeta", Some OneHotMeta)]
       else None |}.

(** UTF-8 for the code points below U+0800: one byte below 128, two
    bytes from U+0080 on; anything else is refused. *)
Fixpoint sample_decode (bs : bytes) : option text :=
  match bs with
  | [] => Some []
  | b :: rest =>
      let n := Byte.to_N b in
      if (n <? 128)%N then cons n <$> sample_decode rest
      else if ((194 <=? n) && (n <? 224))%N then
        match rest with
        | b' :: rest' =>
            let m := Byte.to_N b' in
            if ((128 <=? m) && (m <? 192))%N
            then cons ((n - 192) * 64 + (m - 128))%N <$> sample_decode rest'
            else None
        | [] => None
        end
      else None
  end.

(** The line ends of a file read as text: [\r\n] and [\r] become [\n]. *)
Fixpoint universal_newlines (s : text) : text :=
  match s with
  | [] => []
  | c :: s' =>
      if (c =? 13)%N then
        10%N :: match s' with
                | c' :: s'' =>
                    if (c' =? 10)%N then universal_newlines s''
                    else universal_newlines s'
                | [] => []
                end
      else c :: universal_newlines s'
  end.

Definition sample_encode (s : text) : bytes :=
  s ≫= λ c, if (c <? 128)%N then [byte_of_N c]
            else [byte_of_N (192 + c / 64); byte_of_N (128 + c mod 64)].

(** Stand-ins for the library functions, for running samples: the digest
    of a content is its length in decimal, the text codec is the one
    above, base64 keeps the bytes, and an archive unpacks to one member
    with its content. *)
Definition sample_runtime : Runtime :=
  {| sha1_hexdigest := λ c,
       Ascii.N_of_ascii <$> String.list_ascii_of_string (pretty (length c));
     b64encode := String.string_of_list_byte;
     decode_utf8 := λ c, universal_newlines <$> sample_decode c;
     archive_entries := λ c, Some [(["pipeline.pb"], File c)] |}.

Definition sample_model : PipelinedModel :=
  {| model_id := "guest-9999"; model_version := "202101";
     project_base_directory := ["fate"] |}.

(** The local cache right after [create_pipelined_model]. *)
Definition created_cache : filesystem :=
  list_to_map
    [ (["fate"], Dir);
      (["fate"; "model_local_cache"], Dir);
      (["fate"; "model_local_cache"; "guest-9999"], Dir);
      (model_path sample_model, Dir);
      (model_path sample_model ++ ["define"], Dir);
      (model_path sample_model ++ ["variables"], Dir);
      (model_path sample_model ++ ["variables"; "index"], Dir);
      (variables_data_path sample_model, Dir);
      (define_meta_path sample_model,
       Yaml {| component_define := ∅; model_proto := ∅ |}) ].

(** *** Creating and packaging

    The lock file [.lock] that the methods take with [self.lock] is kept
    out of the file system here. *)

(** What the Python code further takes from [shutil], the text codec and
    the settings. *)
Class Library := {
  encode_utf8 : text → bytes;
  zip_of : list (path * node) → bytes;      (* the archive of a tree *)
  python_base_directory : path;             (* file_utils.get_python_base_directory() *)
  TEMP_DIRECTORY : path
}.

Definition define_proto_path (self : PipelinedModel) : path :=
  model_path self ++ ["define"; "proto"].
Definition variables_index_path (self : PipelinedModel) : path :=
  model_path self ++ ["variables"; "index"].

(** What lies below a directory, by its path from there. *)
Definition tree_under (root : path) (fs : filesystem) : list (path * node) :=
  omap (λ '(p, n), if bool_decide (root `prefix_of` p ∧ p ≠ root)
                   then Some (drop (length root) p, n) else None)
       (map_to_list fs).

(** [shutil.copytree(src, dst)] *)
Definition shutil_copytree (src dst : path) : io unit := λ fs,
  match fs !! src with
  | Some Dir =>
      match os_makedirs dst false fs with
      | (Ok _, fs') =>
          (Ok tt, foldr (λ '(rel, n) fs, <[dst ++ rel := n]> fs) fs'
                    (tree_under src fs))
      | (Err e, fs') => (Err e, fs')
      end
  | Some _ => (Err NotADirectoryError, fs)
  | None => (Err FileNotFoundError, fs)
  end.

(** [open(p, 'x')] and writing [n]: the file must not be there yet. *)
Definition create_exclusive (p : path) (n : node) : io unit := λ fs,
  match fs !! p with
  | Some _ => (Err FileExistsError, fs)
  | None =>
      match fs !! (take (length p - 1) p) with
      | Some Dir => (Ok tt, <[p := n]> fs)
      | Some _ => (Err NotADirectoryError, fs)
      | None => (Err FileNotFoundError, fs)
      end
  end.

Section with_library.
Context `{Runtime} `{Protobuf} `{Library}.

(** [PipelinedModel.create_pipelined_model]; the meta file starts with a
    describing line only. *)
Definition create_pipelined_model (self : PipelinedModel) : io unit :=
  let* ex := exists_ self in
  if ex : bool then raise FileExistsError else
  let* _ := os_makedirs (model_path self) false in
  let* _ := os_makedirs (variables_index_path self) false in
  let* _ := os_makedirs (variables_data_path self) false in
  let* _ := shutil_copytree
              (python_base_directory ++ ["federatedml"; "protobuf"; "proto"])
              (define_proto_path self) in
  create_exclusive (define_meta_path self)
    (Yaml {| component_define := ∅; model_proto := ∅ |}).

(** [PipelinedModel.get_component_define] *)
Definition get_component_define (self : PipelinedModel)
  (component_name : option string)
  : io (gmap string string + gmap string (gmap string string)) :=
  local_cache_required self (
    let* define_index := read_define_meta self in
    match component_name with
    | Some component_name =>
        ret (inl (default ∅ (component_define define_index !! component_name)))
    | None => ret (inr (component_define define_index))
    end).

(** [archive_model_base_path], [archive_model_file_path] *)
Definition archive_model_base_path (self : PipelinedModel) : path :=
  TEMP_DIRECTORY ++ [model_id self +:+ "_" +:+ model_version self].
Definition archive_model_file_path (self : PipelinedModel) : path :=
  add_ext (archive_model_base_path self) ".zip".

(** [shutil.make_archive(base_name, "zip", root_dir)]: the directory of
    the archive is made if it is not there; the archive holds what lies
    below [root_dir]. *)
Definition shutil_make_archive (base_name root_dir : path) : io path := λ fs,
  match fs !! root_dir with
  | Some Dir =>
      let archive_dir := take (length base_name - 1) base_name in
      let archive := add_ext base_name ".zip" in
      bind (if bool_decide (is_Some (fs !! archive_dir)) then ret tt
            else os_makedirs archive_dir false)
        (λ _, bind (write_bytes archive (zip_of (tree_under root_dir fs)))
                (λ _, ret archive)) fs
  | Some _ => (Err NotADirectoryError, fs)
  | None => (Err FileNotFoundError, fs)
  end.

(** [PipelinedModel.packaging_model] *)
Definition packaging_model (self : PipelinedModel) : io path :=
  local_cache_required self (
    let* archive_file_path :=
      shutil_make_archive (archive_model_base_path self) (model_path self) in
    let* content := read_bytes archive_file_path in
    let sha1 := sha1_hexdigest content in
    let* _ := write_bytes (add_ext archive_file_path ".sha1") (encode_utf8 sha1) in
    ret archive_file_path).

(** The index that [save_component_model] builds: for each buffer, in
    order, the name of its class under its model name. *)
Definition proto_index_of (model_buffers : list (string * message))
  (index : gmap string string) : gmap string string :=
  foldl (λ index '(model_name, buffer_object),
           <[model_name := class_name (type_of buffer_object)]> index)
        index model_buffers.

(** What is read back for a buffer that was saved: the object itself
    when parsed, else the name of its class and the base64 of the bytes
    stored for it. *)
Definition read_back (parse : bool) (buffer_object : message)
  : message + string * string :=
  if parse then inl buffer_object
  else inr (class_name (type_of buffer_object),
            b64encode (serialized_or_fill buffer_object)).

End with_library.

(** Stand-ins for the library functions, for running samples: the text
    codec is the one above, and the archive of a tree with one file is the
    content of that file. *)
Definition sample_library : Library :=
  {| encode_utf8 := sample_encode;
     zip_of := λ tree, match tree with
                       | [(_, File c)] => c
                       | _ => []
                       end;
     python_base_directory := ["fate"; "python"];
     TEMP_DIRECTORY := ["fate"; "temp"] |}.

(** A meta buffer with its penalty set. *)
Definition sample_meta : @message wire_protobuf :=
  ({| m_class := LRModelMeta;
      m_fields := {[ 1%N := VString [x4c; x32] ]};
      m_unknown := [] |} : wire_message).

(** A second model, without a cache. *)
Definition other_model : PipelinedModel :=
  {| model_id := "host-10000"; model_version := "202101";
     project_base_directory := ["fate"] |}.

(** A model of an installation under [/data]. *)
Definition data_model : PipelinedModel :=
  {| model_id := "m"; model_version := "v";
     project_base_directory := ["data"] |}.

(** The installation before any model is created: the directory of the
    proto files with one file in it. *)
Definition installed : filesystem :=
  list_to_map
    [ (["fate"], Dir);
      (["fate"; "python"], Dir);
      (["fate"; "python"; "federatedml"], Dir);
      (["fate"; "python"; "federatedml"; "protobuf"], Dir);
      (["fate"; "python"; "federatedml"; "protobuf"; "proto"], Dir);
      (["fate"; "python"; "federatedml"; "protobuf"; "proto"; "lr-model-meta.proto"],
       File [x73; x79; x6e; x74; x61; x78]) ].

(** A cache that holds a pipeline file only. *)
Definition packed_cache : filesystem :=
  list_to_map
    [ (["fate"], Dir);
      (["fate"; "model_local_cache"], Dir);
      (["fate"; "model_local_cache"; "guest-9999"], Dir);
      (model_path sample_model, Dir);
      (model_path sample_model ++ ["pipeline.pb"], File [x01; x02]) ].

End PipelinedModel.

(** ** Part II: theorems *)

Section HeteroLR_facts.
Import HeteroLR.
Local Open Scope Z_scope.

Lemma bind_unfold {A B} (p : proc A) (f : A → proc B) : p ≫= f = bind p f.
Proof. reflexivity. Qed.

Lemma run_bind {E A B} (env : environment E) (p : proc A) (f : A → proc B) e :
  run env (bind p f) e =
    match run env p e with
    | (tr, Returned a, e') =>
        let '(tr', o, e'') := run env (f a) e' in (tr ++ tr', o, e'')
    | (tr, Raised x, e') => (tr, Raised x, e')
    end.
Proof.
  revert e. induction p as [a|x|n s k IH|n k IH|n s k IH|ws wr ft sf k IH
    |wa wb er ft sf k IH|l n sf k IH|z k IH|pl r sf k IH|sf k IH|k IH|n k IH];
    intros e; simpl.
  - destruct (run env (f a) e) as [[tr o] e']. reflexivity.
  - reflexivity.
  - rewrite IH. destruct (run env k e) as [[tr [a|x]] e']; simpl; [|done].
    destruct (run env (f a) e') as [[tr' o'] e'']. reflexivity.
  - destruct (on_get_share env e n) as [a e1]. rewrite IH.
    destruct (run env (k a) e1) as [[tr [b|x]] e']; simpl; [|done].
    destruct (run env (f b) e') as [[tr' o'] e'']. reflexivity.
  - destruct (on_from_source env e n s) as [a e1]. rewrite IH.
    destruct (run env (k a) e1) as [[tr [b|x]] e']; simpl; [|done].
    destruct (run env (f b) e') as [[tr' o'] e'']. reflexivity.
  - destruct (on_cal_prediction env e ws wr ft sf) as [a e1]. rewrite IH.
    destruct (run env (k a) e1) as [[tr [b|x]] e']; simpl; [|done].
    destruct (run env (f b) e') as [[tr' o'] e'']. reflexivity.
  - destruct (on_compute_gradient env e wa wb er ft sf) as [a e1]. rewrite IH.
    destruct (run env (k a) e1) as [[tr [b|x]] e']; simpl; [|done].
    destruct (run env (f b) e') as [[tr' o'] e'']. reflexivity.
  - destruct (on_check_converge env e l n sf) as [a e1]. rewrite IH.
    destruct (run env (k a) e1) as [[tr [b|x]] e']; simpl; [|done].
    destruct (run env (f b) e') as [[tr' o'] e'']. reflexivity.
  - destruct (on_distribute_encrypt env e z) as [a e1]. rewrite IH.
    destruct (run env (k a) e1) as [[tr [b|x]] e']; simpl; [|done].
    destruct (run env (f b) e') as [[tr' o'] e'']. reflexivity.
  - rewrite IH. destruct (run env k e) as [[tr [a|x]] e']; simpl; [|done].
    destruct (run env (f a) e') as [[tr' o'] e'']. reflexivity.
  - destruct (on_get_parties env e sf) as [a e1]. rewrite IH.
    destruct (run env (k a) e1) as [[tr [b|x]] e']; simpl; [|done].
    destruct (run env (f b) e') as [[tr' o'] e'']. reflexivity.
  - destruct (on_transfer_pubkey env e) as [a e1]. rewrite IH.
    destruct (run env (k a) e1) as [[tr [b|x]] e']; simpl; [|done].
    destruct (run env (f b) e') as [[tr' o'] e'']. reflexivity.
  - rewrite IH. destruct (run env k e) as [[tr [a|x]] e']; simpl; [|done].
    destruct (run env (f a) e') as [[tr' o'] e'']. reflexivity.
Qed.

(** *** Schedules do not matter *)

Lemma take_app name (box : list (string * list Z)) m s rest :
  take name box = Some (s, rest) → take name (box ++ [m]) = Some (s, rest ++ [m]).
Proof.
  revert s rest. induction box as [|[n x] box IH]; intros s rest; simpl; [done|].
  case_decide.
  - intros [= <- <-]. reflexivity.
  - destruct (take name box) as [[r rest']|] eqn:Ht; simpl; [|done].
    intros [= <- <-]. rewrite (IH r rest' eq_refl). reflexivity.
Qed.

Lemma step_commute {A B} (c c1 c2 : config A B) :
  step_guest c = Some c1 → step_host c = Some c2 →
  ∃ z, step_host c1 = Some z ∧ step_guest c2 = Some z.
Proof.
  destruct c as [g h tg th lg lh]. unfold step_guest, step_host; simpl.
  destruct g as [| |gn gs gk|gn gk| | | | | | | | |]; try done;
    destruct h as [| |hn hs hk|hn hk| | | | | | | | |]; try done; simpl.
  - intros [= <-] [= <-]; simpl. eauto.
  - intros [= <-]. destruct (take hn th) as [[s rest]|] eqn:Ht; [|done].
    intros [= <-]; simpl. rewrite (take_app _ _ _ _ _ Ht); simpl. eauto.
  - destruct (take gn tg) as [[s rest]|] eqn:Ht; [|done].
    intros [= <-] [= <-]; simpl. rewrite (take_app _ _ _ _ _ Ht); simpl. eauto.
  - destruct (take gn tg) as [[s rest]|] eqn:Hg; [|done].
    destruct (take hn th) as [[s' rest']|] eqn:Hh; [|done].
    intros [= <-] [= <-]; simpl. rewrite Hg, Hh; simpl. eauto.
Qed.

Lemma step_or_stay_diamond {A B} : diamond (@step_or_stay A B).
Proof.
  intros c c1 c2 [<-|H1] [<-|H2].
  - exists c. split; by left.
  - exists c2. split; [by right|by left].
  - exists c1. split; [by left|by right].
  - destruct H1 as [H1|H1], H2 as [H2|H2].
    + exists c1. rewrite H1 in H2. injection H2 as <-. split; by left.
    + destruct (step_commute _ _ _ H1 H2) as (z & ? & ?).
      exists z. split; right; [by right|by left].
    + destruct (step_commute _ _ _ H2 H1) as (z & ? & ?).
      exists z. split; right; [by left|by right].
    + exists c1. rewrite H1 in H2. injection H2 as <-. split; by left.
Qed.

Lemma quiescent_stays {A B} (c c' : config A B) :
  quiescent c → rtc step_or_stay c c' → c' = c.
Proof.
  intros [Hg Hh]. induction 1 as [|c c1 c2 [<-|[H|H]] _ IH]; [done|auto|congruence..].
Qed.

(** Whatever the order in which the two parties move, they come to rest
    in the same configuration. *)
Lemma quiescent_unique {A B} (c c1 c2 : config A B) :
  rtc step c c1 → quiescent c1 → rtc step c c2 → quiescent c2 → c1 = c2.
Proof.
  intros H1 Q1 H2 Q2.
  assert (Hsub : ∀ x y : config A B, rtc step x y → rtc step_or_stay x y).
  { intros x y. apply rtc_subrel. intros ???. by right. }
  destruct (diamond_confluent step_or_stay_diamond c c1 c2) as (z & Hz1 & Hz2);
    [by apply Hsub..|].
  apply quiescent_stays in Hz1; [|done]. apply quiescent_stays in Hz2; [|done].
  congruence.
Qed.

Lemma joint_run_reaches {A B} fuel (c : config A B) : rtc step c (joint_run fuel c).
Proof.
  revert c. induction fuel as [|fuel IH]; intros c; simpl; [done|].
  destruct (step_guest c) as [c'|] eqn:Hg.
  - eapply rtc_l; [by left|apply IH].
  - destruct (step_host c) as [c'|] eqn:Hh; [|done].
    eapply rtc_l; [by right|apply IH].
Qed.

(** A configuration at rest that the fixed schedule reaches is the one
    every schedule ends in. *)
Lemma joint_run_final {A B} fuel (c f : config A B) :
  joint_run fuel c = f → quiescent f →
  rtc step c f ∧ ∀ c', rtc step c c' → quiescent c' → c' = f.
Proof.
  intros <- Q. split; [apply joint_run_reaches|].
  intros c' H Q'. eapply quiescent_unique; eauto using joint_run_reaches.
Qed.

(** *** The review step *)

Ltac joint_steps :=
  repeat (unfold step_guest, step_host; simpl;
          rewrite ?decide_True by done;
          rewrite ?bool_decide_true by (unfold shape in *; congruence);
          rewrite ?bool_decide_false by (unfold shape in *; lia);
          unfold proc_bind, mret, proc_ret; simpl).

Lemma respectively_final g h wb_g wa_g wa_h wb_h :
  role g = GUEST → role h = HOST →
  review_strategy g = "respectively" → review_strategy h = "respectively" →
  n_iter_ h = n_iter_ g →
  shape wb_h = shape wb_g → shape wa_g = shape wa_h →
  joint_run 4 (start (review_models g wb_g wa_g) (review_models h wa_h wb_h)) =
    {| guest := Ret (combine_shares wb_g (value wb_h),
                     reviewed (combine_shares wb_g (value wb_h)) g);
       host := Ret (combine_shares wa_h (value wa_g),
                    reviewed (combine_shares wa_h (value wa_g)) h);
       to_guest := []; to_host := [];
       guest_log := [EvGetShare (wb_ (n_iter_ g)) (value wb_h);
                     EvBroadcastShare (wa_ (n_iter_ g)) (value wa_g)];
       host_log := [EvBroadcastShare (wb_ (n_iter_ g)) (value wb_h);
                    EvGetShare (wa_ (n_iter_ g)) (value wa_g)] |}.
Proof.
  intros Hg Hh Sg Sh Hn Lb La. unfold review_models, start.
  rewrite Sg, Sh, Hg, Hh, Hn. simpl. joint_steps. reflexivity.
Qed.

Lemma all_in_guest_final g h wb_g wa_g wa_h wb_h :
  role g = GUEST → role h = HOST →
  review_strategy g = "all_review_in_guest" →
  review_strategy h = "all_review_in_guest" →
  n_iter_ h = n_iter_ g →
  shape wb_h = shape wb_g → shape wa_h = shape wa_g →
  (shape wb_h ≤ 2)%nat →
  joint_run 4 (start (review_models g wb_g wa_g) (review_models h wa_h wb_h)) =
    {| guest := Ret (combine_shares wb_g (value wb_h),
                     reviewed (combine_shares wb_g (value wb_h))
                       (hosting (combine_shares wa_g (value wa_h)) g));
       host := Ret (np_zeros (shape wa_h), reviewed (np_zeros (shape wa_h)) h);
       to_guest := []; to_host := [];
       guest_log := [EvGetShare (wb_ (n_iter_ g)) (value wb_h);
                     EvGetShare (wa_ (n_iter_ g)) (value wa_h)];
       host_log := [EvBroadcastShare (wb_ (n_iter_ g)) (value wb_h);
                    EvBroadcastShare (wa_ (n_iter_ g)) (value wa_h)] |}.
Proof.
  intros Hg Hh Sg Sh Hn Lb La Hguard. unfold review_models, start.
  rewrite Sg, Sh, Hg, Hh, Hn. simpl. joint_steps. reflexivity.
Qed.

(** C3. Under "respectively" the review is symmetric. The Guest asks for
    the Host's share of [wb] and reconstructs its own shard, then sends its
    share of [wa]; the Host sends its share of [wb], then asks for the
    Guest's share of [wa] and reconstructs its own shard. Every schedule
    ends in this one configuration. What the Guest receives and returns
    is the same whatever share of [wa] the Host holds, and what the Host
    receives and returns is the same whatever share of [wb] the Guest
    holds. *)
Theorem respectively_review_symmetric g h wb_g wa_g wa_h wb_h :
  role g = GUEST → role h = HOST →
  review_strategy g = "respectively" → review_strategy h = "respectively" →
  n_iter_ h = n_iter_ g →
  shape wb_h = shape wb_g → shape wa_g = shape wa_h →
  let review wb_g' wa_h' :=
    start (review_models g wb_g' wa_g) (review_models h wa_h' wb_h) in
  let final :=
    {| guest := Ret (combine_shares wb_g (value wb_h),
                     reviewed (combine_shares wb_g (value wb_h)) g);
       host := Ret (combine_shares wa_h (value wa_g),
                    reviewed (combine_shares wa_h (value wa_g)) h);
       to_guest := []; to_host := [];
       guest_log := [EvGetShare (wb_ (n_iter_ g)) (value wb_h);
                     EvBroadcastShare (wa_ (n_iter_ g)) (value wa_g)];
       host_log := [EvBroadcastShare (wb_ (n_iter_ g)) (value wb_h);
                    EvGetShare (wa_ (n_iter_ g)) (value wa_g)] |} in
  rtc step (review wb_g wa_h) final ∧ quiescent final ∧
  (∀ c, rtc step (review wb_g wa_h) c → quiescent c → c = final) ∧
  (∀ wa_h' c, shape wa_h' = shape wa_h →
     rtc step (review wb_g wa_h') c → quiescent c →
     guest c = guest final ∧ guest_log c = guest_log final) ∧
  (∀ wb_g' c, shape wb_g' = shape wb_g →
     rtc step (review wb_g' wa_h) c → quiescent c →
     host c = host final ∧ host_log c = host_log final).
Proof.
  intros Hg Hh Sg Sh Hn Lb La review final.
  assert (Q : ∀ a b x y, quiescent
    {| guest := Ret a : proc (list Z * HeteroLRBase);
       host := Ret b : proc (list Z * HeteroLRBase);
       to_guest := []; to_host := []; guest_log := x; host_log := y |})
    by (by split).
  destruct (joint_run_final 4 (review wb_g wa_h) final) as [R U];
    [by apply respectively_final|by apply Q|].
  split; [done|]. split; [by apply Q|]. split; [done|]. split.
  - intros wa_h' c L R' Q'.
    destruct (joint_run_final 4 (review wb_g wa_h') _
      (respectively_final g h wb_g wa_g wa_h' wb_h Hg Hh Sg Sh Hn Lb
         ltac:(congruence)) (Q _ _ _ _)) as [_ U'].
    rewrite (U' c R' Q'). done.
  - intros wb_g' c L R' Q'.
    destruct (joint_run_final 4 (review wb_g' wa_h) _
      (respectively_final g h wb_g' wa_g wa_h wb_h Hg Hh Sg Sh Hn
         ltac:(congruence) La) (Q _ _ _ _)) as [_ U'].
    rewrite (U' c R' Q'). done.
Qed.

Lemma respectively_review_symmetric_witness :
  let g := sample_party GUEST HOST "respectively" 5 in
  let h := sample_party HOST GUEST "respectively" 5 in
  ∃ final,
    rtc step (start (review_models g (tensor97 [10; 20]) (tensor97 [30]))
                    (review_models h (tensor97 [40]) (tensor97 [90; 80])))
        final ∧
    guest final = Ret ([3; 3]%Z, reviewed [3; 3]%Z g) ∧
    host final = Ret ([-27]%Z, reviewed [-27]%Z h).
Proof.
  intros g h.
  destruct (respectively_review_symmetric g h (tensor97 [10; 20])
    (tensor97 [30]) (tensor97 [40]) (tensor97 [90; 80])) as (R & _);
    [reflexivity..|].
  eexists. split; [exact R|]. split; reflexivity.
Defined.

(** C7, as the code has it. Under "all_review_in_guest", when the
    Host's share of the Guest's shard [wb] has at most 2 entries (the guard
    that the Host's review tests), the Guest reconstructs its own shard,
    which it returns and keeps as its model weights, and the Host's shard,
    which it keeps as hosted model weights without intercept; nothing else
    of the Guest changes. The Host sends both its shares, asks for
    nothing, returns zeros of the length of its own shard and keeps them as
    its model weights, whatever the Guest holds. Every schedule ends in
    this one configuration. *)
Theorem all_review_in_guest_review g h wb_g wa_g wa_h wb_h :
  role g = GUEST → role h = HOST →
  review_strategy g = "all_review_in_guest" →
  review_strategy h = "all_review_in_guest" →
  n_iter_ h = n_iter_ g →
  shape wb_h = shape wb_g → shape wa_h = shape wa_g →
  (shape wb_h ≤ 2)%nat →
  let review wb_g' wa_g' :=
    start (review_models g wb_g' wa_g') (review_models h wa_h wb_h) in
  let own := combine_shares wb_g (value wb_h) in
  let hosted := combine_shares wa_g (value wa_h) in
  let zeros := np_zeros (shape wa_h) in
  let g' :=
    {| role := role g; other_party := other_party g;
       review_strategy := review_strategy g;
       fit_intercept := fit_intercept g; key_length := key_length g;
       max_iter := max_iter g; n_iter_ := n_iter_ g;
       is_converged := is_converged g;
       model_weights :=
         Some {| unboxed := own; lmw_fit_intercept := fit_intercept g |};
       hosted_model_weights :=
         Some {| unboxed := hosted; lmw_fit_intercept := false |};
       labels := labels g; fix_point_encoder_n := fix_point_encoder_n g |} in
  let h' :=
    {| role := role h; other_party := other_party h;
       review_strategy := review_strategy h;
       fit_intercept := fit_intercept h; key_length := key_length h;
       max_iter := max_iter h; n_iter_ := n_iter_ h;
       is_converged := is_converged h;
       model_weights :=
         Some {| unboxed := zeros; lmw_fit_intercept := fit_intercept h |};
       hosted_model_weights := hosted_model_weights h;
       labels := labels h; fix_point_encoder_n := fix_point_encoder_n h |} in
  let final :=
    {| guest := Ret (own, g'); host := Ret (zeros, h');
       to_guest := []; to_host := [];
       guest_log := [EvGetShare (wb_ (n_iter_ g)) (value wb_h);
                     EvGetShare (wa_ (n_iter_ g)) (value wa_h)];
       host_log := [EvBroadcastShare (wb_ (n_iter_ g)) (value wb_h);
                    EvBroadcastShare (wa_ (n_iter_ g)) (value wa_h)] |} in
  rtc step (review wb_g wa_g) final ∧ quiescent final ∧
  (∀ c, rtc step (review wb_g wa_g) c → quiescent c → c = final) ∧
  reconstruct_names (host_log final) = [] ∧
  (∀ wb_g' wa_g' c, shape wb_g' = shape wb_g → shape wa_g' = shape wa_g →
     rtc step (review wb_g' wa_g') c → quiescent c →
     host c = host final ∧ host_log c = host_log final).
Proof.
  intros Hg Hh Sg Sh Hn Lb La Hguard review own hosted zeros g' h' final.
  assert (Hg' : ∀ a b, reviewed own (hosting b a) =
    {| role := role a; other_party := other_party a;
       review_strategy := review_strategy a;
       fit_intercept := fit_intercept a; key_length := key_length a;
       max_iter := max_iter a; n_iter_ := n_iter_ a;
       is_converged := is_converged a;
       model_weights :=
         Some {| unboxed := own; lmw_fit_intercept := fit_intercept a |};
       hosted_model_weights :=
         Some {| unboxed := b; lmw_fit_intercept := false |};
       labels := labels a; fix_point_encoder_n := fix_point_encoder_n a |})
    by (by intros [] ?).
  assert (Hh' : reviewed zeros h = h') by (by destruct h).
  assert (Q : ∀ a b x y, quiescent
    {| guest := Ret a : proc (list Z * HeteroLRBase);
       host := Ret b : proc (list Z * HeteroLRBase);
       to_guest := []; to_host := []; guest_log := x; host_log := y |})
    by (by split).
  assert (F : ∀ wb_g' wa_g', shape wb_g' = shape wb_g →
    shape wa_g' = shape wa_g →
    joint_run 4 (review wb_g' wa_g') =
      {| guest := Ret (combine_shares wb_g' (value wb_h),
                       reviewed (combine_shares wb_g' (value wb_h))
                         (hosting (combine_shares wa_g' (value wa_h)) g));
         host := Ret (zeros, h');
         to_guest := []; to_host := [];
         guest_log := guest_log final; host_log := host_log final |}).
  { intros wb_g' wa_g' Lb' La'. subst h'. rewrite <- Hh'.
    apply all_in_guest_final; congruence. }
  destruct (joint_run_final 4 (review wb_g wa_g) final) as [R U];
    [|by apply Q|].
  { rewrite F by done. subst final own. by rewrite Hg'. }
  split; [done|]. split; [by apply Q|]. split; [done|]. split; [done|].
  intros wb_g' wa_g' c Lb' La' R' Q'.
  destruct (joint_run_final 4 (review wb_g' wa_g') _ (F wb_g' wa_g' Lb' La')
              (Q _ _ _ _)) as [_ U'].
  rewrite (U' c R' Q'). done.
Qed.

Lemma all_review_in_guest_review_witness :
  let g := sample_party GUEST HOST "all_review_in_guest" 5 in
  let h := sample_party HOST GUEST "all_review_in_guest" 5 in
  ∃ final g' h',
    rtc step (start (review_models g (tensor97 [10; 20]) (tensor97 [30; 1]))
                    (review_models h (tensor97 [40; 2]) (tensor97 [90; 80])))
        final ∧
    guest final = Ret ([3; 3]%Z, g') ∧
    model_weights g' =
      Some {| unboxed := [3; 3]%Z; lmw_fit_intercept := false |} ∧
    hosted_model_weights g' =
      Some {| unboxed := [-27; 3]%Z; lmw_fit_intercept := false |} ∧
    host final = Ret ([0; 0]%Z, h') ∧
    model_weights h' =
      Some {| unboxed := [0; 0]%Z; lmw_fit_intercept := false |} ∧
    hosted_model_weights h' = None.
Proof.
  intros g h.
  destruct (all_review_in_guest_review g h (tensor97 [10; 20])
    (tensor97 [30; 1]) (tensor97 [40; 2]) (tensor97 [90; 80]))
    as (R & _); [reflexivity..|unfold shape; simpl; lia|].
  eexists _, _, _. split; [exact R|]. split_and!; reflexivity.
Defined.

(** C7, as stated, fails when the guard is read as the spec has it, on
    the Host's feature count: a Host with two local features (its own
    shard [wa] has length 2) facing a Guest shard of length 3 raises
    [ValueError] in its review. No share is sent, the Guest waits for the
    first share for ever, and its review yields nothing. *)
Lemma all_review_in_guest_small_host_refused :
  let g := sample_party GUEST HOST "all_review_in_guest" 5 in
  let h := sample_party HOST GUEST "all_review_in_guest" 5 in
  let wa_h := tensor97 [40; 2] in
  let c0 := start (review_models g (tensor97 [10; 20; 30]) (tensor97 [30; 1]))
                  (review_models h wa_h (tensor97 [90; 80; 70])) in
  (shape wa_h ≤ 2)%nat ∧
  host c0 = Raise (ValueError too_many_features) ∧
  (∀ c, rtc step c0 c →
     c = c0 ∧ (∀ r, guest c ≠ Ret r) ∧ guest_log c = [] ∧ host_log c = []).
Proof.
  intros g h wa_h c0.
  split; [unfold shape; simpl; lia|]. split; [reflexivity|].
  assert (Q : quiescent c0) by (by split).
  intros c R. apply rtc_nf in R as <-.
  - split; [done|]. split; [|done]. intros r. discriminate.
  - intros [c' [H|H]]; destruct Q; congruence.
Qed.

(** C2, as the code has it. Under "all_review_in_guest" the Host tests
    the length of its remote shard, that is of its share of the Guest's
    weights [wb]: when that exceeds 2 the Host's review raises
    [ValueError] at once. In the joint run nothing moves: no share is
    sent and no weight is reconstructed by either party. *)
Theorem all_review_in_guest_guard g h wb_g wa_g wa_h wb_h :
  role g = GUEST → role h = HOST →
  review_strategy g = "all_review_in_guest" →
  review_strategy h = "all_review_in_guest" →
  (2 < shape wb_h)%nat →
  let c0 := start (review_models g wb_g wa_g) (review_models h wa_h wb_h) in
  review_models h wa_h wb_h = Raise (ValueError too_many_features) ∧
  quiescent c0 ∧
  (∀ c, rtc step c0 c → c = c0 ∧ guest_log c = [] ∧ host_log c = []).
Proof.
  intros Hg Hh Sg Sh Hguard c0.
  assert (Hraise : review_models h wa_h wb_h = Raise (ValueError too_many_features)).
  { unfold review_models. rewrite Sh, Hh. simpl.
    rewrite bool_decide_true by done. reflexivity. }
  assert (Q : quiescent c0).
  { subst c0. rewrite Hraise. unfold review_models. rewrite Sg, Hg. by split. }
  split; [done|]. split; [done|].
  intros c R. apply rtc_nf in R as <-; [done|].
  intros [c' [H|H]]; destruct Q; congruence.
Qed.

Lemma all_review_in_guest_guard_witness :
  let g := sample_party GUEST HOST "all_review_in_guest" 5 in
  let h := sample_party HOST GUEST "all_review_in_guest" 5 in
  review_models h (tensor97 [40]) (tensor97 [90; 80; 70]) =
    Raise (ValueError too_many_features).
Proof.
  intros g h.
  exact (proj1 (all_review_in_guest_guard g h (tensor97 [10; 20; 30])
    (tensor97 [30]) (tensor97 [40]) (tensor97 [90; 80; 70])
    eq_refl eq_refl eq_refl eq_refl ltac:(unfold shape; simpl; lia))).
Defined.

(** C2, as stated, fails: a Host with three local features (its own shard
    [wa] has length 3) and a Guest shard of length 1 passes the guard,
    sends both its shares, and the Guest reconstructs the Host's shard. *)
Lemma host_feature_count_is_not_guarded :
  let g := sample_party GUEST HOST "all_review_in_guest" 5 in
  let h := sample_party HOST GUEST "all_review_in_guest" 5 in
  let wa_h := tensor97 [40; 2; 3] in
  let final := joint_run 4 (start (review_models g (tensor97 [10]) (tensor97 [30; 1; 2]))
                                  (review_models h wa_h (tensor97 [90]))) in
  (2 < shape wa_h)%nat ∧
  host final = Ret ([0; 0; 0]%Z, reviewed [0; 0; 0]%Z h) ∧
  host_log final = [EvBroadcastShare "wb_0" [90]%Z;
                    EvBroadcastShare "wa_0" [40; 2; 3]%Z] ∧
  guest final = Ret ([3]%Z, reviewed [3]%Z (hosting [-27; 3; 5]%Z g)).
Proof. simpl. split; [unfold shape; simpl; lia|]. split; [|split]; reflexivity. Qed.

(** *** One batch *)

Lemma same_config_refl s : same_config s s.
Proof. by repeat split. Qed.

Lemma same_config_trans s1 s2 s3 :
  same_config s1 s2 → same_config s2 s3 → same_config s1 s3.
Proof. unfold same_config. intros ??. intuition congruence. Qed.

Lemma same_config_reviewed w s : same_config s (reviewed w s).
Proof. by destruct s. Qed.

Lemma same_config_hosting w s : same_config s (hosting w s).
Proof. by destruct s. Qed.

Lemma review_models_unsupported self ws wr :
  review_strategy self ≠ "respectively" →
  review_strategy self ≠ "all_review_in_guest" →
  review_models self ws wr =
    Raise (NotImplementedError (not_implemented (review_strategy self))).
Proof.
  intros H1 H2. unfold review_models.
  rewrite decide_False by done. rewrite decide_False by done. reflexivity.
Qed.

Lemma run_review_models {E} (env : environment E) e self ws wr :
  let '(tr, o, _) := run env (review_models self ws wr) e in
  converge_answers tr = [] ∧ predictions tr = [] ∧ gradient_errors tr = [] ∧
  prediction_suffixes tr = [] ∧ gradient_suffixes tr = [] ∧
  match o with
  | Returned (nw, self') =>
      same_config self self' ∧
      ∃ l, review_names tr = wb_ (n_iter_ self) :: l
  | Raised _ => True
  end.
Proof.
  unfold review_models, reconstruct_unilateral, broadcast_reconstruct_share.
  repeat case_decide; simpl;
    repeat first
      [ progress simpl
      | match goal with
        | |- context [on_get_share ?v ?x ?n] =>
            destruct (on_get_share v x n)
        | |- context [bool_decide ?P] => destruct (bool_decide P)
        end ];
    repeat split; try done; try (by destruct self); by eexists.
Qed.

Lemma run_mbind {E A B} (env : environment E) (p : proc A) (f : A → proc B) e :
  run env (p ≫= f) e =
    match run env p e with
    | (tr, Returned a, e') =>
        let '(tr', o, e'') := run env (f a) e' in (tr ++ tr', o, e'')
    | (tr, Raised x, e') => (tr, Raised x, e')
    end.
Proof. apply run_bind. Qed.

Lemma run_batch_body {E} (env : environment E) e i d self loc :
  (role self = GUEST → is_Some (labels self)) →
  let '(tr, o, _) := run env (batch_body i d (self, loc)) e in
  let sfx := [SInt (n_iter_ self); SInt (Z.of_nat i)] in
  converge_answers tr = [] ∧
  gradient_errors tr = error_of self <$> predictions tr ∧
  prediction_suffixes tr = [sfx] ∧ gradient_suffixes tr = [sfx] ∧
  match o with
  | Returned (self', loc') =>
      same_config self self' ∧ is_Some (new_w loc') ∧
      last_models loc' = last_models loc ∧
      ∃ l, review_names tr = wb_ (n_iter_ self) :: l
  | Raised _ => True
  end.
Proof.
  intros Hl. unfold batch_body, error_of. simpl.
  destruct (on_cal_prediction env e _ _ _ _) as [y e1].
  rewrite !bind_unfold.
  case_decide as Hr.
  - destruct (Hl Hr) as [lbl Hlbl]. rewrite Hlbl. simpl.
    destruct (on_compute_gradient env e1 _ _ _ _ _) as [[a b] e2]. simpl.
    rewrite run_mbind.
    pose proof (run_review_models env e2 self b a) as Hrev.
    destruct (run env (review_models self b a) e2) as [[tr [[nw s']|x]] e3];
      simpl; destruct Hrev as (Hc & Hp & Hg & Hps & Hgs & Ho).
    + destruct Ho as [Hsame [l Hn]].
      rewrite app_nil_r. unfold converge_answers, gradient_errors, predictions,
        prediction_suffixes, gradient_suffixes, review_names in *; simpl.
      rewrite Hc, Hp, Hg, Hps, Hgs, Hn. split_and!; eauto.
      eapply same_config_trans; [done|apply same_config_reviewed].
    + unfold converge_answers, gradient_errors, predictions,
        prediction_suffixes, gradient_suffixes in *; simpl.
      rewrite Hc, Hp, Hg, Hps, Hgs. done.
  - simpl.
    destruct (on_compute_gradient env e1 _ _ _ _ _) as [[a b] e2]. simpl.
    rewrite run_mbind.
    pose proof (run_review_models env e2 self a b) as Hrev.
    destruct (run env (review_models self a b) e2) as [[tr [[nw s']|x]] e3];
      simpl; destruct Hrev as (Hc & Hp & Hg & Hps & Hgs & Ho).
    + destruct Ho as [Hsame [l Hn]].
      rewrite app_nil_r. unfold converge_answers, gradient_errors, predictions,
        prediction_suffixes, gradient_suffixes, review_names in *; simpl.
      rewrite Hc, Hp, Hg, Hps, Hgs, Hn. split_and!; eauto.
      eapply same_config_trans; [done|apply same_config_reviewed].
    + unfold converge_answers, gradient_errors, predictions,
        prediction_suffixes, gradient_suffixes in *; simpl.
      rewrite Hc, Hp, Hg, Hps, Hgs. done.
Qed.

Lemma error_of_same_config s s' y :
  same_config s s' → error_of s' y = error_of s y.
Proof.
  intros (Hr & _ & _ & _ & _ & _ & _ & _ & Hl & Hn).
  unfold error_of. by rewrite Hr, Hl, Hn.
Qed.

Lemma run_batches {E} (env : environment E) batches i st e :
  (role st.1 = GUEST → is_Some (labels st.1)) →
  let '(tr, o, _) := run env (for_enumerate i batches batch_body st) e in
  let n := n_iter_ st.1 in
  converge_answers tr = [] ∧
  gradient_errors tr = error_of st.1 <$> predictions tr ∧
  Forall (in_iteration n) (prediction_suffixes tr) ∧
  Forall (in_iteration n) (gradient_suffixes tr) ∧
  match o with
  | Returned st' =>
      same_config st.1 st'.1 ∧ last_models st'.2 = last_models st.2 ∧
      (batches = [] → st' = st ∧ tr = []) ∧
      (batches ≠ [] → is_Some (new_w st'.2) ∧
         ∃ l, review_names tr = wb_ n :: l ∧
              ((2 ≤ length batches)%nat → wb_ n ∈ l))
  | Raised _ => True
  end.
Proof.
  revert i st e. induction batches as [|d batches IH]; intros i [self loc] e Hl.
  { simpl. split_and!; try done; apply same_config_refl. }
  change (for_enumerate i (d :: batches) batch_body (self, loc))
    with (bind (batch_body i d (self, loc))
            (λ s', for_enumerate (S i) batches batch_body s')).
  rewrite run_bind.
  pose proof (run_batch_body env e i d self loc Hl) as Hb.
  destruct (run env (batch_body i d (self, loc)) e) as [[tr0 [[s1 l1]|x]] e1];
    simpl in Hb; destruct Hb as (Hc & Hg & Hps & Hgs & Ho); simpl.
  2:{ rewrite Hc, Hg, Hps, Hgs. split_and!; try done;
      repeat constructor; by exists i. }
  destruct Ho as (Hsame & Hnew & Hlast & l0 & Hn0).
  assert (Hl1 : role (s1, l1).1 = GUEST → is_Some (labels (s1, l1).1)).
  { simpl. destruct Hsame as (Hr & _ & _ & _ & _ & _ & _ & _ & Hlb & _).
    rewrite Hr, Hlb. exact Hl. }
  pose proof (IH (S i) (s1, l1) e1 Hl1) as Hrest.
  destruct (run env (for_enumerate (S i) batches batch_body (s1, l1)) e1)
    as [[tr1 o1] e2]; simpl in Hrest.
  assert (Hn1 : n_iter_ s1 = n_iter_ self) by apply Hsame.
  rewrite Hn1 in Hrest.
  destruct Hrest as (Hc1 & Hg1 & Hps1 & Hgs1 & Ho1).
  unfold converge_answers, gradient_errors, predictions, prediction_suffixes,
    gradient_suffixes, review_names in *.
  rewrite !omap_app, Hc, Hc1, Hg, Hg1, Hps, Hgs, fmap_app.
  split_and!; try done.
  - f_equal. apply list_fmap_ext. intros ? y _. by apply error_of_same_config.
  - apply Forall_app. split; [|done]. repeat constructor. by exists i.
  - apply Forall_app. split; [|done]. repeat constructor. by exists i.
  - destruct o1 as [[s2 l2]|x]; [|done].
    destruct Ho1 as (Hsame1 & Hlast1 & Hnil & Hcons). simpl in *.
    split_and!; try done.
    + by eapply same_config_trans.
    + congruence.
    + intros _. destruct batches as [|d' batches'].
      * pose proof (Hnil eq_refl) as [Heq Htr]. subst tr1.
        inversion Heq; subst. split; [done|].
        exists l0. rewrite app_nil_r. split; [done|]. simpl. lia.
      * destruct (Hcons ltac:(done)) as (Hnew2 & l2' & Hn2 & _).
        split; [done|]. rewrite Hn0, Hn2. eexists. split; [reflexivity|].
        intros _. rewrite elem_of_app, elem_of_cons. auto.
Qed.

(** *** The loop *)

Lemma omap_step {A B} (f : A → option B) x l :
  omap f (x :: l) = match f x with Some y => y :: omap f l | None => omap f l end.
Proof. reflexivity. Qed.

Lemma while_loop_done fuel batches st :
  ¬ (n_iter_ st.1 < max_iter st.1) → while_loop fuel batches st = Ret (Some st).
Proof.
  intros H. destruct fuel; simpl; by rewrite bool_decide_false.
Qed.

Lemma while_loop_S fuel batches st :
  n_iter_ st.1 < max_iter st.1 →
  while_loop (S fuel) batches st =
    bind (for_enumerate 0 batches batch_body st) (λ '(self, loc),
      match new_w loc with
      | None => Raise (UnboundLocalError "new_w")
      | Some nw =>
          bind (CheckConverge (last_models loc) nw [SInt (n_iter_ self)] Ret)
            (λ c,
              let self := set_is_converged c self in
              let loc := {| w_self := w_self loc; w_remote := w_remote loc;
                            new_w := Some nw;
                            last_models := (nw, hosted_model_weights self) |} in
              if c then Ret (Some (self, loc))
              else while_loop fuel batches
                     (set_n_iter_ (n_iter_ self + 1) self, loc))
      end).
Proof. intros H. simpl. by rewrite bool_decide_true. Qed.

Lemma run_while_loop {E} (env : environment E) batches fuel st e :
  (role st.1 = GUEST → is_Some (labels st.1)) →
  (Z.to_nat (max_iter st.1 - n_iter_ st.1) ≤ fuel)%nat →
  let '(tr, o, _) := run env (while_loop fuel batches st) e in
  let n0 := n_iter_ st.1 in
  let m := max_iter st.1 in
  let answers := converge_answers tr in
  gradient_errors tr = error_of st.1 <$> predictions tr ∧
  Forall (λ sfx, ∃ it, n0 ≤ it < m ∧ in_iteration it sfx)
    (prediction_suffixes tr ++ gradient_suffixes tr) ∧
  (length answers ≤ Z.to_nat (m - n0))%nat ∧
  (∀ j a, answers !! j = Some a → (S j < length answers)%nat → a.2 = false) ∧
  match o with
  | Returned None => False
  | Returned (Some (self', loc')) =>
      ((2 ≤ length batches)%nat → n0 < m → ¬ NoDup (review_names tr)) ∧
      ((is_converged self' = true ∧ n_iter_ self' < m ∧
        n_iter_ self' = n0 + Z.of_nat (length answers) - 1 ∧
        ∃ tr' lw nw,
          tr = tr' ++ [EvCheckConverge lw nw [SInt (n_iter_ self')] true])
       ∨ (Forall (λ a, a.2 = false) answers ∧
          length answers = Z.to_nat (m - n0) ∧
          n_iter_ self' = Z.max n0 m))
  | Raised _ => Forall (λ a, a.2 = false) answers
  end.
Proof.
  revert st e. induction fuel as [|fuel IH]; intros st e Hl Hfuel.
  { rewrite while_loop_done by lia.
    destruct st as [self loc]; simpl in *.
    split; [done|]. split; [done|]. split; [lia|].
    split; [intros ??; by rewrite lookup_nil|].
    split; [intros; lia|]. right. split_and!; [done|lia|lia]. }
  destruct (decide (n_iter_ st.1 < max_iter st.1)) as [Hlt|Hge]; cycle 1.
  { rewrite while_loop_done by done.
    destruct st as [self loc]; simpl in *.
    split; [done|]. split; [done|]. split; [lia|].
    split; [intros ??; by rewrite lookup_nil|].
    split; [intros; lia|]. right. split_and!; [done|lia|lia]. }
  rewrite while_loop_S by done. rewrite run_bind.
  pose proof (run_batches env batches 0 st e Hl) as Hb.
  destruct (run env (for_enumerate 0 batches batch_body st) e)
    as [[tr0 o0] e1]; simpl in Hb.
  destruct Hb as (Hc & Hg & Hps & Hgs & Ho).
  assert (Hin : Forall (λ sfx, ∃ it, n_iter_ st.1 ≤ it < max_iter st.1 ∧
                          in_iteration it sfx)
                  (prediction_suffixes tr0 ++ gradient_suffixes tr0)).
  { apply Forall_app. split; (eapply Forall_impl; [done|]);
      intros sfx ?; exists (n_iter_ st.1); (split; [lia|done]). }
  destruct o0 as [[s1 l1]|x]; cycle 1.
  { rewrite Hc. split; [done|]. split; [done|]. split; [simpl; lia|].
    split; [intros ??; by rewrite lookup_nil|]. constructor. }
  destruct Ho as (Hsame & Hlast & Hnil & Hcons). simpl in Hsame, Hlast.
  destruct (new_w l1) as [nw|] eqn:Hnw; cycle 1.
  { simpl. rewrite app_nil_r, Hc.
    split; [done|]. split; [done|]. split; [simpl; lia|].
    split; [intros ??; by rewrite lookup_nil|]. constructor. }
  simpl.
  destruct (on_check_converge env e1 _ _ _) as [c e2].
  assert (Hn1 : n_iter_ s1 = n_iter_ st.1) by apply Hsame.
  assert (Hm1 : max_iter s1 = max_iter st.1) by apply Hsame.
  assert (Hdup : (2 ≤ length batches)%nat → ∀ tl, ¬ NoDup (review_names (tr0 ++ tl))).
  { intros H2 tl. destruct Hcons as (_ & l & Hl0 & Hel).
    { intros ->. simpl in H2. lia. }
    unfold review_names in *. rewrite omap_app, Hl0. simpl.
    rewrite NoDup_cons. intros [Hne _]. apply Hne.
    apply elem_of_app. left. auto. }
  destruct c; simpl.
  - (* converged *)
    unfold converge_answers, gradient_errors, predictions, prediction_suffixes,
      gradient_suffixes in *.
    rewrite !omap_app, Hc, Hg. simpl. rewrite !app_nil_r.
    split_and!; try done.
    + lia.
    + intros [|j] a; simpl; [intros _ ?; lia|done].
    + intros. by apply Hdup.
    + left. split_and!.
      * by destruct s1.
      * assert (n_iter_ (set_is_converged true s1) = n_iter_ s1) as ->
          by (by destruct s1). lia.
      * assert (n_iter_ (set_is_converged true s1) = n_iter_ s1) as ->
          by (by destruct s1). lia.
      * assert (n_iter_ (set_is_converged true s1) = n_iter_ s1) as ->
          by (by destruct s1). eauto.
  - (* next round *)
    set (st2 := (set_n_iter_ (n_iter_ (set_is_converged false s1) + 1)
                   (set_is_converged false s1),
                 {| w_self := w_self l1; w_remote := w_remote l1;
                    new_w := Some nw;
                    last_models :=
                      (nw, hosted_model_weights (set_is_converged false s1)) |})).
    assert (Hn2 : n_iter_ st2.1 = n_iter_ st.1 + 1)
      by (rewrite <- Hn1; by destruct s1).
    assert (Hm2 : max_iter st2.1 = max_iter st.1)
      by (rewrite <- Hm1; by destruct s1).
    assert (Herr : ∀ y, error_of st2.1 y = error_of st.1 y).
    { intros y. rewrite <- (error_of_same_config _ _ y Hsame).
      by destruct s1. }
    assert (Hl2 : role st2.1 = GUEST → is_Some (labels st2.1)).
    { destruct Hsame as (Hr & _ & _ & _ & _ & _ & _ & _ & Hlb & _).
      assert (role st2.1 = role s1) as -> by (by destruct s1).
      assert (labels st2.1 = labels s1) as -> by (by destruct s1).
      rewrite Hr, Hlb. exact Hl. }
    pose proof (IH st2 e2 Hl2 ltac:(lia)) as Hrest.
    destruct (run env (while_loop fuel batches st2) e2) as [[tr2 o2] e3].
    cbv beta iota zeta in Hrest. rewrite Hn2, Hm2 in Hrest.
    destruct Hrest as (Hg2 & Hin2 & Hlen2 & Hfalse2 & Ho2).
    cbv beta iota zeta.
    unfold converge_answers, gradient_errors, predictions, prediction_suffixes,
      gradient_suffixes in *.
    rewrite !omap_app, Hc, Hg, !omap_step. cbv beta iota.
    rewrite Hg2, fmap_app.
    split_and!.
    + f_equal. apply list_fmap_ext. intros ? y _. apply Herr.
    + apply Forall_app in Hin as [Hin Hin']. apply Forall_app in Hin2 as [Hin2 Hin2'].
      rewrite ?omap_step. cbv beta iota.
      repeat (apply Forall_app; split); try done;
        (eapply Forall_impl; [done|]); intros sfx (it & ? & ?);
        exists it; (split; [lia|done]).
    + simpl. lia.
    + intros [|j] a; simpl; [by intros [= <-]|].
      intros Hj Hlt'. apply (Hfalse2 j a Hj). lia.
    + destruct o2 as [[[s3 l3]|]|x]; [|done|by constructor].
      destruct Ho2 as [_ Ho2]. split; [intros; by apply Hdup|].
      destruct Ho2 as [(Hcv & Hlt3 & Hn3 & tr' & lw & nw' & ->)|(Hall & Hlen & Hn3)].
      * left. split_and!; [done|lia|simpl; lia|].
        exists (tr0 ++ EvCheckConverge (last_models l1) nw
                  [SInt (n_iter_ s1)] false :: tr'), lw, nw'.
        by rewrite <- app_assoc.
      * right. split_and!; [by constructor|simpl; lia|lia].
Qed.

(** *** The whole of [fit_binary] *)

Lemma run_fit_binary {E} (env : environment E) e self w lbls batches :
  ∃ pre st e1,
    run env (fit_binary self w lbls batches) e =
      (let '(tr, o, e') :=
         run env (while_loop (Z.to_nat (max_iter self - n_iter_ self))
                    batches st) e1 in
       (pre ++ tr, o, e')) ∧
    (converge_answers pre = [] ∧ predictions pre = [] ∧
     gradient_errors pre = [] ∧ prediction_suffixes pre = [] ∧
     gradient_suffixes pre = [] ∧ review_names pre = []) ∧
    n_iter_ st.1 = n_iter_ self ∧ max_iter st.1 = max_iter self ∧
    review_strategy st.1 = review_strategy self ∧
    (role st.1 = GUEST → is_Some (labels st.1)) ∧
    new_w st.2 = None ∧
    (∀ y, error_of st.1 y =
          if decide (role self = GUEST)
          then from_value (join_sub (tvalue y) lbls) (on_transfer_pubkey env e).1
          else y).
Proof.
  unfold fit_binary, share_init_model. rewrite !bind_unfold. simpl.
  destruct (on_transfer_pubkey env e) as [q e0]. simpl.
  destruct (decide (role self = GUEST)) as [Hr|Hr].
  - assert (role (set_fix_point_encoder_n q (set_labels (Some lbls) self)) = GUEST)
      as Hr' by (by destruct self).
    rewrite (decide_True (P := role _ = GUEST)) by done. simpl.
    destruct (on_from_source env e0 _ _) as [wb e1]. simpl.
    destruct (on_from_source env e1 _ _) as [wa e2]. simpl.
    assert (max_iter (set_fix_point_encoder_n q (set_labels (Some lbls) self))
            = max_iter self) as -> by (by destruct self).
    assert (n_iter_ (set_fix_point_encoder_n q (set_labels (Some lbls) self))
            = n_iter_ self) as -> by (by destruct self).
    match goal with
    | |- context [run env (while_loop _ _ ?st) e2] => eexists _, st, e2
    end.
    split.
    { destruct (run env (while_loop _ _ _) e2) as [[tr o] e3].
      instantiate (1 := [_; _; _]). reflexivity. }
    simpl. split_and!; try done; try (by destruct self).
    intros y. unfold error_of. rewrite decide_True by done. by destruct self.
  - assert (role (set_fix_point_encoder_n q self) ≠ GUEST)
      as Hr' by (by destruct self).
    rewrite (decide_False (P := role _ = GUEST)) by done. simpl.
    destruct (on_from_source env e0 _ _) as [wa e1]. simpl.
    destruct (on_from_source env e1 _ _) as [wb e2]. simpl.
    assert (max_iter (set_fix_point_encoder_n q self) = max_iter self) as ->
      by (by destruct self).
    assert (n_iter_ (set_fix_point_encoder_n q self) = n_iter_ self) as ->
      by (by destruct self).
    match goal with
    | |- context [run env (while_loop _ _ ?st) e2] => eexists _, st, e2
    end.
    split.
    { destruct (run env (while_loop _ _ _) e2) as [[tr o] e3].
      instantiate (1 := [_; _; _]). reflexivity. }
    simpl. split_and!; try done; try (by destruct self).
    intros y. unfold error_of. by rewrite decide_False by done.
Qed.



(** The same run, step by step: three iterations, none converged, and
    the counter ends at [max_iter]. *)
Lemma three_iterations_sample :
  let self := sample_party GUEST HOST "respectively" 3 in
  let '(tr, o, _) :=
    run (sample_env false) (fit_binary self [0] ∅ [sample_batch]) tt in
  converge_answers tr =
    [([SInt 0], false); ([SInt 1], false); ([SInt 2], false)] ∧
  ∃ self' loc', o = Returned (Some (self', loc')) ∧ n_iter_ self' = 3 ∧
                is_converged self' = false.
Proof. vm_compute. split; [done|]. by eexists _, _. Qed.

(** With a check that says "converged" at once, one iteration is made
    and the counter stays at 0. *)
Lemma converged_at_once_sample :
  let self := sample_party GUEST HOST "respectively" 3 in
  let '(tr, o, _) :=
    run (sample_env true) (fit_binary self [0] ∅ [sample_batch]) tt in
  converge_answers tr = [([SInt 0], true)] ∧
  prediction_suffixes tr = [[SInt 0; SInt 0]] ∧
  ∃ self' loc', o = Returned (Some (self', loc')) ∧ n_iter_ self' = 0 ∧
                is_converged self' = true.
Proof. vm_compute. split_and!; try done. by eexists _, _. Qed.

(** *** Predictions and gradients *)












(** C1, what the code does. Whenever an iteration is made over two or
    more batches and [fit_binary] returns, the tensor names used by the
    review are not all distinct: each batch of an iteration is reviewed
    under the name [wb_<iteration>]. *)
Theorem review_names_reused_within_iteration {E} (env : environment E) e
    self w lbls batches :
  (2 ≤ length batches)%nat → n_iter_ self < max_iter self →
  ∀ r, (run env (fit_binary self w lbls batches) e).1.2 = Returned r →
  ¬ NoDup (review_names (run env (fit_binary self w lbls batches) e).1.1).
Proof.
  intros H2 Hlt r.
  destruct (run_fit_binary env e self w lbls batches)
    as (pre & st & e1 & -> & (Hc & Hp & Hg & Hps & Hgs & Hrn) & Hn & Hm & _ & Hl & _).
  pose proof (run_while_loop env batches
    (Z.to_nat (max_iter self - n_iter_ self)) st e1 Hl
    ltac:(rewrite Hn, Hm; lia)) as Hloop.
  destruct (run env (while_loop _ batches st) e1) as [[tr o] e2].
  cbv beta iota zeta in Hloop |- *. rewrite Hn, Hm in Hloop. simpl.
  destruct Hloop as (_ & _ & _ & _ & Ho). intros ->.
  destruct r as [[s' l']|]; [|done]. destruct Ho as [Hdup _].
  unfold review_names in *. rewrite omap_app, Hrn. simpl. by apply Hdup.
Qed.

Lemma review_names_reused_within_iteration_witness :
  ¬ NoDup (review_names
             (run (sample_env false)
                  (fit_binary (sample_party HOST GUEST "respectively" 1) [0] ∅
                     [sample_batch; sample_batch]) tt).1.1).
Proof.
  eapply (review_names_reused_within_iteration (sample_env false) tt
            (sample_party HOST GUEST "respectively" 1) [0] ∅
            [sample_batch; sample_batch]);
    [simpl; lia|reflexivity|reflexivity].
Defined.

(** C1 at the failing input: one iteration over two batches at the Host
    under "respectively". The two batches get the distinct suffixes (0, 0)
    and (0, 1), and both are reviewed under "wb_0" and "wa_0". *)
Lemma two_batches_one_review_name :
  let tr := (run (sample_env false)
               (fit_binary (sample_party HOST GUEST "respectively" 1) [0] ∅
                  [sample_batch; sample_batch]) tt).1.1 in
  prediction_suffixes tr = [[SInt 0; SInt 0]; [SInt 0; SInt 1]] ∧
  gradient_suffixes tr = [[SInt 0; SInt 0]; [SInt 0; SInt 1]] ∧
  review_names tr = ["wb_0"; "wa_0"; "wb_0"; "wa_0"]%string.
Proof. vm_compute. done. Qed.

(** *** An unsupported review strategy *)

Lemma run_batch_body_unsupported {E} (env : environment E) e i d self loc :
  (role self = GUEST → is_Some (labels self)) →
  review_strategy self ≠ "respectively" →
  review_strategy self ≠ "all_review_in_guest" →
  let '(tr, o, _) := run env (batch_body i d (self, loc)) e in
  let sfx := [SInt (n_iter_ self); SInt (Z.of_nat i)] in
  o = Raised (NotImplementedError (not_implemented (review_strategy self))) ∧
  prediction_suffixes tr = [sfx] ∧ gradient_suffixes tr = [sfx] ∧
  review_names tr = [] ∧ converge_answers tr = [].
Proof.
  intros Hl H1 H2. unfold batch_body. simpl.
  destruct (on_cal_prediction env e _ _ _ _) as [y e1].
  rewrite !bind_unfold. case_decide as Hr.
  - destruct (Hl Hr) as [lbl ->]. simpl.
    destruct (on_compute_gradient env e1 _ _ _ _ _) as [[a b] e2]. simpl.
    by rewrite review_models_unsupported.
  - simpl. destruct (on_compute_gradient env e1 _ _ _ _ _) as [[a b] e2]. simpl.
    by rewrite review_models_unsupported.
Qed.

(** [_init_model] itself does not look at the review strategy. If the
    initializer of the base class let a strategy other than "respectively"
    and "all_review_in_guest" through, a run over at least one batch would
    fail with [NotImplementedError] in the review of the first batch:
    after the prediction and the gradient of that batch; the review asks
    for no share and sends none, and no convergence check is made. *)
Lemma unsupported_strategy_fails_in_first_review {E} (env : environment E) e
    super_init_model self0 params self w lbls d batches :
  super_init_model params self0 = inr self →
  review_strategy self ≠ "respectively" →
  review_strategy self ≠ "all_review_in_guest" →
  n_iter_ self < max_iter self →
  run env (_init_model super_init_model self0 params) e =
    ([EvGenerateKey (key_length self)], Returned self, e) ∧
  let '(tr, o, _) :=
    run env (init_then_fit super_init_model self0 params w lbls (d :: batches)) e in
  let sfx := [SInt (n_iter_ self); SInt 0] in
  o = Raised (NotImplementedError (not_implemented (review_strategy self))) ∧
  prediction_suffixes tr = [sfx] ∧ gradient_suffixes tr = [sfx] ∧
  review_names tr = [] ∧ converge_answers tr = [].
Proof.
  intros Hsuper H1 H2 Hlt. unfold init_then_fit, _init_model. rewrite Hsuper.
  split; [reflexivity|]. rewrite bind_unfold, run_bind.
  change (run env (GenerateKey (key_length self) (Ret self)) e)
    with ([EvGenerateKey (key_length self)], Returned self, e).
  cbv beta iota zeta.
  destruct (run_fit_binary env e self w lbls (d :: batches))
    as (pre & st & e1 & -> & (Hc & Hp & Hg & Hps & Hgs & Hrn) & Hn & Hm & Hs & Hl & _).
  destruct (Z.to_nat (max_iter self - n_iter_ self)) as [|fuel] eqn:Hfuel; [lia|].
  rewrite while_loop_S by lia.
  change (for_enumerate 0 (d :: batches) batch_body st)
    with (bind (batch_body 0 d st)
            (λ s', for_enumerate 1 batches batch_body s')).
  rewrite !run_bind. destruct st as [s0 l0]. simpl in Hn, Hm, Hs, Hl.
  pose proof (run_batch_body_unsupported env e1 0 d s0 l0 Hl
    ltac:(by rewrite Hs) ltac:(by rewrite Hs)) as Hb.
  destruct (run env (batch_body 0 d (s0, l0)) e1) as [[tr o] e2].
  cbv beta iota zeta in Hb. rewrite Hn, Hs in Hb.
  destruct Hb as (-> & Hps' & Hgs' & Hrn' & Hc').
  unfold prediction_suffixes, gradient_suffixes, review_names,
    converge_answers in *.
  rewrite !omap_app. simpl (omap _ [_]).
  by rewrite Hc, Hps, Hgs, Hrn, Hps', Hgs', Hrn', Hc'.
Qed.

Lemma run_review_models_supported {E} (env : environment E) e self ws wr :
  review_strategy self = "respectively" ∨
  review_strategy self = "all_review_in_guest" →
  ∀ msg, (run env (review_models self ws wr) e).1.2 ≠
         Raised (NotImplementedError msg).
Proof.
  intros Hs msg.
  unfold review_models, reconstruct_unilateral, broadcast_reconstruct_share.
  repeat case_decide; simpl;
    repeat first
      [ progress simpl
      | match goal with
        | |- context [on_get_share ?v ?x ?n] =>
            destruct (on_get_share v x n)
        | |- context [bool_decide ?P] => destruct (bool_decide P)
        end ];
    try done.
  by destruct Hs.
Qed.

Lemma run_batch_body_supported {E} (env : environment E) e i d self loc :
  review_strategy self = "respectively" ∨
  review_strategy self = "all_review_in_guest" →
  match (run env (batch_body i d (self, loc)) e).1.2 with
  | Returned (self', _) => review_strategy self' = review_strategy self
  | Raised x => ∀ msg, x ≠ NotImplementedError msg
  end.
Proof.
  intros Hs. unfold batch_body. simpl.
  destruct (on_cal_prediction env e _ _ _ _) as [y e1].
  rewrite !bind_unfold.
  assert (Hrev : ∀ e2 a b,
    match (let '(tr, o, e'') :=
             run env (bind (review_models self a b) (λ '(new_w', self1),
               Ret (set_model_weights
                      (Some {| unboxed := new_w';
                               lmw_fit_intercept := fit_intercept self1 |})
                      self1,
                    {| w_self := a; w_remote := b; new_w := Some new_w';
                       last_models := last_models loc |}))) e2 in
           (tr, o, e'')).1.2 with
    | Returned (self', _) => review_strategy self' = review_strategy self
    | Raised x => ∀ msg, x ≠ NotImplementedError msg
    end).
  { intros e2 a b. rewrite run_bind.
    pose proof (run_review_models env e2 self a b) as Hsame.
    pose proof (run_review_models_supported env e2 self a b Hs) as Hno.
    destruct (run env (review_models self a b) e2) as [[tr [[nw s']|x]] e3];
      simpl in *.
    - destruct Hsame as (_ & _ & _ & _ & _ & Hsame & _).
      destruct Hsame as (_ & _ & <- & _). by destruct s'.
    - intros msg ->. by apply (Hno msg). }
  case_decide as Hr.
  - destruct (labels self) as [lbl|]; simpl; [|done].
    destruct (on_compute_gradient env e1 _ _ _ _ _) as [[a b] e2]. simpl.
    specialize (Hrev e2 b a).
    destruct (run env _ e2) as [[tr o] e3]. exact Hrev.
  - simpl. destruct (on_compute_gradient env e1 _ _ _ _ _) as [[a b] e2]. simpl.
    specialize (Hrev e2 a b).
    destruct (run env _ e2) as [[tr o] e3]. exact Hrev.
Qed.

Lemma run_batches_supported {E} (env : environment E) batches i st e :
  review_strategy st.1 = "respectively" ∨
  review_strategy st.1 = "all_review_in_guest" →
  match (run env (for_enumerate i batches batch_body st) e).1.2 with
  | Returned st' => review_strategy st'.1 = review_strategy st.1
  | Raised x => ∀ msg, x ≠ NotImplementedError msg
  end.
Proof.
  revert i st e. induction batches as [|d batches IH]; intros i [self loc] e Hs.
  { done. }
  change (for_enumerate i (d :: batches) batch_body (self, loc))
    with (bind (batch_body i d (self, loc))
            (λ s', for_enumerate (S i) batches batch_body s')).
  rewrite run_bind.
  pose proof (run_batch_body_supported env e i d self loc Hs) as Hb.
  destruct (run env (batch_body i d (self, loc)) e) as [[tr0 [[s1 l1]|x]] e1];
    simpl in Hb |- *; [|done].
  pose proof (IH (S i) (s1, l1) e1 ltac:(simpl; by rewrite Hb)) as Hrest.
  destruct (run env (for_enumerate (S i) batches batch_body (s1, l1)) e1)
    as [[tr1 [st'|x]] e2]; simpl in Hrest |- *; [congruence|done].
Qed.

Lemma run_while_supported {E} (env : environment E) batches fuel st e :
  review_strategy st.1 = "respectively" ∨
  review_strategy st.1 = "all_review_in_guest" →
  ∀ msg, (run env (while_loop fuel batches st) e).1.2 ≠
         Raised (NotImplementedError msg).
Proof.
  revert st e. induction fuel as [|fuel IH]; intros st e Hs msg.
  { simpl. by case_bool_decide. }
  destruct (decide (n_iter_ st.1 < max_iter st.1)) as [Hlt|Hge]; cycle 1.
  { by rewrite while_loop_done. }
  rewrite while_loop_S by done. rewrite run_bind.
  pose proof (run_batches_supported env batches 0 st e Hs) as Hb.
  destruct (run env (for_enumerate 0 batches batch_body st) e)
    as [[tr0 [[s1 l1]|x]] e1]; simpl in Hb |- *; cycle 1.
  { intros [= ->]. by apply (Hb msg). }
  destruct (new_w l1) as [nw|] eqn:Hnw; [|done].
  simpl. destruct (on_check_converge env e1 _ _ _) as [c e2].
  destruct c; simpl; [done|].
  match goal with
  | |- context [run env (while_loop fuel batches ?st2) e2] =>
      pose proof (IH st2 e2) as Hrest;
      destruct (run env (while_loop fuel batches st2) e2) as [[tr2 o2] e3]
  end.
  simpl in Hrest |- *. apply Hrest.
  assert (review_strategy (set_n_iter_ (n_iter_ (set_is_converged false s1) + 1)
                             (set_is_converged false s1)) = review_strategy s1)
    as -> by (by destruct s1).
  by rewrite Hb.
Qed.

Lemma run_fit_binary_supported {E} (env : environment E) e self w lbls batches :
  review_strategy self = "respectively" ∨
  review_strategy self = "all_review_in_guest" →
  ∀ msg, (run env (fit_binary self w lbls batches) e).1.2 ≠
         Raised (NotImplementedError msg).
Proof.
  intros Hs msg.
  destruct (run_fit_binary env e self w lbls batches)
    as (pre & st & e1 & -> & _ & _ & _ & Hst & _).
  pose proof (run_while_supported env batches
    (Z.to_nat (max_iter self - n_iter_ self)) st e1
    ltac:(by rewrite Hst) msg) as Hloop.
  by destruct (run env (while_loop _ batches st) e1) as [[tr o] e2].
Qed.

(** C6. The initializer of the base class is the one of the spec. For
    every review strategy other than "respectively" and
    "all_review_in_guest", a component that is initialized and then fitted
    fails with [UnsupportedPolicy] in the initializer: no call at all has
    been made by then, no key is generated, no public key exchanged and no
    batch predicted. A supported strategy is let through, a key is
    generated and the public keys are exchanged. Whatever the strategy,
    the run never fails with the [NotImplementedError] of [review_models],
    so no strategy is refused in the middle of a run. *)
Theorem unsupported_strategy_fails_at_init {E} (env : environment E) e
    self0 params w lbls batches :
  let strategy := p_review_strategy params in
  let '(tr, o, e') :=
    run env (init_then_fit CaesarBase_init_model self0 params w lbls batches) e in
  (strategy ≠ "respectively" → strategy ≠ "all_review_in_guest" →
   tr = [] ∧ o = Raised (UnsupportedPolicy strategy) ∧ e' = e) ∧
  (strategy = "respectively" ∨ strategy = "all_review_in_guest" →
   ∃ tr', tr = EvGenerateKey (p_key_length params) :: EvTransferPubkey :: tr') ∧
  (∀ msg, o ≠ Raised (NotImplementedError msg)).
Proof.
  intros strategy. unfold init_then_fit, _init_model, CaesarBase_init_model.
  fold strategy. case_decide as Hs.
  - rewrite bind_unfold, run_bind.
    match goal with
    | |- context [GenerateKey _ (Ret ?s)] => set (self := s)
    end.
    change (run env (GenerateKey (key_length self) (Ret self)) e)
      with ([EvGenerateKey (key_length self)], Returned self, e).
    cbv beta iota zeta.
    pose proof (run_fit_binary_supported env e self w lbls batches Hs) as Hno.
    assert (Hpub : ∃ tr', (run env (fit_binary self w lbls batches) e).1.1 =
                          EvTransferPubkey :: tr').
    { unfold fit_binary. rewrite bind_unfold. simpl.
      destruct (on_transfer_pubkey env e) as [q e0].
      destruct (run env _ e0) as [[tr o] e1]. by eexists. }
    destruct (run env (fit_binary self w lbls batches) e) as [[tr o] e1].
    simpl in Hno, Hpub. destruct Hpub as [tr' ->].
    split; [intros H1 H2; by destruct Hs|]. split; [intros _; by eexists|].
    exact Hno.
  - simpl. split; [done|]. split; [intros Hs'; by destruct Hs|]. done.
Qed.

Lemma unsupported_strategy_fails_at_init_witness :
  let params := {| p_review_strategy := "encrypted_reveal_in_host";
                   p_fit_intercept := false; p_key_length := 1024;
                   p_max_iter := 3 |} in
  let self0 := sample_party HOST GUEST "respectively" 0 in
  run (sample_env false)
    (init_then_fit CaesarBase_init_model self0 params [0] ∅ [sample_batch]) tt
  = ([], Raised (UnsupportedPolicy "encrypted_reveal_in_host"), tt).
Proof.
  intros params self0.
  pose proof (unsupported_strategy_fails_at_init (sample_env false) tt
    self0 params [0] ∅ [sample_batch]) as Hrun.
  destruct (run _ _ _) as [[tr o] e'].
  destruct Hrun as [Hrun _].
  destruct (Hrun ltac:(done) ltac:(done)) as (-> & -> & ->). reflexivity.
Defined.

(** *** The share exchange *)

(** C8. At the Host [share_z] encrypts the one variable "z" and sends
    it to the Guest under the suffix ("z",) + suffix, and returns nothing.
    At any other party it receives under that suffix once, wraps the first
    table received, and returns that one tensor three times. *)
Theorem share_z_single_term {E} (env : environment E) e self sfx kwargs :
  (role self = HOST → ∀ z, kwargs !! "z" = Some z →
     run env (share_z self sfx kwargs) e =
       let '(encrypt_z, e') := on_distribute_encrypt env e (tvalue z) in
       ([EvDistributeEncrypt (tvalue z);
         EvRemoteEncrypted encrypt_z GUEST (SStr "z" :: sfx)],
        Returned None, e')) ∧
  (role self ≠ HOST →
     let '(parties, e') := on_get_parties env e (SStr "z" :: sfx) in
     ∀ z_table, parties !! 0%nat = Some z_table →
       let t := PaillierFixedPointTensor z_table (fix_point_encoder_n self) in
       run env (share_z self sfx kwargs) e =
         ([EvGetParties (SStr "z" :: sfx) parties],
          Returned (Some (t, t, t)), e')).
Proof.
  split.
  - intros Hr z Hz. unfold share_z. rewrite decide_True by done.
    simpl. rewrite Hz. simpl.
    by destruct (on_distribute_encrypt env e (tvalue z)) as [enc e'].
  - intros Hr. unfold share_z. rewrite decide_False by done. simpl.
    destruct (on_get_parties env e (SStr "z" :: sfx)) as [parties e'].
    intros z_table Hz. simpl. by rewrite Hz.
Qed.

Lemma share_z_single_term_witness :
  let t := PaillierFixedPointTensor ∅ 97 in
  run (sample_env false)
    (share_z (sample_party GUEST HOST "respectively" 1) [SInt 0; SInt 0] ∅) tt
  = ([EvGetParties [SStr "z"; SInt 0; SInt 0] [∅]], Returned (Some (t, t, t)), tt).
Proof.
  exact (proj2 (share_z_single_term (sample_env false) tt
    (sample_party GUEST HOST "respectively" 1) [SInt 0; SInt 0] ∅)
    ltac:(done) ∅ eq_refl).
Defined.

End HeteroLR_facts.

Section PipelinedModel_facts.
Import PipelinedModel.
Context `{Runtime}.

(** C10. [unpack_model] changes nothing when it refuses. If the local
    cache of the model is there already, it raises [FileExistsError]; if
    there is a [.sha1] file beside the archive whose stripped content
    differs from the digest of the archive, it raises [ValueError]. Either
    way the file system is the one it was given: the cache directory has
    not been made and nothing has been unpacked. *)
Theorem unpack_model_atomic_on_error (self : PipelinedModel)
    (archive_file_path : path) (fs : filesystem) :
  (is_Some (fs !! (model_path self)) →
   unpack_model self archive_file_path fs = (Err FileExistsError, fs)) ∧
  (∀ text digest content,
     fs !! (model_path self) = None →
     fs !! (add_ext archive_file_path ".sha1") = Some (File text) →
     decode_utf8 text = Some digest →
     fs !! archive_file_path = Some (File content) →
     sha1_hexdigest content ≠ strip digest →
     unpack_model self archive_file_path fs =
       (Err (ValueError "Hash not match."), fs) ∧
     fs !! (model_path self) = None).
Proof.
  split.
  - intros Hex. unfold unpack_model, bind, exists_, os_path_exists.
    by rewrite bool_decide_true.
  - intros text digest content Hno Hsha Hdec Harch Hne.
    split; [|done].
    unfold unpack_model, bind, exists_, os_path_exists, os_path_isfile,
      read_bytes, raise.
    rewrite bool_decide_false by (rewrite Hno; by intros [? ?]).
    rewrite Hsha. simpl. rewrite Hsha, Hdec, Harch. by rewrite decide_True.
Qed.

Context `{Protobuf}.

Lemma serialized_or_fill_empty (buffer_object : message) :
  SerializeToString buffer_object = [] →
  serialized_or_fill buffer_object = fill_bytes.
Proof. unfold serialized_or_fill. by intros ->. Qed.

Lemma serialized_or_fill_nonempty (buffer_object : message) :
  SerializeToString buffer_object ≠ [] →
  serialized_or_fill buffer_object = SerializeToString buffer_object.
Proof. unfold serialized_or_fill. by destruct (SerializeToString _). Qed.

Lemma write_bytes_ok (p : path) (c : bytes) (fs fs' : filesystem) (r : unit) :
  write_bytes p c fs = (Ok r, fs') → fs' = <[p := File c]> fs.
Proof.
  unfold write_bytes. intros Hw.
  destruct (fs !! p) as [[| |]|]; try done;
    destruct (fs !! take (length p - 1) p) as [[| |]|]; congruence.
Qed.

(** What the loop of [save_component_model] leaves behind: under each
    model name the serialization of the buffer, or the fill bytes when
    that is empty, and in the index the name of its class. *)
Lemma save_buffers_ok (self : PipelinedModel) (dir : path)
    (bufs : list (string * message))
    (acc r : gmap string string * list (string * string))
    (fs fs' : filesystem) :
  NoDup bufs.*1 →
  save_buffers self dir false bufs acc fs = (Ok r, fs') →
  (∀ name buf, (name, buf) ∈ bufs →
     fs' !! (dir ++ [name]) = Some (File (serialized_or_fill buf)) ∧
     r.1 !! name = Some (class_name (type_of buf))) ∧
  (∀ p : path, (∀ name, name ∈ bufs.*1 → p ≠ dir ++ [name]) →
     fs' !! p = fs !! p).
Proof.
  revert acc fs. induction bufs as [|[name buf] bufs IH]; intros acc fs Hnd.
  { simpl. unfold ret. intros [= <- <-]. split; [|done].
    intros ?? Hin. by apply elem_of_nil in Hin. }
  apply NoDup_cons in Hnd as [Hnotin Hnd]. simpl in Hnotin.
  simpl. unfold bind at 1 2.
  destruct (write_bytes (dir ++ [name]) (serialized_or_fill buf) fs)
    as [[[]|e] fs1] eqn:Hw; [|done].
  apply write_bytes_ok in Hw as ->. unfold ret at 1. intros Hrest.
  assert (Hkeep : ∀ name', name' ∉ bufs.*1 → ∀ acc0 fs0 r0 fs0',
    save_buffers self dir false bufs acc0 fs0 = (Ok r0, fs0') →
    r0.1 !! name' = acc0.1 !! name').
  { clear. induction bufs as [|[n b] bufs IHb]; intros name' Hn acc0 fs0 r0 fs0'.
    - simpl. unfold ret. by intros [= <- <-].
    - simpl. unfold bind at 1 2.
      destruct (write_bytes _ _ fs0) as [[[]|e] fs1]; [|done].
      unfold ret at 1. intros Hr. apply not_elem_of_cons in Hn as [Hne Hn].
      rewrite (IHb name' Hn _ _ _ _ Hr). simpl. by rewrite lookup_insert_ne. }
  destruct (IH _ _ Hnd Hrest) as [Hin Hout]. split.
  - intros name' buf' [[= -> ->]|Hin']%elem_of_cons.
    + split.
      * rewrite Hout; [apply lookup_insert_eq|].
        intros n' Hn' Heq. apply app_inv_head in Heq. by injection Heq as ->.
      * rewrite (Hkeep _ Hnotin _ _ _ _ Hrest). simpl. apply lookup_insert_eq.
    + by apply Hin.
  - intros p Hp. rewrite Hout.
    + apply lookup_insert_ne. intros <-. by apply (Hp name); [left|].
    + intros n' Hn'. apply Hp. by right.
Qed.

(** C9, first part. When [save_component_model] succeeds in writing
    to the cache, the file of a buffer whose serialization is empty holds
    the fill bytes, and the file of any other buffer its serialization. *)
Lemma save_component_model_writes (self : PipelinedModel)
    (component_name component_module_name model_alias : string)
    (model_buffers : list (string * message)) (fs fs' : filesystem)
    (r : option component_model) :
  NoDup model_buffers.*1 →
  save_component_model self component_name component_module_name model_alias
    model_buffers false fs = (Ok r, fs') →
  ∀ model_name buffer_object, (model_name, buffer_object) ∈ model_buffers →
    fs' !! (variables_data_path self ++ [component_name; model_alias; model_name])
    = Some (File (serialized_or_fill buffer_object)).
Proof.
  intros Hnd. unfold save_component_model, bind at 1 2.
  destruct (os_makedirs _ true fs) as [[[]|e] fs1]; [|done].
  destruct (save_buffers _ _ _ _ _ fs1) as [[r1|e] fs2] eqn:Hs; [|done].
  destruct (save_buffers_ok _ _ _ _ _ _ _ Hnd Hs) as [Hin _].
  unfold bind, update_component_meta, local_cache_required, bind, exists_,
    os_path_exists, read_define_meta, raise, ret.
  intros Hmeta name buf Hel. destruct (Hin name buf Hel) as [Hfile _].
  rewrite <- (assoc_L (++)) in Hfile. simpl in Hfile.
  destruct (bool_decide _); [|done].
  destruct (fs2 !! define_meta_path self) as [[| |d]|]; try done.
  case_decide; injection Hmeta as <- <-; [|done].
  rewrite lookup_insert_ne; [done|].
  unfold define_meta_path, variables_data_path. rewrite <- !(assoc_L (++)).
  intros Heq%app_inv_head. discriminate.
Qed.

(** C9, second part. For a registered class and the fill bytes,
    [parse_proto_object] does not fail; it returns what the class itself
    makes of the fill bytes when it accepts them, and a fresh object of
    the class only when it rejects them. *)
Lemma parse_proto_object_of_fill (buffer_name : string) (cls : pb_class) :
  get_proto_buffer_class buffer_name = Some cls →
  is_Some (ParseFromString DefaultEmptyFillMessage fill_bytes) →
  ParseFromString cls [] = Some (new cls) →
  ∃ m, parse_proto_object buffer_name fill_bytes = Ok m ∧
       (ParseFromString cls fill_bytes = Some m ∨
        ParseFromString cls fill_bytes = None ∧ m = new cls).
Proof.
  intros Hcls [f Hf] Hnew. unfold parse_proto_object. rewrite Hcls.
  destruct (ParseFromString cls fill_bytes) as [m|] eqn:Hp; [by eauto|].
  rewrite Hf, Hnew. eauto.
Qed.

End PipelinedModel_facts.

Section PipelinedModel_samples.
Import PipelinedModel.
#[local] Existing Instances sample_runtime wire_protobuf.

Lemma unpack_model_atomic_on_error_witness :
  let fs : filesystem :=
    <[ ["tmp"; "m.zip"] := File [x01; x02] ]>
      (<[ ["tmp"; "m.zip.sha1"] := File [x33; x0a] ]> ∅) in
  unpack_model sample_model ["tmp"; "m.zip"] fs =
    (Err (ValueError "Hash not match."), fs).
Proof.
  intros fs.
  refine (proj1 (proj2 (unpack_model_atomic_on_error sample_model
    ["tmp"; "m.zip"] fs) [x33; x0a] _ [x01; x02] _ _ _ _ _));
    [reflexivity..|vm_compute; discriminate].
Defined.

(** With the digest of the archive in the [.sha1] file, the same call
    makes the cache directory and unpacks into it, also when the digest is
    followed by a no-break space (U+00A0) and a line feed. *)
Lemma unpack_model_sample :
  let fs : filesystem :=
    <[ ["tmp"; "m.zip"] := File [x01; x02] ]>
      (<[ ["tmp"; "m.zip.sha1"] := File [x32; xc2; xa0; x0a] ]> ∅) in
  let '(r, fs') := unpack_model sample_model ["tmp"; "m.zip"] fs in
  r = Ok tt ∧ fs' !! (model_path sample_model) = Some Dir ∧
  fs' !! (model_path sample_model ++ ["pipeline.pb"]) = Some (File [x01; x02]).
Proof. vm_compute. done. Qed.

(** C9 at the failing input. A meta buffer with every field at its
    default serializes to nothing, so the fill bytes are written in its
    place. Read back, its class takes the fill bytes for its own string
    field 1: [parse_proto_object] returns an object of the right class
    whose field 1 is "set", not a fresh one. *)
Theorem fill_bytes_read_back_as_field_1 :
  let buffer_object := new LRModelMeta in
  let name := "HeteroLogisticRegressionMeta" in
  let '(saved, fs) :=
    save_component_model sample_model "hetero_lr_0" "HeteroLR" "model"
      [(name, buffer_object)] false created_cache in
  let '(read, _) :=
    read_component_model sample_model "hetero_lr_0" "model" true fs in
  SerializeToString buffer_object = [] ∧ saved = Ok None ∧
  fs !! (variables_data_path sample_model ++ ["hetero_lr_0"; "model"; name])
    = Some (File [x0a; x03; x73; x65; x74]) ∧
  ∃ m, read = Ok [(name, inl m)] ∧ type_of m = LRModelMeta ∧
       m_fields m !! 1%N = Some (VString [x73; x65; x74]) ∧
       m ≠ new LRModelMeta.
Proof.
  vm_compute. split_and!; try done. eexists. split_and!; try done.
Qed.

(** A class whose field 1 is a number keeps the fill bytes as an unknown
    field; a class is handed a fresh object only when it cannot read the
    fill bytes at all. *)
Lemma fill_bytes_read_back_as_unknown_field :
  parse_proto_object "OneHotMeta" fill_bytes =
    Ok {| m_class := OneHotMeta; m_fields := ∅;
          m_unknown := [x0a; x03; x73; x65; x74] |}.
Proof. vm_compute. done. Qed.

Lemma parse_proto_object_of_fill_sample :
  ∃ m, parse_proto_object "LRModelMeta" fill_bytes = Ok m ∧
       (ParseFromString LRModelMeta fill_bytes = Some m ∨
        ParseFromString LRModelMeta fill_bytes = None ∧ m = new LRModelMeta).
Proof.
  apply (@parse_proto_object_of_fill wire_protobuf "LRModelMeta" LRModelMeta);
    [reflexivity|by eexists|reflexivity].
Defined.

End PipelinedModel_samples.

(** *** The tags of a whole run *)

Section HeteroLR_tags.
Import HeteroLR.
Local Open Scope Z_scope.

Lemma run_review_names {E} (env : environment E) e self ws wr :
  let '(tr, o, _) := run env (review_models self ws wr) e in
  review_names tr `prefix_of` [wb_ (n_iter_ self); wa_ (n_iter_ self)] ∧
  match o with
  | Returned _ => review_names tr = [wb_ (n_iter_ self); wa_ (n_iter_ self)]
  | Raised _ => True
  end.
Proof.
  unfold review_models, reconstruct_unilateral, broadcast_reconstruct_share.
  repeat case_decide; simpl;
    repeat first
      [ progress simpl
      | match goal with
        | |- context [on_get_share ?v ?x ?n] =>
            destruct (on_get_share v x n)
        | |- context [bool_decide ?P] => destruct (bool_decide P)
        end ];
    split; try done; try apply prefix_nil;
    try (by eexists [_]); by eexists [].
Qed.

Lemma run_batch_body_tags {E} (env : environment E) e i d self loc :
  (role self = GUEST → is_Some (labels self)) →
  let '(tr, o, _) := run env (batch_body i d (self, loc)) e in
  let sfx := [SInt (n_iter_ self); SInt (Z.of_nat i)] in
  converge_answers tr = [] ∧
  prediction_suffixes tr = [sfx] ∧ gradient_suffixes tr = [sfx] ∧
  review_names tr `prefix_of` [wb_ (n_iter_ self); wa_ (n_iter_ self)] ∧
  match o with
  | Returned (self', loc') =>
      same_config self self' ∧ is_Some (new_w loc') ∧
      review_names tr = [wb_ (n_iter_ self); wa_ (n_iter_ self)]
  | Raised _ => True
  end.
Proof.
  intros Hl.
  pose proof (run_batch_body env e i d self loc Hl) as Hold.
  assert (Hnames :
    let '(tr, o, _) := run env (batch_body i d (self, loc)) e in
    review_names tr `prefix_of` [wb_ (n_iter_ self); wa_ (n_iter_ self)] ∧
    match o with
    | Returned _ => review_names tr = [wb_ (n_iter_ self); wa_ (n_iter_ self)]
    | Raised _ => True
    end).
  { unfold batch_body. simpl.
    destruct (on_cal_prediction env e _ _ _ _) as [y e1].
    rewrite !bind_unfold. case_decide as Hr.
    - destruct (Hl Hr) as [lbl ->]. simpl.
      destruct (on_compute_gradient env e1 _ _ _ _ _) as [[a b] e2]. simpl.
      rewrite run_mbind.
      pose proof (run_review_names env e2 self b a) as Hrev.
      destruct (run env (review_models self b a) e2) as [[tr [[nw s']|x]] e3];
        simpl; [rewrite app_nil_r|]; exact Hrev.
    - simpl.
      destruct (on_compute_gradient env e1 _ _ _ _ _) as [[a b] e2]. simpl.
      rewrite run_mbind.
      pose proof (run_review_names env e2 self a b) as Hrev.
      destruct (run env (review_models self a b) e2) as [[tr [[nw s']|x]] e3];
        simpl; [rewrite app_nil_r|]; exact Hrev. }
  destruct (run env (batch_body i d (self, loc)) e) as [[tr o] e'].
  cbv beta iota zeta in Hold |- *.
  destruct Hold as (Hc & _ & Hps & Hgs & Ho), Hnames as [Hpre Hn].
  split_and!; try done.
  destruct o as [[s' l']|x]; [|done].
  destruct Ho as (? & ? & _). done.
Qed.

Lemma batch_suffixes_cons n i k :
  batch_suffixes n i (S k) =
    [SInt n; SInt (Z.of_nat i)] :: batch_suffixes n (S i) k.
Proof. reflexivity. Qed.

Lemma run_batches_tags {E} (env : environment E) batches i st e :
  (role st.1 = GUEST → is_Some (labels st.1)) →
  let '(tr, o, _) := run env (for_enumerate i batches batch_body st) e in
  let n := n_iter_ st.1 in
  let k := length batches in
  converge_answers tr = [] ∧
  gradient_suffixes tr = prediction_suffixes tr ∧
  prediction_suffixes tr `prefix_of` batch_suffixes n i k ∧
  review_names tr `prefix_of` concat (replicate k [wb_ n; wa_ n]) ∧
  match o with
  | Returned st' =>
      same_config st.1 st'.1 ∧
      (batches = [] → st' = st) ∧ (batches ≠ [] → is_Some (new_w st'.2)) ∧
      prediction_suffixes tr = batch_suffixes n i k ∧
      review_names tr = concat (replicate k [wb_ n; wa_ n])
  | Raised _ => True
  end.
Proof.
  revert i st e. induction batches as [|d batches IH]; intros i [self loc] e Hl.
  { simpl. split_and!; try done; apply same_config_refl. }
  change (for_enumerate i (d :: batches) batch_body (self, loc))
    with (bind (batch_body i d (self, loc))
            (λ s', for_enumerate (S i) batches batch_body s')).
  rewrite run_bind.
  pose proof (run_batch_body_tags env e i d self loc Hl) as Hb.
  destruct (run env (batch_body i d (self, loc)) e) as [[tr0 [[s1 l1]|x]] e1];
    cbv beta iota zeta in Hb; destruct Hb as (Hc & Hps & Hgs & Hpre & Ho).
  2:{ cbv beta iota zeta. simpl length. rewrite batch_suffixes_cons.
      simpl replicate. simpl concat. simpl fst.
      rewrite Hc, Hps, Hgs. split_and!; try done.
      - apply prefix_cons, prefix_nil.
      - by apply (prefix_app_r _ [_; _]). }
  destruct Ho as (Hsame & Hnew & Hn0).
  assert (Hl1 : role (s1, l1).1 = GUEST → is_Some (labels (s1, l1).1)).
  { simpl. destruct Hsame as (Hr & _ & _ & _ & _ & _ & _ & _ & Hlb & _).
    rewrite Hr, Hlb. exact Hl. }
  pose proof (IH (S i) (s1, l1) e1 Hl1) as Hrest.
  destruct (run env (for_enumerate (S i) batches batch_body (s1, l1)) e1)
    as [[tr1 o1] e2]. cbv beta iota zeta in Hrest |- *.
  simpl length. rewrite batch_suffixes_cons.
  simpl replicate. simpl concat. simpl fst.
  assert (Hn1 : n_iter_ s1 = n_iter_ self) by apply Hsame.
  simpl fst in Hrest. rewrite Hn1 in Hrest.
  destruct Hrest as (Hc1 & Hg1 & Hps1 & Hrn1 & Ho1).
  unfold converge_answers, gradient_suffixes, prediction_suffixes,
    review_names in *.
  rewrite !omap_app, Hc, Hc1, Hg1, Hps, Hgs, Hn0.
  split_and!; try done.
  - by apply (prefix_app [_]).
  - by apply (prefix_app [_; _]).
  - destruct o1 as [[s2 l2]|x]; [|done].
    destruct Ho1 as (Hsame1 & Hnil & Hcons & Hpseq & Hrneq). simpl in *.
    split_and!; try done.
    + by eapply same_config_trans.
    + intros _. destruct batches as [|d' batches'].
      * by injection (Hnil eq_refl) as -> ->.
      * by apply Hcons.
    + by rewrite Hpseq.
    + by rewrite Hrneq.
Qed.

Lemma run_while_tags {E} (env : environment E) batches fuel st e :
  (role st.1 = GUEST → is_Some (labels st.1)) →
  (Z.to_nat (max_iter st.1 - n_iter_ st.1) ≤ fuel)%nat →
  let '(tr, o, _) := run env (while_loop fuel batches st) e in
  let n0 := n_iter_ st.1 in
  let iters := Z.to_nat (max_iter st.1 - n0) in
  let k := length batches in
  let checks := (converge_answers tr).*1 in
  gradient_suffixes tr = prediction_suffixes tr ∧
  prediction_suffixes tr `prefix_of` all_suffixes n0 iters k ∧
  review_names tr `prefix_of` all_review_names n0 iters k ∧
  checks `prefix_of` check_suffixes n0 iters ∧
  match o with
  | Returned (Some _) =>
      prediction_suffixes tr = all_suffixes n0 (length checks) k ∧
      review_names tr = all_review_names n0 (length checks) k ∧
      checks = check_suffixes n0 (length checks)
  | _ => True
  end.
Proof.
  revert st e. induction fuel as [|fuel IH]; intros st e Hl Hfuel.
  { rewrite while_loop_done by lia. simpl.
    split_and!; try done; apply prefix_nil. }
  destruct (decide (n_iter_ st.1 < max_iter st.1)) as [Hlt|Hge]; cycle 1.
  { rewrite while_loop_done by done. simpl.
    split_and!; try done; apply prefix_nil. }
  rewrite while_loop_S by done. rewrite run_bind.
  pose proof (run_batches_tags env batches 0 st e Hl) as Hb.
  destruct (run env (for_enumerate 0 batches batch_body st) e)
    as [[tr0 o0] e1]. cbv beta iota zeta in Hb.
  destruct Hb as (Hc & Hg & Hps & Hrn & Ho).
  assert (Hiters : Z.to_nat (max_iter st.1 - n_iter_ st.1)
                   = S (Z.to_nat (max_iter st.1 - (n_iter_ st.1 + 1)))) by lia.
  destruct o0 as [[s1 l1]|x]; cycle 1.
  { cbv beta iota zeta. rewrite Hiters, Hc. simpl.
    split_and!; try done; try apply prefix_nil; by apply prefix_app_r. }
  destruct Ho as (Hsame & _ & Hcons & Hpseq & Hrneq). simpl in Hsame.
  destruct (new_w l1) as [nw|] eqn:Hnw; cycle 1.
  { simpl. rewrite Hiters, ?app_nil_r, Hc. simpl.
    split_and!; try done; try apply prefix_nil; by apply prefix_app_r. }
  simpl.
  destruct (on_check_converge env e1 _ _ _) as [c e2].
  assert (Hn1 : n_iter_ s1 = n_iter_ st.1) by apply Hsame.
  assert (Hm1 : max_iter s1 = max_iter st.1) by apply Hsame.
  destruct c; simpl.
  - rewrite Hiters.
    unfold converge_answers, gradient_suffixes, prediction_suffixes,
      review_names in *.
    rewrite !omap_app, Hc, Hg. simpl. rewrite !app_nil_r, Hn1.
    split_and!; try done; try (by apply prefix_app_r).
    apply prefix_cons, prefix_nil.
  - set (st2 := (set_n_iter_ (n_iter_ (set_is_converged false s1) + 1)
                   (set_is_converged false s1),
                 {| w_self := w_self l1; w_remote := w_remote l1;
                    new_w := Some nw;
                    last_models :=
                      (nw, hosted_model_weights (set_is_converged false s1)) |})).
    assert (Hn2 : n_iter_ st2.1 = n_iter_ st.1 + 1)
      by (rewrite <- Hn1; by destruct s1).
    assert (Hm2 : max_iter st2.1 = max_iter st.1)
      by (rewrite <- Hm1; by destruct s1).
    assert (Hl2 : role st2.1 = GUEST → is_Some (labels st2.1)).
    { destruct Hsame as (Hr & _ & _ & _ & _ & _ & _ & _ & Hlb & _).
      assert (role st2.1 = role s1) as -> by (by destruct s1).
      assert (labels st2.1 = labels s1) as -> by (by destruct s1).
      rewrite Hr, Hlb. exact Hl. }
    pose proof (IH st2 e2 Hl2 ltac:(lia)) as Hrest.
    destruct (run env (while_loop fuel batches st2) e2) as [[tr2 o2] e3].
    cbv beta iota zeta in Hrest. rewrite Hn2, Hm2 in Hrest.
    destruct Hrest as (Hg2 & Hps2 & Hrn2 & Hck2 & Ho2).
    cbv beta iota zeta. rewrite Hiters.
    unfold converge_answers, gradient_suffixes, prediction_suffixes,
      review_names in *.
    rewrite !omap_app, Hc, Hg, !omap_step. cbv beta iota.
    rewrite Hg2, Hpseq, Hrneq, Hn1. simpl.
    split_and!; try done.
    + by apply prefix_app.
    + by apply prefix_app.
    + by apply prefix_cons.
    + destruct o2 as [[?|]|?]; try done.
      destruct Ho2 as (Hp2 & Hr2 & Hck).
      split_and!; simpl; [by rewrite Hp2|by rewrite Hr2|by f_equal].
Qed.

Lemma NoDup_prefix {A} (l1 l2 : list A) :
  l1 `prefix_of` l2 → NoDup l2 → NoDup l1.
Proof. intros [k ->] Hnd. by apply NoDup_app in Hnd as [? _]. Qed.







Lemma wb_inj n m : wb_ n = wb_ m → n = m.
Proof. unfold wb_. simpl. intros [= Heq]. by apply (inj pretty). Qed.

Lemma wa_inj n m : wa_ n = wa_ m → n = m.
Proof. unfold wa_. simpl. intros [= Heq]. by apply (inj pretty). Qed.

Lemma wb_ne_wa n m : wb_ n ≠ wa_ m.
Proof. unfold wb_, wa_. simpl. by intros [=]. Qed.

Lemma elem_of_all_review_names name n iters :
  name ∈ all_review_names n iters 1 →
  ∃ it, (name = wb_ it ∨ name = wa_ it) ∧ n ≤ it.
Proof.
  revert n. induction iters as [|iters IH]; intros n; simpl.
  { by intros ?%elem_of_nil. }
  intros [->|[->|Hin]%elem_of_cons]%elem_of_cons.
  - exists n. split; [by left|lia].
  - exists n. split; [by right|lia].
  - apply IH in Hin as (it & ? & ?). exists it. split; [done|lia].
Qed.

Lemma NoDup_all_review_names n iters k :
  (k ≤ 1)%nat → NoDup (all_review_names n iters k).
Proof.
  intros Hk. destruct k as [|[|k]]; [| |lia].
  { clear Hk. revert n. induction iters as [|iters IH]; intros n; simpl;
      [constructor|apply IH]. }
  clear Hk. revert n. induction iters as [|iters IH]; intros n; simpl;
    [constructor|].
  apply NoDup_cons. split.
  { intros [Heq|Hin]%elem_of_cons; [by apply wb_ne_wa in Heq|].
    apply elem_of_all_review_names in Hin as (it & [Heq|Heq] & ?).
    - apply wb_inj in Heq. lia.
    - by apply wb_ne_wa in Heq. }
  apply NoDup_cons. split; [|apply IH].
  intros (it & [Heq|Heq] & ?)%elem_of_all_review_names.
  - symmetry in Heq. by apply wb_ne_wa in Heq.
  - apply wa_inj in Heq. lia.
Qed.


(** X2. When [fit_binary] returns, the iterations it made are complete:
    with [c] the number of convergence checks, the predictions are those
    of [c] iterations over every batch in order, each batch was reviewed
    once under [wb_<iteration>] and [wa_<iteration>], and the checks are
    numbered from [n_iter_] on. *)
Theorem fit_binary_completed_iterations {E} (env : environment E) e
    self w lbls batches tr r e' :
  run env (fit_binary self w lbls batches) e = (tr, Returned (Some r), e') →
  let c := length (converge_answers tr) in
  prediction_suffixes tr = all_suffixes (n_iter_ self) c (length batches) ∧
  review_names tr = all_review_names (n_iter_ self) c (length batches) ∧
  (converge_answers tr).*1 = check_suffixes (n_iter_ self) c.
Proof.
  destruct (run_fit_binary env e self w lbls batches)
    as (pre & st & e1 & -> & (Hc & Hp & Hg & Hps & Hgs & Hrn) & Hn & Hm & _ & Hl & _).
  pose proof (run_while_tags env batches
    (Z.to_nat (max_iter self - n_iter_ self)) st e1 Hl
    ltac:(rewrite Hn, Hm; lia)) as Hloop.
  destruct (run env (while_loop _ batches st) e1) as [[tr1 o] e2].
  cbv beta iota zeta in Hloop. rewrite Hn in Hloop.
  destruct Hloop as (_ & _ & _ & _ & Ho). intros [= <- -> <-].
  rewrite length_fmap in Ho.
  unfold converge_answers, prediction_suffixes, review_names in *.
  cbv zeta. rewrite !omap_app, Hc, Hps, Hrn. simpl. exact Ho.
Qed.

(** X3. With at most one batch for an iteration, no tensor name of the
    review is used twice in a run of [fit_binary], however it ends. *)
Theorem single_batch_review_names_distinct {E} (env : environment E) e
    self w lbls batches :
  (length batches ≤ 1)%nat →
  NoDup (review_names (run env (fit_binary self w lbls batches) e).1.1).
Proof.
  intros Hk.
  destruct (run_fit_binary env e self w lbls batches)
    as (pre & st & e1 & -> & (Hc & Hp & Hg & Hps & Hgs & Hrn) & Hn & Hm & _ & Hl & _).
  pose proof (run_while_tags env batches
    (Z.to_nat (max_iter self - n_iter_ self)) st e1 Hl
    ltac:(rewrite Hn, Hm; lia)) as Hloop.
  destruct (run env (while_loop _ batches st) e1) as [[tr o] e2].
  cbv beta iota zeta in Hloop. destruct Hloop as (_ & _ & Hpre & _).
  simpl. unfold review_names in *. rewrite omap_app, Hrn. simpl.
  eapply NoDup_prefix; [done|by apply NoDup_all_review_names].
Qed.

(** X4. With no batch at all and the counter below [max_iter],
    [fit_binary] raises [UnboundLocalError] for [new_w] on reaching the
    convergence check of the first iteration: nothing was predicted,
    reviewed or checked. *)
Theorem fit_binary_without_batches {E} (env : environment E) e self w lbls :
  n_iter_ self < max_iter self →
  let '(tr, o, _) := run env (fit_binary self w lbls []) e in
  o = Raised (UnboundLocalError "new_w") ∧
  prediction_suffixes tr = [] ∧ review_names tr = [] ∧ converge_answers tr = [].
Proof.
  intros Hlt.
  destruct (run_fit_binary env e self w lbls [])
    as (pre & st & e1 & -> & (Hc & Hp & Hg & Hps & Hgs & Hrn) & Hn & Hm & _ & Hl
        & Hnw & _).
  destruct (Z.to_nat (max_iter self - n_iter_ self)) as [|fuel] eqn:Hfuel; [lia|].
  rewrite while_loop_S by lia. destruct st as [s0 l0]. simpl in Hnw.
  simpl. rewrite Hnw. simpl.
  unfold converge_answers, prediction_suffixes, review_names in *.
  rewrite !app_nil_r. done.
Qed.

End HeteroLR_tags.

Section HeteroLR_tags_samples.
Import HeteroLR.
Local Open Scope Z_scope.

Lemma fit_binary_completed_iterations_witness :
  let self := sample_party GUEST HOST "all_review_in_guest" 2 in
  let r := run (sample_env false)
             (fit_binary self [0] ∅ [sample_batch; sample_batch]) tt in
  prediction_suffixes r.1.1 =
    [[SInt 0; SInt 0]; [SInt 0; SInt 1]; [SInt 1; SInt 0]; [SInt 1; SInt 1]].
Proof.
  intros self r.
  destruct r as [[tr [[res|]|x]] e'] eqn:Heq; try (by vm_compute in Heq).
  simpl.
  destruct (fit_binary_completed_iterations _ _ _ _ _ _ _ _ _ Heq) as (-> & _).
  vm_compute in Heq. injection Heq as <- _ _. reflexivity.
Defined.

Lemma single_batch_review_names_distinct_witness :
  NoDup (review_names
           (run (sample_env false)
              (fit_binary (sample_party HOST GUEST "respectively" 3) [0] ∅
                 [sample_batch]) tt).1.1).
Proof.
  apply (single_batch_review_names_distinct (sample_env false) tt
           (sample_party HOST GUEST "respectively" 3) [0] ∅ [sample_batch]).
  simpl. lia.
Defined.

Lemma fit_binary_without_batches_witness :
  (run (sample_env false)
     (fit_binary (sample_party HOST GUEST "respectively" 3) [0] ∅ []) tt).1.2
  = Raised (UnboundLocalError "new_w").
Proof.
  pose proof (fit_binary_without_batches (sample_env false) tt
    (sample_party HOST GUEST "respectively" 3) [0] ∅ ltac:(done)) as Hrun.
  destruct (run _ _ _) as [[tr o] e']. exact (proj1 Hrun).
Defined.

End HeteroLR_tags_samples.

(** *** The weights through a run *)

Section HeteroLR_weights.
Import HeteroLR.
Local Open Scope Z_scope.

Lemma run_review_models_calls {E} (env : environment E) e self ws wr :
  let '(tr, o, _) := run env (review_models self ws wr) e in
  converge_calls tr = [] ∧ sources tr = [] ∧
  match o with
  | Returned (nw, self') => fit_intercept self' = fit_intercept self
  | Raised _ => True
  end.
Proof.
  unfold review_models, reconstruct_unilateral, broadcast_reconstruct_share.
  repeat case_decide; simpl;
    repeat first
      [ progress simpl
      | match goal with
        | |- context [on_get_share ?v ?x ?n] =>
            destruct (on_get_share v x n)
        | |- context [bool_decide ?P] => destruct (bool_decide P)
        end ];
    split_and!; try done; by destruct self.
Qed.

Lemma run_batch_body_weights {E} (env : environment E) e i d self loc :
  (role self = GUEST → is_Some (labels self)) →
  let '(tr, o, _) := run env (batch_body i d (self, loc)) e in
  converge_calls tr = [] ∧ sources tr = [] ∧
  match o with
  | Returned (self', loc') =>
      ∃ nw, new_w loc' = Some nw ∧
            model_weights self' =
              Some {| unboxed := nw; lmw_fit_intercept := fit_intercept self |}
  | Raised _ => True
  end.
Proof.
  intros Hl. unfold batch_body. simpl.
  destruct (on_cal_prediction env e _ _ _ _) as [y e1].
  rewrite !bind_unfold.
  case_decide as Hr.
  - destruct (Hl Hr) as [lbl Hlbl]. rewrite Hlbl. simpl.
    destruct (on_compute_gradient env e1 _ _ _ _ _) as [[a b] e2]. simpl.
    rewrite run_mbind.
    pose proof (run_review_models_calls env e2 self b a) as Hrev.
    destruct (run env (review_models self b a) e2) as [[tr [[nw s']|x]] e3];
      simpl; destruct Hrev as (Hc & Hs & Ho);
      unfold converge_calls, sources in *; simpl;
      rewrite ?app_nil_r, Hc, Hs; split_and!; try done.
    exists nw. rewrite Ho. split; [done|]. by destruct s'.
  - simpl.
    destruct (on_compute_gradient env e1 _ _ _ _ _) as [[a b] e2]. simpl.
    rewrite run_mbind.
    pose proof (run_review_models_calls env e2 self a b) as Hrev.
    destruct (run env (review_models self a b) e2) as [[tr [[nw s']|x]] e3];
      simpl; destruct Hrev as (Hc & Hs & Ho);
      unfold converge_calls, sources in *; simpl;
      rewrite ?app_nil_r, Hc, Hs; split_and!; try done.
    exists nw. rewrite Ho. split; [done|]. by destruct s'.
Qed.

Lemma run_batches_weights {E} (env : environment E) batches i st e :
  (role st.1 = GUEST → is_Some (labels st.1)) →
  let '(tr, o, _) := run env (for_enumerate i batches batch_body st) e in
  converge_calls tr = [] ∧ sources tr = [] ∧
  match o with
  | Returned st' =>
      batches ≠ [] →
      ∃ nw, new_w st'.2 = Some nw ∧
            model_weights st'.1 =
              Some {| unboxed := nw; lmw_fit_intercept := fit_intercept st.1 |}
  | Raised _ => True
  end.
Proof.
  revert i st e. induction batches as [|d batches IH]; intros i [self loc] e Hl.
  { simpl. done. }
  change (for_enumerate i (d :: batches) batch_body (self, loc))
    with (bind (batch_body i d (self, loc))
            (λ s', for_enumerate (S i) batches batch_body s')).
  rewrite run_bind.
  pose proof (run_batch_body_weights env e i d self loc Hl) as Hb.
  pose proof (run_batch_body env e i d self loc Hl) as Hb'.
  destruct (run env (batch_body i d (self, loc)) e) as [[tr0 [[s1 l1]|x]] e1];
    cbv beta iota zeta in Hb, Hb'; destruct Hb as (Hc & Hs & Ho);
    destruct Hb' as (_ & _ & _ & _ & Ho'); [|done].
  destruct Ho' as (Hsame & _).
  assert (Hl1 : role (s1, l1).1 = GUEST → is_Some (labels (s1, l1).1)).
  { simpl. destruct Hsame as (Hr & _ & _ & _ & _ & _ & _ & _ & Hlb & _).
    rewrite Hr, Hlb. exact Hl. }
  pose proof (IH (S i) (s1, l1) e1 Hl1) as Hrest.
  pose proof (run_batches env batches (S i) (s1, l1) e1 Hl1) as Hrest'.
  destruct (run env (for_enumerate (S i) batches batch_body (s1, l1)) e1)
    as [[tr1 o1] e2]. cbv beta iota zeta in Hrest, Hrest' |- *.
  destruct Hrest as (Hc1 & Hs1 & Ho1).
  destruct Hrest' as (_ & _ & _ & _ & Ho1').
  unfold converge_calls, sources in *.
  rewrite !omap_app, Hc, Hc1, Hs, Hs1. split_and!; try done.
  destruct o1 as [[s2 l2]|x]; [|done]. intros _. simpl in *.
  destruct batches as [|d' batches'].
  - destruct Ho1' as (_ & _ & Hnil & _).
    destruct (Hnil eq_refl) as [Heq _]. injection Heq as -> ->. exact Ho.
  - destruct (Ho1 ltac:(done)) as (nw & Hnw & Hmw). exists nw.
    split; [done|]. rewrite Hmw.
    by destruct Hsame as (_ & _ & _ & -> & _).
Qed.

Lemma last_cons_cons {A} (x y : A) l : last (x :: y :: l) = last (y :: l).
Proof. reflexivity. Qed.

Lemma run_while_chain {E} (env : environment E) batches fuel st e :
  (role st.1 = GUEST → is_Some (labels st.1)) →
  (batches = [] → new_w st.2 = None) →
  let '(tr, o, _) := run env (while_loop fuel batches st) e in
  chained (last_models st.2).1 (converge_calls tr) ∧ sources tr = [] ∧
  match o with
  | Returned (Some (self', loc')) =>
      match last (converge_calls tr) with
      | Some (_, nw) =>
          new_w loc' = Some nw ∧
          model_weights self' =
            Some {| unboxed := nw; lmw_fit_intercept := fit_intercept st.1 |}
      | None => (self', loc') = st
      end
  | _ => True
  end.
Proof.
  revert st e. induction fuel as [|fuel IH]; intros st e Hl Hempty.
  { simpl. destruct (bool_decide _); simpl; by destruct st. }
  destruct (decide (n_iter_ st.1 < max_iter st.1)) as [Hlt|Hge]; cycle 1.
  { rewrite while_loop_done by done. simpl. by destruct st. }
  rewrite while_loop_S by done. rewrite run_bind.
  pose proof (run_batches_weights env batches 0 st e Hl) as Hb.
  pose proof (run_batches env batches 0 st e Hl) as Hb'.
  destruct (run env (for_enumerate 0 batches batch_body st) e)
    as [[tr0 o0] e1]. cbv beta iota zeta in Hb, Hb'.
  destruct Hb as (Hc & Hs & Ho). destruct Hb' as (_ & _ & _ & _ & Ho').
  destruct o0 as [[s1 l1]|x]; cycle 1.
  { cbv beta iota zeta. by rewrite Hc, Hs. }
  destruct Ho' as (Hsame & Hlast & Hnil & _). simpl in Hsame, Hlast.
  destruct (new_w l1) as [nw|] eqn:Hnw; cycle 1.
  { simpl. by rewrite ?app_nil_r, Hc, Hs. }
  assert (Hne : batches ≠ []).
  { intros Hb. destruct (Hnil Hb) as [<- _]. simpl in Hempty.
    rewrite (Hempty Hb) in Hnw. done. }
  destruct (Ho Hne) as (nw' & Hnw' & Hmw). simpl in Hnw', Hmw.
  assert (nw' = nw) as -> by congruence.
  simpl.
  destruct (on_check_converge env e1 _ _ _) as [c e2].
  destruct c; simpl.
  - unfold converge_calls, sources in *.
    rewrite !omap_app, Hc, Hs. simpl. rewrite Hlast.
    split_and!; try done. by destruct s1.
  - set (st2 := (set_n_iter_ (n_iter_ (set_is_converged false s1) + 1)
                   (set_is_converged false s1),
                 {| w_self := w_self l1; w_remote := w_remote l1;
                    new_w := Some nw;
                    last_models :=
                      (nw, hosted_model_weights (set_is_converged false s1)) |})).
    assert (Hl2 : role st2.1 = GUEST → is_Some (labels st2.1)).
    { destruct Hsame as (Hr & _ & _ & _ & _ & _ & _ & _ & Hlb & _).
      assert (role st2.1 = role s1) as -> by (by destruct s1).
      assert (labels st2.1 = labels s1) as -> by (by destruct s1).
      rewrite Hr, Hlb. exact Hl. }
    pose proof (IH st2 e2 Hl2 ltac:(done)) as Hrest.
    destruct (run env (while_loop fuel batches st2) e2) as [[tr2 o2] e3].
    cbv beta iota zeta in Hrest |- *.
    destruct Hrest as (Hch2 & Hs2 & Ho2).
    unfold converge_calls, sources in *.
    rewrite !omap_app, Hc, Hs, !omap_step. cbv beta iota.
    rewrite Hs2, Hlast. simpl. split_and!; try done.
    destruct o2 as [[[s3 l3]|]|?]; try done.
    assert (Hfi : fit_intercept st2.1 = fit_intercept st.1).
    { destruct Hsame as (_ & _ & _ & <- & _). by destruct s1. }
    rewrite Hfi in Ho2.
    destruct (omap _ tr2) as [|c2 calls2] eqn:Hcalls.
    + simpl in Ho2 |- *. injection Ho2 as -> ->. simpl.
      split; [done|]. rewrite <- Hmw. by destruct s1.
    + rewrite last_cons_cons.
      destruct (last (c2 :: calls2)) as [[lw2 nw2]|] eqn:Hlast2; [exact Ho2|].
      by apply last_None in Hlast2.
Qed.

Lemma run_fit_binary_start {E} (env : environment E) e self w lbls batches :
  ∃ pre st e1,
    run env (fit_binary self w lbls batches) e =
      (let '(tr, o, e') :=
         run env (while_loop (Z.to_nat (max_iter self - n_iter_ self))
                    batches st) e1 in
       (pre ++ tr, o, e')) ∧
    converge_calls pre = [] ∧
    sources pre =
      (if decide (role self = GUEST)
       then [(wb_ (-1), SrcValue w); (wa_ (-1), SrcParty (other_party self))]
       else [(wa_ (-1), SrcValue w); (wb_ (-1), SrcParty (other_party self))]) ∧
    (role st.1 = GUEST → is_Some (labels st.1)) ∧
    new_w st.2 = None ∧ (last_models st.2).1 = w ∧
    model_weights st.1 = model_weights self ∧
    fit_intercept st.1 = fit_intercept self.
Proof.
  unfold fit_binary, share_init_model. rewrite !bind_unfold. simpl.
  destruct (on_transfer_pubkey env e) as [q e0]. simpl.
  destruct (decide (role self = GUEST)) as [Hr|Hr].
  - assert (role (set_fix_point_encoder_n q (set_labels (Some lbls) self)) = GUEST)
      as Hr' by (by destruct self).
    rewrite (decide_True (P := role _ = GUEST)) by done. simpl.
    destruct (on_from_source env e0 _ _) as [wb e1]. simpl.
    destruct (on_from_source env e1 _ _) as [wa e2]. simpl.
    assert (max_iter (set_fix_point_encoder_n q (set_labels (Some lbls) self))
            = max_iter self) as -> by (by destruct self).
    assert (n_iter_ (set_fix_point_encoder_n q (set_labels (Some lbls) self))
            = n_iter_ self) as -> by (by destruct self).
    assert (other_party (set_fix_point_encoder_n q (set_labels (Some lbls) self))
            = other_party self) as -> by (by destruct self).
    match goal with
    | |- context [run env (while_loop _ _ ?st) e2] => eexists _, st, e2
    end.
    split.
    { destruct (run env (while_loop _ _ _) e2) as [[tr o] e3].
      instantiate (1 := [_; _; _]). reflexivity. }
    simpl. split_and!; try done; by destruct self.
  - assert (role (set_fix_point_encoder_n q self) ≠ GUEST)
      as Hr' by (by destruct self).
    rewrite (decide_False (P := role _ = GUEST)) by done. simpl.
    destruct (on_from_source env e0 _ _) as [wa e1]. simpl.
    destruct (on_from_source env e1 _ _) as [wb e2]. simpl.
    assert (max_iter (set_fix_point_encoder_n q self) = max_iter self) as ->
      by (by destruct self).
    assert (n_iter_ (set_fix_point_encoder_n q self) = n_iter_ self) as ->
      by (by destruct self).
    assert (other_party (set_fix_point_encoder_n q self) = other_party self)
      as -> by (by destruct self).
    match goal with
    | |- context [run env (while_loop _ _ ?st) e2] => eexists _, st, e2
    end.
    split.
    { destruct (run env (while_loop _ _ _) e2) as [[tr o] e3].
      instantiate (1 := [_; _; _]). reflexivity. }
    simpl. split_and!; try done; by destruct self.
Qed.

(** X9. Convergence is judged against the weights of the iteration
    before: the first call of [check_converge] compares with the initial
    weights [w], every later one with the [new_w] of the call before it.
    When [fit_binary] returns, the weights of the model are the [new_w]
    of the last check, with the [fit_intercept] flag of the parameters;
    if there was no check, the model is as it was given. *)
Theorem convergence_judged_against_previous_weights {E} (env : environment E)
    e self w lbls batches :
  let '(tr, o, _) := run env (fit_binary self w lbls batches) e in
  chained w (converge_calls tr) ∧
  match o with
  | Returned (Some (self', loc')) =>
      match last (converge_calls tr) with
      | Some (_, nw) =>
          new_w loc' = Some nw ∧
          model_weights self' =
            Some {| unboxed := nw; lmw_fit_intercept := fit_intercept self |}
      | None => model_weights self' = model_weights self
      end
  | _ => True
  end.
Proof.
  destruct (run_fit_binary_start env e self w lbls batches)
    as (pre & st & e1 & -> & Hc & _ & Hl & Hnw & Hlast & Hmw & Hfi).
  pose proof (run_while_chain env batches
    (Z.to_nat (max_iter self - n_iter_ self)) st e1 Hl (λ _, Hnw)) as Hloop.
  destruct (run env (while_loop _ batches st) e1) as [[tr o] e2].
  cbv beta iota zeta in Hloop |- *. rewrite Hlast, Hfi in Hloop.
  destruct Hloop as (Hch & _ & Ho).
  unfold converge_calls in *. rewrite omap_app, Hc. simpl.
  split; [done|]. destruct o as [[[s' l']|]|x]; try done.
  destruct (last _) as [[? nw]|]; [done|]. subst st. exact Hmw.
Qed.

(** X10. The initial weights are shared once: in every run of
    [fit_binary] [from_source] is called exactly twice, before the first
    iteration and under the names [wb_-1] and [wa_-1]; the party's own
    weights go under the name of its side ([wb] at the Guest, [wa]
    elsewhere), the other name is asked of the other party. *)
Theorem initial_weights_shared_once {E} (env : environment E)
    e self w lbls batches :
  sources (run env (fit_binary self w lbls batches) e).1.1 =
    if decide (role self = GUEST)
    then [("wb_-1", SrcValue w); ("wa_-1", SrcParty (other_party self))]
    else [("wa_-1", SrcValue w); ("wb_-1", SrcParty (other_party self))].
Proof.
  destruct (run_fit_binary_start env e self w lbls batches)
    as (pre & st & e1 & -> & _ & Hsrc & Hl & Hnw & _).
  pose proof (run_while_chain env batches
    (Z.to_nat (max_iter self - n_iter_ self)) st e1 Hl (λ _, Hnw)) as Hloop.
  destruct (run env (while_loop _ batches st) e1) as [[tr o] e2].
  cbv beta iota zeta in Hloop. destruct Hloop as (_ & Hs & _).
  simpl. unfold sources in *. rewrite omap_app, Hs, app_nil_r, Hsrc.
  reflexivity.
Qed.

End HeteroLR_weights.

Section HeteroLR_share_z.
Import HeteroLR.
Local Open Scope Z_scope.

(** X11. Where [share_z] fails. At the Host a call without the keyword
    "z" raises [KeyError] before anything is encrypted or sent. At any
    other party, when nothing is received under the suffix, indexing the
    received list raises [IndexError] after that one call. *)
Theorem share_z_failures {E} (env : environment E) e self sfx kwargs :
  (role self = HOST → kwargs !! "z" = None →
     run env (share_z self sfx kwargs) e = ([], Raised (KeyError "z"), e)) ∧
  (role self ≠ HOST →
     (on_get_parties env e (SStr "z" :: sfx)).1 = [] →
     run env (share_z self sfx kwargs) e =
       ([EvGetParties (SStr "z" :: sfx) []], Raised IndexError,
        (on_get_parties env e (SStr "z" :: sfx)).2)).
Proof.
  split.
  - intros Hr Hz. unfold share_z. rewrite decide_True by done.
    simpl. by rewrite Hz.
  - intros Hr. unfold share_z. rewrite decide_False by done. simpl.
    destruct (on_get_parties env e (SStr "z" :: sfx)) as [parties e'].
    simpl. by intros ->.
Qed.

Lemma share_z_failures_witness :
  run (sample_env false)
    (share_z (sample_party HOST GUEST "respectively" 1) [SInt 0; SInt 0] ∅) tt
  = ([], Raised (KeyError "z"), tt).
Proof.
  exact (proj1 (share_z_failures (sample_env false) tt
    (sample_party HOST GUEST "respectively" 1) [SInt 0; SInt 0] ∅)
    eq_refl eq_refl).
Defined.

End HeteroLR_share_z.

(** *** Export and load *)

Section HeteroLR_export.
Import HeteroLR.
Local Open Scope Z_scope.
Context `{WeightsView}.

Lemma export_weights_other (mw : LinearModelWeights) (idx : nat)
    (hd : list string) (d d' : gmap string Z) (name : string) :
  export_weights (Some mw) idx hd d = inr d' → name ∉ hd →
  d' !! name = d !! name.
Proof.
  revert idx d. induction hd as [|x hd IH]; intros idx d; simpl.
  { by intros [= ->]. }
  destruct (coef_ mw !! idx) as [c|]; [|done].
  intros Hex [Hne Hnotin]%not_elem_of_cons.
  rewrite (IH _ _ Hex Hnotin). by apply lookup_insert_ne.
Qed.

Lemma export_weights_last (mw : LinearModelWeights) (idx : nat)
    (hd : list string) (d d' : gmap string Z) (i : nat) (name : string) :
  export_weights (Some mw) idx hd d = inr d' →
  hd !! i = Some name →
  (∀ j, (i < j)%nat → hd !! j ≠ Some name) →
  d' !! name = coef_ mw !! (idx + i)%nat.
Proof.
  revert idx d i. induction hd as [|x hd IH]; intros idx d i; simpl; [done|].
  destruct (coef_ mw !! idx) as [c|] eqn:Hc; [|done].
  intros Hex Hi Hlast. destruct i as [|i]; simpl in Hi.
  - injection Hi as ->.
    rewrite (export_weights_other _ _ _ _ _ name Hex).
    + rewrite lookup_insert_eq, Nat.add_0_r. done.
    + intros (j & Hj)%list_elem_of_lookup. apply (Hlast (S j)); [lia|done].
  - rewrite (IH _ _ i Hex Hi).
    + f_equal. lia.
    + intros j Hj. apply (Hlast (S j)). lia.
Qed.

Lemma export_weights_ok (mw : LinearModelWeights) (idx : nat)
    (hd : list string) (d : gmap string Z) :
  (idx + length hd ≤ length (coef_ mw))%nat →
  ∃ d', export_weights (Some mw) idx hd d = inr d'.
Proof.
  revert idx d. induction hd as [|x hd IH]; intros idx d; simpl; [by eauto|].
  intros Hlen. destruct (lookup_lt_is_Some_2 (coef_ mw) idx) as [c ->]; [lia|].
  apply IH. lia.
Qed.

Lemma export_weights_short (mw : LinearModelWeights) (idx : nat)
    (hd : list string) (d : gmap string Z) :
  (idx ≤ length (coef_ mw))%nat →
  (length (coef_ mw) < idx + length hd)%nat →
  export_weights (Some mw) idx hd d = inl IndexError.
Proof.
  revert idx d. induction hd as [|x hd IH]; intros idx d; simpl; [lia|].
  intros Hidx Hlen. destruct (coef_ mw !! idx) as [c|] eqn:Hc; [|done].
  apply lookup_lt_Some in Hc. apply IH; lia.
Qed.

Lemma load_weights_lookup (d : gmap string Z) (hd : list string) (vs : list Z) :
  load_weights d hd = inr vs →
  length vs = length hd ∧
  ∀ i name, hd !! i = Some name → vs !! i = d !! name.
Proof.
  revert vs. induction hd as [|x hd IH]; intros vs; simpl.
  { intros [= <-]. by split. }
  destruct (d !! x) as [v|] eqn:Hx; [|done].
  destruct (load_weights d hd) as [e|vs'] eqn:Hl; [done|].
  intros [= <-]. destruct (IH vs' eq_refl) as [Hlen Hlook]. split.
  - simpl. by rewrite Hlen.
  - intros [|i] name; simpl; [by intros [= <-]|apply Hlook].
Qed.

Lemma load_weights_ok (d : gmap string Z) (hd : list string) :
  (∀ name, name ∈ hd → is_Some (d !! name)) →
  ∃ vs, load_weights d hd = inr vs.
Proof.
  induction hd as [|x hd IH]; intros Hall; simpl; [by eauto|].
  destruct (Hall x) as [v ->]; [by left|].
  destruct IH as [vs ->]; [|by eauto]. intros name ?. apply Hall. by right.
Qed.

Lemma load_weights_missing (d : gmap string Z) (hd : list string) (name : string) :
  name ∈ hd → d !! name = None → load_weights d hd = inl TypeError.
Proof.
  induction hd as [|x hd IH]; [by intros ?%elem_of_nil|].
  intros [->|Hin]%elem_of_cons Hnone; simpl.
  - by rewrite Hnone.
  - destruct (d !! x); [|done]. by rewrite (IH Hin Hnone).
Qed.

(** X5. Export, then load. If the header has no name twice and the
    weights have a coefficient for every header name,
    [get_single_model_param] returns a dictionary, and every parameter
    object that carries the weight, intercept and iters entries of that
    dictionary (the conversion of the one into the other is not among
    the sources) is read by [load_single_model] into the first
    [len(header)] coefficients, followed by the intercept when the model
    fits one; the iteration counter is the exported one. *)
Theorem export_then_load_restores (self : ModelState) (mw : LinearModelWeights) :
  model_weights (base self) = Some mw →
  NoDup (header self) →
  (length (header self) ≤ length (coef_ mw))%nat →
  ∃ exported,
    get_single_model_param self None None = inr exported ∧
    r_header exported = header self ∧
    r_intercept exported = intercept_ mw ∧
    r_iters exported = n_iter_ (base self) ∧
    ∀ obj,
      weight obj = r_weight exported →
      intercept obj = r_intercept exported →
      iters obj = r_iters exported →
      ∃ loaded,
        load_single_model self obj = inr loaded ∧
        model_weights (base loaded) =
          Some {| unboxed := firstn (length (header self)) (coef_ mw) ++
                               (if self_fit_intercept self then [intercept_ mw]
                                else []);
                  lmw_fit_intercept := self_fit_intercept self |} ∧
        n_iter_ (base loaded) = n_iter_ (base self).
Proof.
  intros Hmw Hnd Hlen.
  destruct (export_weights_ok mw 0 (header self) ∅ Hlen) as [d Hd].
  assert (Hlast : ∀ i name, header self !! i = Some name →
            ∀ j, (i < j)%nat → header self !! j ≠ Some name).
  { intros i name Hi j Hj Hj'. pose proof (NoDup_lookup _ _ _ _ Hnd Hi Hj'). lia. }
  destruct (load_weights_ok d (header self)) as [vs Hvs].
  { intros name (i & Hi)%list_elem_of_lookup.
    rewrite (export_weights_last _ _ _ _ _ _ _ Hd Hi (Hlast _ _ Hi)).
    apply lookup_lt_is_Some_2. apply lookup_lt_Some in Hi. lia. }
  assert (vs = firstn (length (header self)) (coef_ mw)) as Hvs_eq.
  { destruct (load_weights_lookup _ _ _ Hvs) as [Hl Hlook].
    apply list_eq. intros i.
    destruct (header self !! i) as [name|] eqn:Hi.
    - rewrite (Hlook _ _ Hi).
      rewrite (export_weights_last _ _ _ _ _ _ _ Hd Hi (Hlast _ _ Hi)). simpl.
      rewrite lookup_take_lt; [done|]. by apply lookup_lt_Some in Hi.
    - apply lookup_ge_None in Hi.
      rewrite (lookup_ge_None_2 vs) by lia.
      rewrite lookup_take_ge; [done|lia]. }
  unfold get_single_model_param. rewrite Hmw, Hd.
  eexists. split; [reflexivity|]. simpl. split_and!; try done.
  intros obj Hw Hi Hit.
  unfold load_single_model. rewrite Hw, Hi, Hit, Hvs.
  eexists. split; [reflexivity|]. simpl. rewrite Hvs_eq. split.
  - destruct (self_fit_intercept self), (base self); simpl;
      by rewrite ?app_nil_r.
  - by destruct (base self).
Qed.

(** X6. A header name that occurs twice is exported once: when a
    parameter object that carries the weight entry of the exported
    dictionary is loaded, every position of that name holds the
    coefficient of its last position. *)
Theorem export_then_load_last_duplicate_wins (self : ModelState)
    (exported : result_dict) (obj : single_model) (loaded : ModelState)
    (tmp_vars : list Z) (fit : bool) (mw : LinearModelWeights) (i j : nat)
    (name : string) :
  model_weights (base self) = Some mw →
  get_single_model_param self None None = inr exported →
  weight obj = r_weight exported →
  load_single_model self obj = inr loaded →
  model_weights (base loaded) =
    Some {| unboxed := tmp_vars; lmw_fit_intercept := fit |} →
  header self !! i = Some name →
  header self !! j = Some name →
  (∀ j', (j < j')%nat → header self !! j' ≠ Some name) →
  tmp_vars !! i = coef_ mw !! j.
Proof.
  intros Hmw. unfold get_single_model_param, load_single_model. rewrite Hmw.
  destruct (export_weights _ _ _ _) as [e|d] eqn:Hd; [done|].
  intros [= <-]. simpl. intros ->.
  destruct (load_weights d (header self)) as [e|vs] eqn:Hvs; [done|].
  intros [= <-]. simpl.
  assert (∀ w b, model_weights (set_n_iter_ (iters obj) (set_model_weights w b))
                 = w) as -> by (by intros ? []).
  intros [= <- <-] Hi Hj Hlast.
  destruct (load_weights_lookup _ _ _ Hvs) as [Hl Hlook].
  assert (vs !! i = coef_ mw !! j) as <-.
  { rewrite (Hlook _ _ Hi).
    by rewrite (export_weights_last _ _ _ _ _ _ _ Hd Hj Hlast). }
  destruct (self_fit_intercept self); [|done].
  apply lookup_app_l. rewrite Hl. by apply lookup_lt_Some in Hi.
Qed.

(** X7. When export and load fail. [get_single_model_param] raises
    [IndexError] if the header is longer than the coefficients, and
    [AttributeError] if there are no weights yet; [load_single_model]
    goes through exactly when every header name has a weight in the
    object it is given. *)
Theorem export_and_load_failures (self : ModelState) :
  (∀ mw, model_weights (base self) = Some mw →
     (length (coef_ mw) < length (header self))%nat →
     get_single_model_param self None None = inl IndexError) ∧
  (model_weights (base self) = None →
   get_single_model_param self None None = inl AttributeError) ∧
  (∀ obj, (∃ loaded, load_single_model self obj = inr loaded) ↔
          ∀ name, name ∈ header self → is_Some (weight obj !! name)).
Proof.
  split_and!.
  - intros mw Hmw Hlen. unfold get_single_model_param. rewrite Hmw.
    by rewrite export_weights_short by lia.
  - intros Hmw. unfold get_single_model_param. rewrite Hmw.
    by destruct (header self).
  - intros obj. unfold load_single_model. split.
    + intros [loaded Hload] name Hin.
      destruct (weight obj !! name) eqn:Hw; [by eauto|].
      by rewrite (load_weights_missing _ _ _ Hin Hw) in Hload.
    + intros Hall. destruct (load_weights_ok _ _ Hall) as [vs ->]. by eauto.
Qed.

End HeteroLR_export.

Section HeteroLR_export_samples.
Import HeteroLR.
Local Open Scope Z_scope.

#[local] Existing Instance sample_view.

Lemma export_then_load_restores_witness :
  let self := sample_state ["x0"; "x1"] true in
  ∃ exported loaded,
    get_single_model_param self None None = inr exported ∧
    r_weight exported !! "x1" = Some 22 ∧
    load_single_model self
      {| iters := r_iters exported; weight := r_weight exported;
         intercept := r_intercept exported |} = inr loaded ∧
    model_weights (base loaded) =
      Some {| unboxed := [11; 22; 33]; lmw_fit_intercept := true |}.
Proof.
  intros self.
  destruct (export_then_load_restores self
              {| unboxed := [11; 22; 33]; lmw_fit_intercept := true |})
    as (exported & He & _ & _ & _ & Hobj).
  - reflexivity.
  - apply NoDup_cons. split; [by intros [=]%list_elem_of_singleton|].
    apply NoDup_singleton.
  - simpl. lia.
  - destruct (Hobj {| iters := r_iters exported; weight := r_weight exported;
                      intercept := r_intercept exported |}
                eq_refl eq_refl eq_refl) as (loaded & Hl & Hmw & _).
    exists exported, loaded. split; [exact He|]. split; [|by split].
    injection He as <-. reflexivity.
Defined.

Lemma export_then_load_last_duplicate_wins_witness :
  let self := sample_state ["x"; "y"; "x"] false in
  let obj := {| iters := 0; weight := {[ "x" := 33; "y" := 22 ]};
                intercept := 0 |} in
  ∃ exported loaded tmp_vars,
    get_single_model_param self None None = inr exported ∧
    r_weight exported = weight obj ∧
    load_single_model self obj = inr loaded ∧
    model_weights (base loaded)
      = Some {| unboxed := tmp_vars; lmw_fit_intercept := false |} ∧
    tmp_vars !! 0%nat = Some 33.
Proof.
  intros self obj.
  eexists _, _, _. split; [reflexivity|]. split; [vm_compute; reflexivity|].
  split; [reflexivity|]. split; [reflexivity|].
  refine (eq_trans
            (export_then_load_last_duplicate_wins
               self _ obj _ [33; 22; 33] false
               {| unboxed := [11; 22; 33]; lmw_fit_intercept := false |}
               0 2 "x" _ _ _ _ _ _ _ _) _); try reflexivity.
  intros [|[|[|j']]] ?; simpl; (lia || done).
Defined.

Lemma export_and_load_failures_witness :
  get_single_model_param (sample_state ["a"; "b"; "c"; "d"] false) None None
    = inl IndexError.
Proof.
  apply (proj1 (export_and_load_failures
                  (sample_state ["a"; "b"; "c"; "d"] false))
           {| unboxed := [11; 22; 33]; lmw_fit_intercept := false |});
    [reflexivity|simpl; lia].
Defined.

End HeteroLR_export_samples.

(** *** The local cache *)

Section PipelinedModel_cache.
Import PipelinedModel.
Context `{Runtime} `{Protobuf} `{Library}.

Lemma app_ne_self {A} (l k : list A) : k ≠ [] → l ++ k ≠ l.
Proof.
  intros Hk Heq. apply (f_equal length) in Heq. rewrite length_app in Heq.
  destruct k; [done|simpl in Heq; lia].
Qed.

Lemma define_meta_path_ne (self : PipelinedModel) :
  define_meta_path self ≠ model_path self.
Proof. by apply app_ne_self. Qed.

Lemma local_cache_required_missing {A} (self : PipelinedModel) (method : io A)
    (fs : filesystem) :
  fs !! (model_path self) = None →
  local_cache_required self method fs = (Err FileNotFoundError, fs).
Proof.
  intros Hno. unfold local_cache_required, bind, exists_, os_path_exists.
  rewrite bool_decide_false; [done|]. rewrite Hno. by intros [? ?].
Qed.

Lemma local_cache_required_there {A} (self : PipelinedModel) (method : io A)
    (fs : filesystem) :
  is_Some (fs !! (model_path self)) →
  local_cache_required self method fs = method fs.
Proof.
  intros Hex. unfold local_cache_required, bind, exists_, os_path_exists.
  by rewrite bool_decide_true.
Qed.

(** X12. Without the local cache of the model, reading and updating
    fail with [FileNotFoundError] and leave the file system as it is:
    [update_component_meta], [get_model_proto_index],
    [get_component_define], [read_component_model] and
    [packaging_model] alike. *)
Theorem missing_cache_is_reported (self : PipelinedModel) (fs : filesystem)
    (component_name component_module_name model_alias : string)
    (model_proto_index : gmap string string) (parse : bool)
    (which : option string) :
  fs !! (model_path self) = None →
  update_component_meta self component_name component_module_name model_alias
    model_proto_index fs = (Err FileNotFoundError, fs) ∧
  get_model_proto_index self component_name model_alias fs
    = (Err FileNotFoundError, fs) ∧
  get_component_define self which fs = (Err FileNotFoundError, fs) ∧
  read_component_model self component_name model_alias parse fs
    = (Err FileNotFoundError, fs) ∧
  packaging_model self fs = (Err FileNotFoundError, fs).
Proof.
  intros Hno. split_and!.
  - by apply local_cache_required_missing.
  - by apply local_cache_required_missing.
  - by apply local_cache_required_missing.
  - unfold read_component_model, bind at 1, get_model_proto_index.
    by rewrite local_cache_required_missing.
  - by apply local_cache_required_missing.
Qed.

(** The meta file after [update_component_meta]. *)
Lemma update_component_meta_ok (self : PipelinedModel) (fs fs' : filesystem)
    (component_name component_module_name model_alias : string)
    (model_proto_index : gmap string string) :
  update_component_meta self component_name component_module_name model_alias
    model_proto_index fs = (Ok tt, fs') →
  ∃ d,
    is_Some (fs !! (model_path self)) ∧
    fs !! (define_meta_path self) = Some (Yaml d) ∧
    fs' = <[define_meta_path self :=
              Yaml {| component_define :=
                        <[component_name :=
                            <["module_name" := component_module_name]>
                              (default ∅ (component_define d !! component_name))]>
                          (component_define d);
                      model_proto :=
                        <[component_name :=
                            <[model_alias :=
                                model_proto_index ∪
                                  default ∅ (default ∅ (model_proto d !! component_name)
                                               !! model_alias)]>
                              (default ∅ (model_proto d !! component_name))]>
                          (model_proto d) |}]> fs.
Proof.
  unfold update_component_meta.
  destruct (fs !! (model_path self)) as [n|] eqn:Hex; cycle 1.
  { by rewrite local_cache_required_missing. }
  rewrite local_cache_required_there by (by rewrite Hex).
  unfold bind, read_define_meta, ret.
  destruct (fs !! (define_meta_path self)) as [[| |d]|] eqn:Hmeta; try done.
  case_decide as Hne.
  - intros [= <-]. exists d. split_and!; [by eexists|done..].
  - intros [= <-]. exists d. split_and!; [by eexists|done|].
    rewrite Hne. by rewrite insert_id.
Qed.

Lemma update_component_meta_succeeds (self : PipelinedModel) (fs : filesystem)
    (d : define_index)
    (component_name component_module_name model_alias : string)
    (model_proto_index : gmap string string) :
  is_Some (fs !! (model_path self)) →
  fs !! (define_meta_path self) = Some (Yaml d) →
  ∃ fs', update_component_meta self component_name component_module_name
           model_alias model_proto_index fs = (Ok tt, fs').
Proof.
  intros Hex Hmeta. unfold update_component_meta.
  rewrite local_cache_required_there by done.
  unfold bind, read_define_meta, ret. rewrite Hmeta.
  case_decide; by eexists.
Qed.

Lemma get_model_proto_index_at (self : PipelinedModel) (fs : filesystem)
    (d : define_index) (component_name model_alias : string) :
  is_Some (fs !! (model_path self)) →
  fs !! (define_meta_path self) = Some (Yaml d) →
  get_model_proto_index self component_name model_alias fs =
    (Ok (default ∅ (default ∅ (model_proto d !! component_name) !! model_alias)),
     fs).
Proof.
  intros Hex Hmeta. unfold get_model_proto_index.
  rewrite local_cache_required_there by done.
  unfold bind, read_define_meta, ret. by rewrite Hmeta.
Qed.

Lemma get_component_define_at (self : PipelinedModel) (fs : filesystem)
    (d : define_index) (which : option string) :
  is_Some (fs !! (model_path self)) →
  fs !! (define_meta_path self) = Some (Yaml d) →
  get_component_define self which fs =
    (Ok match which with
        | Some c => inl (default ∅ (component_define d !! c))
        | None => inr (component_define d)
        end, fs).
Proof.
  intros Hex Hmeta. unfold get_component_define.
  rewrite local_cache_required_there by done.
  unfold bind, read_define_meta, ret. rewrite Hmeta. by destruct which.
Qed.

(** X13. What [update_component_meta] has written is what
    [get_model_proto_index] and [get_component_define] return next: for
    the component and alias updated, the new index over the old one (a
    name in both gets its new class), and the old definition with the new
    module name; for every other component or alias, what they returned
    before. No file but the meta file is touched. *)
Theorem update_component_meta_then_get (self : PipelinedModel)
    (fs fs' : filesystem)
    (component_name component_module_name model_alias : string)
    (model_proto_index : gmap string string) :
  update_component_meta self component_name component_module_name model_alias
    model_proto_index fs = (Ok tt, fs') →
  ∃ old_index old_define,
    get_model_proto_index self component_name model_alias fs
      = (Ok old_index, fs) ∧
    get_component_define self (Some component_name) fs
      = (Ok (inl old_define), fs) ∧
    get_model_proto_index self component_name model_alias fs'
      = (Ok (model_proto_index ∪ old_index), fs') ∧
    get_component_define self (Some component_name) fs'
      = (Ok (inl (<["module_name" := component_module_name]> old_define)), fs') ∧
    (∀ c a : string, (c, a) ≠ (component_name, model_alias) →
       (get_model_proto_index self c a fs').1
       = (get_model_proto_index self c a fs).1) ∧
    (∀ c : string, c ≠ component_name →
       (get_component_define self (Some c) fs').1
       = (get_component_define self (Some c) fs).1) ∧
    (∀ p : path, p ≠ define_meta_path self → fs' !! p = fs !! p).
Proof.
  intros (d & Hex & Hmeta & ->)%update_component_meta_ok.
  assert (Hex' : ∀ n, is_Some (<[define_meta_path self := n]> fs
                                 !! (model_path self))).
  { intros n. rewrite lookup_insert_ne by apply define_meta_path_ne. done. }
  eexists _, _. split_and!.
  - by apply (get_model_proto_index_at _ _ d).
  - by apply (get_component_define_at _ _ d (Some component_name)).
  - erewrite get_model_proto_index_at;
      [|apply Hex'|apply lookup_insert_eq]. simpl.
    rewrite lookup_insert_eq. simpl. by rewrite lookup_insert_eq.
  - erewrite (get_component_define_at _ _ _ (Some component_name));
      [|apply Hex'|apply lookup_insert_eq]. simpl.
    by rewrite lookup_insert_eq.
  - intros c a Hne.
    erewrite get_model_proto_index_at;
      [|apply Hex'|apply lookup_insert_eq].
    erewrite (get_model_proto_index_at _ fs); [|done..]. simpl. f_equal.
    destruct (decide (c = component_name)) as [->|Hc].
    + rewrite lookup_insert_eq. simpl.
      rewrite lookup_insert_ne by congruence. done.
    + by rewrite lookup_insert_ne.
  - intros c Hne.
    erewrite (get_component_define_at _ _ _ (Some c));
      [|apply Hex'|apply lookup_insert_eq].
    erewrite (get_component_define_at _ fs _ (Some c)); [|done..]. simpl.
    by rewrite lookup_insert_ne.
  - intros p Hp. by rewrite lookup_insert_ne.
Qed.

(** X14. [update_component_meta] twice is [update_component_meta]
    once: a second call with the same arguments succeeds and leaves the
    file system as the first left it. *)
Theorem update_component_meta_idempotent (self : PipelinedModel)
    (fs fs' : filesystem)
    (component_name component_module_name model_alias : string)
    (model_proto_index : gmap string string) :
  update_component_meta self component_name component_module_name model_alias
    model_proto_index fs = (Ok tt, fs') →
  update_component_meta self component_name component_module_name model_alias
    model_proto_index fs' = (Ok tt, fs').
Proof.
  intros (d & Hex & Hmeta & ->)%update_component_meta_ok.
  unfold update_component_meta.
  rewrite local_cache_required_there
    by (rewrite lookup_insert_ne by apply define_meta_path_ne; done).
  unfold bind, read_define_meta, ret. rewrite lookup_insert_eq. simpl.
  rewrite !lookup_insert_eq. simpl. rewrite !lookup_insert_eq. simpl.
  rewrite !insert_insert_eq.
  rewrite (assoc_L (∪)), (idemp_L (∪)).
  rewrite decide_False; [done|]. intros Hne. by apply Hne.
Qed.

End PipelinedModel_cache.

Section PipelinedModel_save.
Import PipelinedModel.
Context `{Runtime} `{Protobuf} `{Library}.

Lemma dirname_app (dir : path) (name : string) :
  take (length (dir ++ [name]) - 1) (dir ++ [name]) = dir.
Proof.
  rewrite length_app. simpl.
  replace (length dir + 1 - 1)%nat with (length dir) by lia.
  by rewrite take_app_length.
Qed.

Lemma os_makedirs_there (p : path) (fs : filesystem) :
  fs !! p = Some Dir → os_makedirs p true fs = (Ok tt, fs).
Proof. intros Hp. unfold os_makedirs. by rewrite Hp. Qed.

Lemma foldr_insert_dir (l : list path) (fs : filesystem) (q : path) :
  foldr (λ a fs, <[a := Dir]> fs) fs l !! q =
    if bool_decide (q ∈ l) then Some Dir else fs !! q.
Proof.
  induction l as [|a l IH]; cbn [foldr].
  { rewrite bool_decide_false; [done|]. apply not_elem_of_nil. }
  destruct (decide (q = a)) as [->|Hne].
  - rewrite lookup_insert_eq. rewrite bool_decide_true; [done|]. by left.
  - rewrite lookup_insert_ne by done. rewrite IH.
    destruct (decide (q ∈ l)) as [Hin|Hnin].
    + rewrite !bool_decide_true; [done| |done]. by right.
    + rewrite !bool_decide_false; [done| |done].
      by intros [?|?]%elem_of_cons.
Qed.

(** [os.makedirs] where nothing is in the way. *)
Lemma os_makedirs_fresh (p : path) (exist_ok : bool) (fs : filesystem) :
  fs !! p = None →
  (∀ a, a ∈ ancestors p → fs !! a = None ∨ fs !! a = Some Dir) →
  os_makedirs p exist_ok fs =
    (Ok tt, foldr (λ a fs, <[a := Dir]> fs) fs (p :: ancestors p)).
Proof.
  intros Hp Hanc. unfold os_makedirs. rewrite Hp.
  destruct (forallb _ (ancestors p)) eqn:Hall; [done|].
  apply not_true_iff_false in Hall. exfalso. apply Hall.
  apply forallb_forall. intros a Ha%list_elem_of_In.
  by destruct (Hanc a Ha) as [->| ->].
Qed.

(** What [os.makedirs] leaves behind when it succeeds: the directory is
    there, and what was there before still is. *)
Lemma os_makedirs_ok (p : path) (exist_ok : bool) (fs fs' : filesystem) :
  os_makedirs p exist_ok fs = (Ok tt, fs') →
  fs' !! p = Some Dir ∧ (∀ q n, fs !! q = Some n → fs' !! q = Some n).
Proof.
  unfold os_makedirs.
  destruct (fs !! p) as [[| |]|] eqn:Hp; try done.
  { destruct exist_ok; [|done]. by intros [= <-]. }
  destruct (forallb _ (ancestors p)) eqn:Hall; [|done].
  intros [= <-]. split.
  { apply lookup_insert_eq. }
  intros q n Hq. rewrite lookup_insert_ne by congruence.
  rewrite foldr_insert_dir. case_bool_decide as Hin; [|done].
  rewrite forallb_forall in Hall.
  specialize (Hall q ltac:(by apply list_elem_of_In)). rewrite Hq in Hall.
  by destruct n.
Qed.

Lemma write_bytes_into (dir : path) (name : string) (c : bytes)
    (fs : filesystem) :
  fs !! dir = Some Dir → fs !! (dir ++ [name]) ≠ Some Dir →
  write_bytes (dir ++ [name]) c fs = (Ok tt, <[dir ++ [name] := File c]> fs).
Proof.
  intros Hdir Hfile. unfold write_bytes. rewrite dirname_app, Hdir.
  by destruct (fs !! (dir ++ [name])) as [[| |]|].
Qed.

Lemma storage_path_ne_dir (dir : path) (name : string) : dir ++ [name] ≠ dir.
Proof. by apply app_ne_self. Qed.

(** The index that the loop builds when it writes to the cache. *)
Lemma save_buffers_index (self : PipelinedModel) (dir : path)
    (bufs : list (string * message))
    (acc r : gmap string string * list (string * string))
    (fs fs' : filesystem) :
  save_buffers self dir false bufs acc fs = (Ok r, fs') →
  r = (proto_index_of bufs acc.1, acc.2).
Proof.
  revert acc fs. induction bufs as [|[n b] bufs IH]; intros acc fs; simpl.
  { unfold ret. intros [= <- <-]. by destruct acc. }
  unfold bind at 1 2.
  destruct (write_bytes _ _ fs) as [[[]|e] fs1]; [|done].
  unfold ret at 1. intros Hrest. by apply IH in Hrest as ->.
Qed.

Lemma proto_index_of_other (bufs : list (string * message))
    (index : gmap string string) (name : string) :
  name ∉ bufs.*1 → proto_index_of bufs index !! name = index !! name.
Proof.
  revert index. induction bufs as [|[n b] bufs IH]; intros index Hn; [done|].
  apply not_elem_of_cons in Hn as [Hne Hn].
  change (proto_index_of ((n, b) :: bufs) index)
    with (proto_index_of bufs (<[n := class_name (type_of b)]> index)).
  rewrite IH by done. by apply lookup_insert_ne.
Qed.

Lemma proto_index_of_elem (bufs : list (string * message))
    (index : gmap string string) (name : string) (buf : message) :
  NoDup bufs.*1 → (name, buf) ∈ bufs →
  proto_index_of bufs index !! name = Some (class_name (type_of buf)).
Proof.
  revert index. induction bufs as [|[n b] bufs IH]; intros index Hnd Hin.
  { by apply elem_of_nil in Hin. }
  apply NoDup_cons in Hnd as [Hnotin Hnd].
  change (proto_index_of ((n, b) :: bufs) index)
    with (proto_index_of bufs (<[n := class_name (type_of b)]> index)).
  apply elem_of_cons in Hin as [[= -> ->]|Hin].
  - rewrite proto_index_of_other by done. apply lookup_insert_eq.
  - by apply IH.
Qed.

(** *** The dictionary handed to a tracker client *)

Lemma elem_of_dict_set {A} (k : string) (v : A) (d : list (string * A))
    (k' : string) (v' : A) :
  (k', v') ∈ dict_set k v d → (k' = k ∧ v' = v) ∨ (k', v') ∈ d.
Proof.
  induction d as [|[k0 v0] d IH]; simpl.
  { intros [= -> ->]%list_elem_of_singleton. by left. }
  case_decide as Hk.
  - intros [[= -> ->]|Hin]%elem_of_cons; [by left|]. right. by right.
  - intros [[= -> ->]|Hin]%elem_of_cons; [right; by left|].
    destruct (IH Hin) as [?|?]; [by left|]. right. by right.
Qed.

Lemma dict_set_keys {A} (k : string) (v : A) (d : list (string * A)) :
  (dict_set k v d).*1 = if decide (k ∈ d.*1) then d.*1 else d.*1 ++ [k].
Proof.
  induction d as [|[k0 v0] d IH].
  { cbn [dict_set fmap list_fmap fst].
    destruct (decide (k ∈ [])) as [?%elem_of_nil|]; done. }
  cbn [dict_set]. destruct (decide (k0 = k)) as [->|Hk].
  - cbn [fmap list_fmap fst].
    destruct (decide (k ∈ k :: d.*1)) as [|Hn]; [done|].
    exfalso. apply Hn. by left.
  - rewrite fmap_cons, IH. cbn [fmap list_fmap fst].
    destruct (decide (k ∈ d.*1)), (decide (k ∈ k0 :: d.*1)) as [Hin|Hnin];
      try done.
    + exfalso. apply Hnin. by right.
    + apply elem_of_cons in Hin as [->|?]; done.
Qed.

Lemma dict_set_fresh {A} (k : string) (v : A) (d : list (string * A)) :
  k ∉ d.*1 → dict_set k v d = d ++ [(k, v)].
Proof.
  induction d as [|[k0 v0] d IH]; simpl; [done|].
  intros [Hne Hnin]%not_elem_of_cons.
  rewrite decide_False by done. by rewrite IH.
Qed.

Lemma dict_set_NoDup {A} (k : string) (v : A) (d : list (string * A)) :
  NoDup d.*1 → NoDup (dict_set k v d).*1.
Proof.
  intros Hnd. rewrite dict_set_keys. case_decide as Hin; [done|].
  apply NoDup_app. split; [done|]. split; [|apply NoDup_singleton].
  intros x Hx ->%list_elem_of_singleton. done.
Qed.

(** The loop of [save_component_model] for a tracker client. *)
Lemma save_buffers_tracker (self : PipelinedModel) (dir : path)
    (bufs : list (string * message))
    (acc : gmap string string * list (string * string)) (fs : filesystem) :
  save_buffers self dir true bufs acc fs =
    (Ok (proto_index_of bufs acc.1,
         foldl (λ d '(n, b),
                  dict_set (str_replace (path_str (dir ++ [n]))
                              (path_str (project_base_directory self)) "")
                    (b64encode (serialized_or_fill b)) d)
               acc.2 bufs), fs).
Proof.
  revert acc. induction bufs as [|[n b] bufs IH]; intros acc; simpl.
  { by destruct acc. }
  unfold bind at 1, ret at 1. by rewrite IH.
Qed.

Lemma foldl_dict_set {A B} (key : A → string) (val : B → string)
    (bufs : list (A * B)) (d : list (string * string)) :
  let d' := foldl (λ d '(n, b), dict_set (key n) (val b) d) d bufs in
  (∀ k v, (k, v) ∈ d' →
     (k, v) ∈ d ∨ ∃ n b, (n, b) ∈ bufs ∧ k = key n ∧ v = val b) ∧
  (∀ k, k ∈ d.*1 ∨ k ∈ key <$> bufs.*1 → k ∈ d'.*1) ∧
  (NoDup d.*1 → NoDup d'.*1) ∧
  (NoDup (d.*1 ++ (key <$> bufs.*1)) →
   d' = d ++ ((λ '(n, b), (key n, val b)) <$> bufs)).
Proof.
  revert d. induction bufs as [|[n b] bufs IH]; intros d; simpl.
  { split_and!; try done.
    - intros k v ?. by left.
    - intros k [?|?%elem_of_nil]; done.
    - intros _. by rewrite app_nil_r. }
  destruct (IH (dict_set (key n) (val b) d)) as (Hitems & Hkeys & Hnd & Heq).
  split_and!.
  - intros k v Hin. destruct (Hitems k v Hin) as [Hd|(n' & b' & ? & ? & ?)].
    + apply elem_of_dict_set in Hd as [[-> ->]|Hd]; [|by left].
      right. exists n, b. split; [by left|done].
    + right. exists n', b'. split; [by right|done].
  - intros k Hk. apply Hkeys. rewrite dict_set_keys.
    destruct Hk as [Hk|[->|Hk]%elem_of_cons].
    + left. case_decide; [done|]. apply elem_of_app. by left.
    + left. case_decide; [done|]. apply elem_of_app. right. by left.
    + by right.
  - intros Hd. apply Hnd. by apply dict_set_NoDup.
  - intros Hd. apply NoDup_app in Hd as (Hd1 & Hd2 & Hd3).
    apply NoDup_cons in Hd3 as [Hn Hd3].
    assert (Hfresh : key n ∉ d.*1).
    { intros Hin. apply (Hd2 _ Hin). by left. }
    rewrite Heq.
    + rewrite dict_set_fresh by done. by rewrite <- app_assoc.
    + rewrite dict_set_keys, decide_False by done.
      rewrite <- app_assoc. apply NoDup_app. split; [done|]. split.
      * intros x Hx Hx'. apply (Hd2 x Hx). done.
      * by apply NoDup_cons.
Qed.

(** X15. With a tracker client [save_component_model] cannot fail and
    does not touch the file system. For names that [os.path.join] takes
    as one component each, the client is handed the names it was called
    with, the index of class names, and a dictionary of buffers. The
    key of a buffer is its storage path with every occurrence of the
    project base directory left out, as [str.replace] does it; its value
    is the base64 of the bytes that would have been written (the fill
    bytes for an empty serialization). Every buffer has its key in the
    dictionary, every item of the dictionary stems from a buffer, and no
    key is there twice; when the keys of the buffers differ from each
    other, the dictionary holds one item for each buffer, in order. *)
Theorem save_component_model_for_tracker (self : PipelinedModel)
    (component_name component_module_name model_alias : string)
    (model_buffers : list (string * message)) (fs : filesystem) :
  plain_name component_name = true → plain_name model_alias = true →
  Forall (λ model_name, plain_name model_name = true) model_buffers.*1 →
  let key model_name :=
    str_replace
      (path_str (variables_data_path self ++
                   [component_name; model_alias; model_name]))
      (path_str (project_base_directory self)) "" in
  ∃ buffer,
    save_component_model self component_name component_module_name model_alias
      model_buffers true fs =
    (Ok (Some {| cm_buffer := buffer;
                 cm_component_name := component_name;
                 cm_component_module_name := component_module_name;
                 cm_model_alias := model_alias;
                 cm_model_proto_index := proto_index_of model_buffers ∅ |}),
     fs) ∧
    (∀ model_name, model_name ∈ model_buffers.*1 → key model_name ∈ buffer.*1) ∧
    (∀ k v, (k, v) ∈ buffer →
       ∃ model_name buffer_object,
         (model_name, buffer_object) ∈ model_buffers ∧ k = key model_name ∧
         v = b64encode (serialized_or_fill buffer_object)) ∧
    NoDup buffer.*1 ∧
    (NoDup (key <$> model_buffers.*1) →
     buffer = (λ '(model_name, buffer_object),
                 (key model_name, b64encode (serialized_or_fill buffer_object)))
              <$> model_buffers).
Proof.
  intros _ _ _ key.
  unfold save_component_model, bind at 1, ret at 1.
  unfold bind at 1. rewrite save_buffers_tracker. unfold ret. simpl.
  eexists. split; [reflexivity|].
  assert (Hsame : ∀ d0,
    foldl (λ d '(n, b),
             dict_set (str_replace
                         (path_str ((variables_data_path self ++
                                       [component_name; model_alias]) ++ [n]))
                         (path_str (project_base_directory self)) "")
               (b64encode (serialized_or_fill b)) d) d0 model_buffers
    = foldl (λ d '(n, b),
               dict_set (key n) (b64encode (serialized_or_fill b)) d)
        d0 model_buffers).
  { induction model_buffers as [|[n b] l IHl]; intros d0; [done|].
    simpl. rewrite IHl. unfold key. by rewrite <- (assoc_L (++)). }
  rewrite Hsame.
  pose proof (foldl_dict_set key (λ b, b64encode (serialized_or_fill b))
                model_buffers []) as Hfold.
  cbv zeta in Hfold.
  destruct Hfold as (Hitems & Hkeys & Hnd & Heq). split_and!.
  - intros n Hn. apply Hkeys. right. by apply list_elem_of_fmap_2.
  - intros k v Hin. destruct (Hitems k v Hin) as [?%elem_of_nil|?]; done.
  - apply Hnd. constructor.
  - intros Hd. by rewrite Heq.
Qed.

Lemma elem_of_ancestors (p a : path) :
  a ∈ ancestors p ↔ a `prefix_of` p ∧ a ≠ p ∧ a ≠ [].
Proof.
  unfold ancestors. rewrite list_elem_of_fmap. split.
  - intros (n & -> & Hn%elem_of_seq). split_and!.
    + apply prefix_take.
    + intros Heq. apply (f_equal length) in Heq.
      rewrite length_take in Heq. lia.
    + intros Heq. apply (f_equal length) in Heq.
      rewrite length_take in Heq. simpl in Heq. lia.
  - intros ([k ->] & Hne & Hnil). exists (length a). split.
    + by rewrite take_app_length.
    + apply elem_of_seq. rewrite length_app.
      destruct a; [done|]. destruct k; [by rewrite app_nil_r in Hne|].
      simpl. lia.
Qed.

Lemma save_buffers_succeeds (self : PipelinedModel) (dir : path)
    (bufs : list (string * message))
    (acc : gmap string string * list (string * string)) (fs : filesystem) :
  fs !! dir = Some Dir →
  (∀ name, name ∈ bufs.*1 → fs !! (dir ++ [name]) ≠ Some Dir) →
  ∃ r fs', save_buffers self dir false bufs acc fs = (Ok r, fs').
Proof.
  revert acc fs. induction bufs as [|[n b] bufs IH]; intros acc fs Hdir Hfiles.
  { simpl. unfold ret. by eauto. }
  simpl. unfold bind at 1 2.
  rewrite write_bytes_into; [|done|apply Hfiles; by left].
  unfold ret at 1. apply IH.
  - rewrite lookup_insert_ne; [done|]. apply storage_path_ne_dir.
  - intros name Hin. destruct (decide (name = n)) as [->|Hne].
    + by rewrite lookup_insert_eq.
    + rewrite lookup_insert_ne.
      * apply Hfiles. by right.
      * intros Heq. apply app_inv_head in Heq. congruence.
Qed.


Lemma read_buffers_ok (dir : path) (parse : bool)
    (index : list (string * string))
    (entry : string → message + string * string) (fs : filesystem) :
  (∀ name cls, (name, cls) ∈ index →
     ∃ content, fs !! (dir ++ [name]) = Some (File content) ∧
       if parse then
         ∃ m, parse_proto_object cls content = Ok m ∧ entry name = inl m
       else entry name = inr (cls, b64encode content)) →
  read_buffers dir parse index fs =
    (Ok ((λ '(name, _), (name, entry name)) <$> index), fs).
Proof.
  induction index as [|[name cls] index IH]; intros Hall; [done|].
  cbn [read_buffers fmap list_fmap].
  destruct (Hall name cls ltac:(by left)) as (content & Hfile & Hentry).
  unfold bind at 1, read_bytes at 1. rewrite Hfile.
  unfold bind at 1. destruct parse.
  - destruct Hentry as (m & -> & ->). unfold ret at 1.
    unfold bind at 1. rewrite IH; [done|].
    intros n c Hin. apply Hall. by right.
  - rewrite Hentry. unfold ret at 1.
    unfold bind at 1. rewrite IH; [done|].
    intros n c Hin. apply Hall. by right.
Qed.

(** On a cache with its meta file, and with nothing yet below the
    directory of the variables, [save_component_model] succeeds. *)
Lemma save_component_model_succeeds (self : PipelinedModel)
    (component_name component_module_name model_alias : string)
    (model_buffers : list (string * message)) (fs : filesystem)
    (d : define_index) :
  NoDup model_buffers.*1 →
  fs !! (model_path self) = Some Dir →
  fs !! (define_meta_path self) = Some (Yaml d) →
  (∀ p, p `prefix_of` variables_data_path self →
        fs !! p = None ∨ fs !! p = Some Dir) →
  (∀ p, variables_data_path self `prefix_of` p →
        p ≠ variables_data_path self → fs !! p = None) →
  ∃ fs',
    save_component_model self component_name component_module_name model_alias
      model_buffers false fs = (Ok None, fs').
Proof.
  intros Hnd Hmp Hmeta Habove Hbelow. unfold save_component_model.
  set (dir := variables_data_path self ++ [component_name; model_alias]).
  assert (Hvdp : variables_data_path self `prefix_of` dir)
    by (by apply prefix_app_r).
  assert (Hdir_ne : ∀ l : list string, l ≠ [] →
            variables_data_path self ++ l ≠ variables_data_path self)
    by (intros l Hl; by apply app_ne_self).
  assert (Hmk : os_makedirs dir true fs =
            (Ok tt, foldr (λ a fs, <[a := Dir]> fs) fs (dir :: ancestors dir))).
  { apply os_makedirs_fresh; [apply Hbelow; [done|by apply Hdir_ne]|].
    intros a (Hpre & _ & _)%elem_of_ancestors.
    destruct (prefix_weak_total _ _ _ Hpre Hvdp) as [Ha|Ha];
      [by apply Habove|].
    destruct (decide (a = variables_data_path self)) as [->|Hne];
      [by apply Habove|left; by apply Hbelow]. }
  destruct (os_makedirs_ok _ _ _ _ Hmk) as [Hdir0 Hkeep0].
  set (fs0 := foldr (λ a fs, <[a := Dir]> fs) fs (dir :: ancestors dir)) in *.
  destruct (save_buffers_succeeds self dir model_buffers (∅, []) fs0 Hdir0)
    as (r & fs1 & Hs).
  { intros name _. unfold fs0. rewrite foldr_insert_dir, bool_decide_false.
    - rewrite Hbelow; [done| |].
      + unfold dir. rewrite <- (assoc_L (++)). by apply prefix_app_r.
      + unfold dir. rewrite <- (assoc_L (++)). by apply Hdir_ne.
    - intros [Heq|(Hpre & _)%elem_of_ancestors]%elem_of_cons.
      + by apply storage_path_ne_dir in Heq.
      + apply prefix_length in Hpre. rewrite length_app in Hpre.
        simpl in Hpre. lia. }
  destruct (save_buffers_ok _ _ _ _ _ _ _ Hnd Hs) as [_ Hframe].
  assert (Hother : ∀ q l, q = model_path self ++ l →
            (∀ x l', l ≠ "variables" :: x :: l') →
            ∀ name, name ∈ model_buffers.*1 → q ≠ dir ++ [name]).
  { intros q l -> Hl name _. unfold dir, variables_data_path.
    rewrite <- !(assoc_L (++)). intros Heq%app_inv_head. simpl in Heq.
    exact (Hl _ _ Heq). }
  destruct (update_component_meta_succeeds self fs1 d component_name
              component_module_name model_alias r.1) as [fs2 Hup].
  { rewrite Hframe; [rewrite (Hkeep0 _ _ Hmp); by eexists|].
    apply (Hother _ []); [by rewrite app_nil_r|done]. }
  { rewrite Hframe; [by apply Hkeep0|].
    apply (Hother _ ["define"; "define_meta.yaml"]); done. }
  exists fs2. unfold bind. by rewrite Hmk, Hs, Hup.
Qed.

(** X18. What is saved is read back. For names that [os.path.join]
    takes as one component each: after a first [save_component_model]
    under a component and alias, [read_component_model] returns one entry
    for each buffer saved, under its model name. Without parsing, the entry is the name of the
    buffer's class and the base64 of the bytes stored, the fill bytes
    for an empty serialization. With parsing it is the buffer itself,
    provided that its serialization is not empty, that its class is
    found under its name among the generated modules, and that the class
    parses what it serializes. *)
Theorem save_then_read_component_model (self : PipelinedModel)
    (component_name component_module_name model_alias : string)
    (model_buffers : list (string * message)) (parse : bool)
    (fs fs' : filesystem) (r : option component_model) :
  plain_name component_name = true → plain_name model_alias = true →
  Forall (λ model_name, plain_name model_name = true) model_buffers.*1 →
  NoDup model_buffers.*1 →
  get_model_proto_index self component_name model_alias fs = (Ok ∅, fs) →
  (parse = true → ∀ name buf, (name, buf) ∈ model_buffers →
     SerializeToString buf ≠ [] ∧
     get_proto_buffer_class (class_name (type_of buf)) = Some (type_of buf) ∧
     ParseFromString (type_of buf) (SerializeToString buf) = Some buf) →
  save_component_model self component_name component_module_name model_alias
    model_buffers false fs = (Ok r, fs') →
  ∃ l,
    read_component_model self component_name model_alias parse fs'
      = (Ok l, fs') ∧
    l.*1 ≡ₚ model_buffers.*1 ∧
    ∀ name buf, (name, buf) ∈ model_buffers → (name, read_back parse buf) ∈ l.
Proof.
  intros _ _ _ Hnd Hfirst Hparse. unfold save_component_model.
  set (dir := variables_data_path self ++ [component_name; model_alias]).
  unfold bind at 1.
  destruct (os_makedirs dir true fs) as [[[]|e] fs0] eqn:Hmk; [|done].
  apply os_makedirs_ok in Hmk as [_ Hkeep0].
  unfold bind at 1.
  destruct (save_buffers self dir false model_buffers (∅, []) fs0)
    as [[r1|e] fs1] eqn:Hs; [|done].
  destruct (save_buffers_ok _ _ _ _ _ _ _ Hnd Hs) as [Hin Hframe].
  apply save_buffers_index in Hs as ->. simpl.
  unfold bind at 1.
  destruct (update_component_meta _ _ _ _ _ fs1) as [[[]|e] fs2] eqn:Hup;
    [|done].
  unfold ret. intros [= <- <-].
  apply update_component_meta_ok in Hup as (d & Hex1 & Hmeta1 & ->).
  (* the meta file that the save found is the one of [fs] *)
  assert (Hd : default ∅ (default ∅ (model_proto d !! component_name)
                            !! model_alias) = ∅).
  { revert Hfirst. unfold get_model_proto_index, local_cache_required, bind,
      exists_, os_path_exists, read_define_meta, raise, ret.
    destruct (bool_decide _); [|done].
    destruct (fs !! (define_meta_path self)) as [[| |d0]|] eqn:Hmeta; try done.
    intros [= Hd0].
    assert (fs1 !! (define_meta_path self) = Some (Yaml d0)) as Hmeta1'.
    { rewrite Hframe; [by apply Hkeep0|].
      intros name _. unfold define_meta_path, dir, variables_data_path.
      rewrite <- !(assoc_L (++)). intros Heq%app_inv_head. discriminate. }
    rewrite Hmeta1 in Hmeta1'. by injection Hmeta1' as ->. }
  set (index := proto_index_of model_buffers ∅) in *.
  set (bufmap := list_to_map model_buffers : gmap string message).
  set (entry := λ name, match bufmap !! name with
                        | Some buf => read_back parse buf
                        | None => inr ("", "")
                        end).
  assert (Hidx : ∀ name cls, index !! name = Some cls →
            ∃ buf, (name, buf) ∈ model_buffers ∧ cls = class_name (type_of buf)).
  { intros name cls Hl. destruct (decide (name ∈ model_buffers.*1)) as [Hn|Hn].
    - apply list_elem_of_fmap in Hn as ([n buf] & -> & Hel). exists buf.
      split; [done|]. unfold index in Hl.
      rewrite (proto_index_of_elem _ _ _ _ Hnd Hel) in Hl. congruence.
    - unfold index in Hl. by rewrite proto_index_of_other in Hl. }
  assert (Hentry : ∀ name buf, (name, buf) ∈ model_buffers →
            entry name = read_back parse buf).
  { intros name buf Hel. unfold entry, bufmap.
    by rewrite (elem_of_list_to_map_1 _ _ _ Hnd Hel). }
  exists ((λ '(name, _), (name, entry name)) <$> map_to_list index).
  split_and!.
  - unfold read_component_model, bind at 1.
    erewrite get_model_proto_index_at; cycle 1.
    { rewrite lookup_insert_ne by apply define_meta_path_ne. done. }
    { apply lookup_insert_eq. }
    simpl. rewrite lookup_insert_eq. simpl. rewrite lookup_insert_eq. simpl.
    rewrite Hd, (right_id_L ∅ (∪)). fold dir.
    apply read_buffers_ok. intros name cls Hel%elem_of_map_to_list.
    destruct (Hidx name cls Hel) as (buf & Hbuf & ->).
    exists (serialized_or_fill buf). split.
    + rewrite lookup_insert_ne.
      * by apply Hin.
      * unfold define_meta_path, dir, variables_data_path.
        rewrite <- !(assoc_L (++)). intros Heq%app_inv_head. discriminate.
    + rewrite (Hentry _ _ Hbuf). unfold read_back. destruct parse; [|done].
      destruct (Hparse eq_refl name buf Hbuf) as (Hne & Hcls & Hp).
      exists buf. split; [|done].
      unfold parse_proto_object.
      by rewrite Hcls, serialized_or_fill_nonempty, Hp.
  - rewrite <- list_fmap_compose.
    apply NoDup_Permutation.
    + rewrite (list_fmap_ext _ fst (map_to_list index));
        [apply NoDup_fst_map_to_list|by intros ? [? ?]].
    + done.
    + intros name. rewrite !list_elem_of_fmap. split.
      * intros ([n cls] & -> & Hel%elem_of_map_to_list).
        destruct (Hidx n cls Hel) as (buf & Hbuf & _). by exists (n, buf).
      * intros ([n buf] & -> & Hel). exists (n, class_name (type_of buf)).
        split; [done|]. apply elem_of_map_to_list.
        by apply proto_index_of_elem.
  - intros name buf Hel. apply list_elem_of_fmap.
    exists (name, class_name (type_of buf)). split.
    + by rewrite (Hentry _ _ Hel).
    + apply elem_of_map_to_list. by apply proto_index_of_elem.
Qed.

End PipelinedModel_save.

Section PipelinedModel_classes.
Import PipelinedModel.
Context `{Runtime} `{Protobuf}.

Lemma get_proto_buffer_class_from_Some (files : list string)
    (buffer_name : string) (cls : pb_class) :
  get_proto_buffer_class_from files buffer_name = Some cls →
  ∃ f members,
    f ∈ files ∧ startswith_dot f = false ∧
    import_module ("federatedml.protobuf.generated." +:+
                   rstrip f ["."; "p"; "y"]%char) = Some members ∧
    (buffer_name, Some cls) ∈ members.
Proof.
  induction files as [|f files IH]; [done|]. cbn [get_proto_buffer_class_from].
  assert (Hrest : get_proto_buffer_class_from files buffer_name = Some cls →
    ∃ f0 members,
      f0 ∈ f :: files ∧ startswith_dot f0 = false ∧
      import_module ("federatedml.protobuf.generated." +:+
                     rstrip f0 ["."; "p"; "y"]%char) = Some members ∧
      (buffer_name, Some cls) ∈ members).
  { intros (f0 & members & ? & ? & ? & ?)%IH. exists f0, members.
    split_and!; try done. by right. }
  destruct (startswith_dot f) eqn:Hdot; [done|].
  destruct (import_module _) as [members|] eqn:Himp; [|done].
  destruct (list_find _ members) as [[i [name [c|]]]|] eqn:Hfind; try done.
  intros [= ->]. apply list_find_Some in Hfind as (Hi & [_ ->] & _).
  exists f, members. split_and!; try done; [by left|].
  by eapply list_elem_of_lookup_2.
Qed.

Lemma get_proto_buffer_class_from_None (files : list string)
    (buffer_name : string) :
  get_proto_buffer_class_from files buffer_name = None →
  ∀ f members cls,
    f ∈ files → startswith_dot f = false →
    import_module ("federatedml.protobuf.generated." +:+
                   rstrip f ["."; "p"; "y"]%char) = Some members →
    (buffer_name, Some cls) ∉ members.
Proof.
  induction files as [|f files IH]; intros Hnone f0 members cls Hin.
  { by apply elem_of_nil in Hin. }
  cbn [get_proto_buffer_class_from] in Hnone.
  apply elem_of_cons in Hin as [->|Hin].
  - intros Hdot Himp. rewrite Hdot, Himp in Hnone.
    destruct (list_find _ members) as [[i [name [c|]]]|] eqn:Hfind; [done| |].
    + apply list_find_Some in Hfind as (_ & [[? [=]] _] & _).
    + apply list_find_None in Hfind. intros Hel.
      rewrite Forall_forall in Hfind. apply (Hfind _ Hel). by split.
  - apply IH; [|done].
    destruct (startswith_dot f); [done|].
    destruct (import_module _) as [members'|]; [|done].
    by destruct (list_find _ members') as [[i [name [c|]]]|].
Qed.

(** X19. [get_proto_buffer_class] returns a class exactly when some
    file of the generated package that is not hidden imports as a module
    with a class member of the name asked for, and the class returned is
    such a member; otherwise it returns [None]. A module that fails to
    import and a member that is not a class are passed over. *)
Theorem get_proto_buffer_class_finds (buffer_name : string) :
  (∀ cls, get_proto_buffer_class buffer_name = Some cls →
     ∃ f members,
       f ∈ listdir_generated ∧ startswith_dot f = false ∧
       import_module ("federatedml.protobuf.generated." +:+
                      rstrip f ["."; "p"; "y"]%char) = Some members ∧
       (buffer_name, Some cls) ∈ members) ∧
  (get_proto_buffer_class buffer_name = None ↔
     ∀ f members cls,
       f ∈ listdir_generated → startswith_dot f = false →
       import_module ("federatedml.protobuf.generated." +:+
                      rstrip f ["."; "p"; "y"]%char) = Some members →
       (buffer_name, Some cls) ∉ members).
Proof.
  split; [intros cls; apply get_proto_buffer_class_from_Some|].
  split; [apply get_proto_buffer_class_from_None|].
  intros Hnone.
  destruct (get_proto_buffer_class buffer_name) as [cls|] eqn:Hget; [|done].
  apply get_proto_buffer_class_from_Some in Hget
    as (f & members & Hf & Hdot & Himp & Hel).
  by destruct (Hnone f members cls Hf Hdot Himp).
Qed.

Lemma rev_app_app (a b c : string) :
  String.rev_app (a +:+ b) c = String.rev_app b (String.rev_app a c).
Proof. revert c. induction a as [|x a IH]; intros c; [done|]. simpl. apply IH. Qed.

Lemma rev_app_rev_app (a b c : string) :
  String.rev_app (String.rev_app a b) c = String.rev_app b (a +:+ c).
Proof.
  revert b c. induction a as [|x a IH]; intros b c; [done|].
  simpl. by rewrite IH.
Qed.

(** X20. The module that [get_proto_buffer_class] imports for a file
    is named by [f.rstrip('.py')], which strips characters, not the
    extension: for a file [<stem><c>.py] it is [<stem><c>] when [c] is
    none of '.', 'p' and 'y', and otherwise what the same stripping
    leaves of [<stem>]. *)
Theorem module_name_of_generated_file (stem : string) (c : Ascii.ascii) :
  (c ∉ ["."; "p"; "y"]%char →
   rstrip (stem +:+ String c ".py") ["."; "p"; "y"]%char
   = stem +:+ String c "") ∧
  (c ∈ ["."; "p"; "y"]%char →
   rstrip (stem +:+ String c ".py") ["."; "p"; "y"]%char
   = rstrip stem ["."; "p"; "y"]%char).
Proof.
  unfold rstrip, String.rev. rewrite rev_app_app.
  cbn [String.rev_app lstrip_chars].
  rewrite !bool_decide_true by (repeat constructor).
  split; intros Hc.
  - rewrite bool_decide_false by done.
    change (String c (String.rev_app stem ""))
      with (String.rev_app (String c "") (String.rev_app stem "")).
    simpl. by rewrite rev_app_rev_app.
  - by rewrite bool_decide_true.
Qed.

End PipelinedModel_classes.

Section PipelinedModel_trees.
Import PipelinedModel.
Context `{Runtime} `{Protobuf} `{Library}.

Lemma elem_of_tree_under (root : path) (fs : filesystem) (rel : path) (n : node) :
  (rel, n) ∈ tree_under root fs ↔ rel ≠ [] ∧ fs !! (root ++ rel) = Some n.
Proof.
  unfold tree_under. rewrite list_elem_of_omap. split.
  - intros ([p n'] & Hin%elem_of_map_to_list & Hsome).
    case_bool_decide as Hp; [|done]. injection Hsome as <- <-.
    destruct Hp as [[k ->] Hne]. rewrite drop_app_length. split; [|done].
    intros ->. by rewrite app_nil_r in Hne.
  - intros [Hne Hl]. exists (root ++ rel, n). split.
    + by apply elem_of_map_to_list.
    + rewrite bool_decide_true.
      * by rewrite drop_app_length.
      * split; [by apply prefix_app_r|]. by apply app_ne_self.
Qed.

Lemma foldr_insert_tree (target : path) (l : list (path * node))
    (fs : filesystem) (rel : path) (n : node) :
  (∀ n', (rel, n') ∈ l → n' = n) → (rel, n) ∈ l →
  foldr (λ '(rel, n) fs, <[target ++ rel := n]> fs) fs l !! (target ++ rel)
  = Some n.
Proof.
  induction l as [|[r0 n0] l IH]; intros Hfun Hin.
  { by apply elem_of_nil in Hin. }
  cbn [foldr]. destruct (decide (r0 = rel)) as [->|Hne].
  - rewrite (Hfun n0) by (by left). apply lookup_insert_eq.
  - rewrite lookup_insert_ne by (by intros ?%app_inv_head).
    apply IH.
    + intros n' Hn'. apply Hfun. by right.
    + by apply elem_of_cons in Hin as [[= ? ?]|?].
Qed.

Lemma foldr_insert_tree_ne (target : path) (l : list (path * node))
    (fs : filesystem) (q : path) :
  (∀ rel n, (rel, n) ∈ l → q ≠ target ++ rel) →
  foldr (λ '(rel, n) fs, <[target ++ rel := n]> fs) fs l !! q = fs !! q.
Proof.
  induction l as [|[r0 n0] l IH]; intros Hne; [done|].
  cbn [foldr]. rewrite lookup_insert_ne.
  - apply IH. intros rel n Hin. apply (Hne rel n). by right.
  - intros Heq. by apply (Hne r0 n0); [left|].
Qed.

Lemma os_makedirs_only_dirs (p : path) (exist_ok : bool) (fs fs' : filesystem)
    (q : path) :
  os_makedirs p exist_ok fs = (Ok tt, fs') →
  fs' !! q = fs !! q ∨
  (fs' !! q = Some Dir ∧ fs !! q = None ∧ q `prefix_of` p).
Proof.
  unfold os_makedirs.
  destruct (fs !! p) as [[| |]|] eqn:Hp; try done.
  { destruct exist_ok; [|done]. intros [= <-]. by left. }
  destruct (forallb _ (ancestors p)) eqn:Hall; [|done].
  intros [= <-].
  change (<[p := Dir]> (foldr (λ a fs, <[a := Dir]> fs) fs (ancestors p)))
    with (foldr (λ a fs, <[a := Dir]> fs) fs (p :: ancestors p)).
  rewrite foldr_insert_dir. case_bool_decide as Hin; [|by left].
  apply elem_of_cons in Hin as [->|Hin].
  - right. by split_and!.
  - rewrite forallb_forall in Hall.
    specialize (Hall q ltac:(by apply list_elem_of_In)).
    apply elem_of_ancestors in Hin as (Hpre & _).
    destruct (fs !! q) as [[| |]|] eqn:Hq; try done; [by left|by right].
Qed.

(** Nothing but directories along a path and below it. *)
Lemma makedirs_below (mp p : path) (fs : filesystem) :
  (∀ q, q `prefix_of` mp ∨ mp `prefix_of` q →
        fs !! q = None ∨ fs !! q = Some Dir) →
  mp `prefix_of` p → fs !! p = None →
  ∃ fs', os_makedirs p false fs = (Ok tt, fs') ∧
    (∀ q, q `prefix_of` mp ∨ mp `prefix_of` q →
          fs' !! q = None ∨ fs' !! q = Some Dir) ∧
    fs' !! p = Some Dir ∧
    (∀ q, q ∈ ancestors p → fs' !! q = Some Dir) ∧
    (∀ q n, fs !! q = Some n → fs' !! q = Some n) ∧
    (∀ q, ¬ q `prefix_of` p → fs' !! q = fs !! q).
Proof.
  intros Hinv Hmp Hp.
  assert (Hmk : os_makedirs p false fs =
            (Ok tt, foldr (λ a fs, <[a := Dir]> fs) fs (p :: ancestors p))).
  { apply os_makedirs_fresh; [done|].
    intros a (Hpre & _ & _)%elem_of_ancestors. apply Hinv.
    destruct (prefix_weak_total _ _ _ Hpre Hmp); [by left|by right]. }
  eexists. split; [exact Hmk|]. split_and!.
  - intros q Hq.
    destruct (os_makedirs_only_dirs _ _ _ _ q Hmk) as [->|(-> & _)];
      [by apply Hinv|by right].
  - exact (proj1 (os_makedirs_ok _ _ _ _ Hmk)).
  - intros q Hq. rewrite foldr_insert_dir, bool_decide_true; [done|by right].
  - exact (proj2 (os_makedirs_ok _ _ _ _ Hmk)).
  - intros q Hq.
    by destruct (os_makedirs_only_dirs _ _ _ _ q Hmk) as [->|(_ & _ & ?)].
Qed.

Lemma prefix_snoc_inv {A} (l k : list A) (x : A) :
  l `prefix_of` k ++ [x] → l `prefix_of` k ∨ l = k ++ [x].
Proof.
  intros [k' Heq]. destruct k' as [|y k' _] using rev_ind.
  - right. by rewrite app_nil_r in Heq.
  - left. rewrite (assoc_L (++)) in Heq. apply app_inj_tail in Heq as [-> _].
    by apply prefix_app_r.
Qed.

(** The first steps of [create_pipelined_model]: the cache directory and
    the two directories for the variables. *)
Lemma create_directories (self : PipelinedModel) (fs : filesystem) :
  (∀ p, model_path self `prefix_of` p → fs !! p = None) →
  (∀ p, p `prefix_of` model_path self → fs !! p = None ∨ fs !! p = Some Dir) →
  ∃ fs3,
    (let* _ := os_makedirs (model_path self) false in
     let* _ := os_makedirs (variables_index_path self) false in
     os_makedirs (variables_data_path self) false) fs = (Ok tt, fs3) ∧
    (∀ q, q `prefix_of` model_path self ∨ model_path self `prefix_of` q →
          fs3 !! q = None ∨ fs3 !! q = Some Dir) ∧
    fs3 !! (model_path self) = Some Dir ∧
    fs3 !! (variables_data_path self) = Some Dir ∧
    (∀ q n, fs !! q = Some n → fs3 !! q = Some n) ∧
    (∀ q, ¬ q `prefix_of` variables_index_path self →
          ¬ q `prefix_of` variables_data_path self → fs3 !! q = fs !! q) ∧
    fs3 !! (variables_index_path self) = Some Dir.
Proof.
  intros Hbelow Habove.
  assert (Hinv : ∀ q, q `prefix_of` model_path self ∨ model_path self `prefix_of` q →
            fs !! q = None ∨ fs !! q = Some Dir).
  { intros q [Hq|Hq]; [by apply Habove|left; by apply Hbelow]. }
  destruct (makedirs_below (model_path self) (model_path self) fs Hinv)
    as (fs1 & Hmk1 & Hinv1 & Hmp1 & _ & Hkeep1 & Hsame1);
    [done|by apply Hbelow|].
  assert (Hlonger : ∀ a b c : string,
            ¬ model_path self ++ [a; b] `prefix_of` model_path self ++ [c]
            ∧ ¬ model_path self ++ [a; b] `prefix_of` model_path self).
  { intros a b c. split; intros Hpre%prefix_length;
      rewrite !length_app in Hpre; simpl in Hpre; lia. }
  destruct (makedirs_below (model_path self) (variables_index_path self) fs1 Hinv1)
    as (fs2 & Hmk2 & Hinv2 & Hvip2 & _ & Hkeep2 & Hsame2).
  { by apply prefix_app_r. }
  { rewrite Hsame1 by apply (Hlonger _ _ "").
    apply Hbelow. by apply prefix_app_r. }
  destruct (makedirs_below (model_path self) (variables_data_path self) fs2 Hinv2)
    as (fs3 & Hmk3 & Hinv3 & Hvdp3 & _ & Hkeep3 & Hsame3).
  { by apply prefix_app_r. }
  { rewrite Hsame2, Hsame1.
    - apply Hbelow. by apply prefix_app_r.
    - apply (Hlonger _ _ "").
    - unfold variables_data_path, variables_index_path.
      intros Hpre%prefix_app_inv. by destruct Hpre as [k [=]]. }
  exists fs3. unfold bind. rewrite Hmk1, Hmk2, Hmk3. split_and!; try done.
  - by apply Hkeep3, Hkeep2.
  - intros q n Hq. by apply Hkeep3, Hkeep2, Hkeep1.
  - intros q Hq2 Hq3. rewrite Hsame3, Hsame2, Hsame1; [done| |done..].
    intros Hq. apply Hq3. etrans; [exact Hq|]. by apply prefix_app_r.
  - by apply Hkeep3.
Qed.

(** X21. On a place where there is no cache yet, and with the
    directory of the proto files there, [create_pipelined_model]
    succeeds: the cache directory exists with its directories
    [variables/index], [variables/data] and [define/proto], its meta file
    is there and has no component, so that [get_model_proto_index]
    returns the empty index for every component, and every file below the
    proto directory has its copy below [define/proto]. *)
Theorem create_pipelined_model_fresh (self : PipelinedModel) (fs : filesystem) :
  (∀ p, model_path self `prefix_of` p → fs !! p = None) →
  (∀ p, p `prefix_of` model_path self → fs !! p = None ∨ fs !! p = Some Dir) →
  fs !! (python_base_directory ++ ["federatedml"; "protobuf"; "proto"])
    = Some Dir →
  ∃ fs',
    create_pipelined_model self fs = (Ok tt, fs') ∧
    fs' !! (model_path self) = Some Dir ∧
    fs' !! (variables_index_path self) = Some Dir ∧
    fs' !! (variables_data_path self) = Some Dir ∧
    fs' !! (define_proto_path self) = Some Dir ∧
    fs' !! (define_meta_path self) =
      Some (Yaml {| component_define := ∅; model_proto := ∅ |}) ∧
    (∀ component_name model_alias,
       get_model_proto_index self component_name model_alias fs'
       = (Ok ∅, fs')) ∧
    get_component_define self None fs' = (Ok (inr ∅), fs') ∧
    (∀ rel n, rel ≠ [] →
       fs !! ((python_base_directory ++ ["federatedml"; "protobuf"; "proto"])
              ++ rel) = Some n →
       fs' !! (define_proto_path self ++ rel) = Some n).
Proof.
  intros Hbelow Habove Hsrc.
  set (src := python_base_directory ++ ["federatedml"; "protobuf"; "proto"]) in *.
  destruct (create_directories self fs Hbelow Habove)
    as (fs3 & Hdirs & Hinv3 & Hmp3 & Hvdp3 & Hkeep3 & Hsame3 & Hvip3).
  assert (Hnot : ∀ (a : string) (b : list string) (c : string),
            a ≠ "variables" →
            ¬ (model_path self ++ a :: b)
                `prefix_of` model_path self ++ ["variables"; c]).
  { intros a b c Ha Hpre%prefix_app_inv. destruct Hpre as [k [=]]. done. }
  destruct (makedirs_below (model_path self) (define_proto_path self) fs3 Hinv3)
    as (fs4 & Hmk4 & _ & Hdst4 & Hanc4 & Hkeep4 & Hsame4).
  { by apply prefix_app_r. }
  { rewrite Hsame3; [apply Hbelow; by apply prefix_app_r|..];
      by apply Hnot. }
  set (fs5 := foldr (λ '(rel, n) fs, <[define_proto_path self ++ rel := n]> fs)
                fs4 (tree_under src fs3)).
  assert (Hcopy : shutil_copytree src (define_proto_path self) fs3 = (Ok tt, fs5)).
  { unfold shutil_copytree. by rewrite (Hkeep3 _ _ Hsrc), Hmk4. }
  assert (Hne5 : ∀ q, ¬ define_proto_path self `prefix_of` q →
            fs5 !! q = fs4 !! q).
  { intros q Hq. apply foldr_insert_tree_ne. intros rel n _ ->.
    apply Hq. by apply prefix_app_r. }
  assert (Hmeta_not : ¬ define_proto_path self `prefix_of` define_meta_path self).
  { unfold define_proto_path, define_meta_path.
    intros Hpre%prefix_app_inv. by destruct Hpre as [k [=]]. }
  assert (Hshort : ∀ l : list string, (length l < 2)%nat →
            ¬ define_proto_path self `prefix_of` model_path self ++ l).
  { intros l Hl Hpre%prefix_length. unfold define_proto_path in Hpre.
    rewrite !length_app in Hpre. simpl in Hpre. lia. }
  assert (Hmeta5 : fs5 !! (define_meta_path self) = None).
  { rewrite Hne5 by done. rewrite Hsame4, Hsame3.
    - apply Hbelow. by apply prefix_app_r.
    - by apply Hnot.
    - by apply Hnot.
    - unfold define_proto_path, define_meta_path.
      intros Hpre%prefix_app_inv. by destruct Hpre as [k [=]]. }
  assert (Hdefine5 : fs5 !! (model_path self ++ ["define"]) = Some Dir).
  { rewrite Hne5 by (apply Hshort; simpl; lia).
    apply Hanc4. apply elem_of_ancestors. split_and!.
    - unfold define_proto_path. apply prefix_app, prefix_cons, prefix_nil.
    - unfold define_proto_path. intros Heq%app_inv_head. discriminate.
    - by destruct (model_path self). }
  assert (Hexcl : create_exclusive (define_meta_path self)
                    (Yaml {| component_define := ∅; model_proto := ∅ |}) fs5
                  = (Ok tt, <[define_meta_path self :=
                                Yaml {| component_define := ∅;
                                        model_proto := ∅ |}]> fs5)).
  { unfold create_exclusive. rewrite Hmeta5.
    replace (define_meta_path self)
      with ((model_path self ++ ["define"]) ++ ["define_meta.yaml"])
      by (unfold define_meta_path; by rewrite <- (assoc_L (++))).
    by rewrite dirname_app, Hdefine5. }
  exists (<[define_meta_path self :=
              Yaml {| component_define := ∅; model_proto := ∅ |}]> fs5).
  split.
  { unfold create_pipelined_model, bind at 1, exists_, os_path_exists.
    rewrite bool_decide_false
      by (rewrite (Hbelow (model_path self)) by done; by intros [? ?]).
    revert Hdirs. unfold bind. 
    destruct (os_makedirs (model_path self) false fs) as [[[]|?] fs1]; [|done].
    destruct (os_makedirs (variables_index_path self) false fs1)
      as [[[]|?] fs2]; [|done].
    intros ->. fold src. rewrite Hcopy. exact Hexcl. }
  assert (Hmp' : <[define_meta_path self :=
                     Yaml {| component_define := ∅; model_proto := ∅ |}]> fs5
                 !! (model_path self) = Some Dir).
  { rewrite lookup_insert_ne by apply define_meta_path_ne.
    rewrite Hne5.
    - by apply Hkeep4.
    - intros Hpre%prefix_length. unfold define_proto_path in Hpre.
      rewrite length_app in Hpre. simpl in Hpre. lia. }
  split_and!.
  - exact Hmp'.
  - rewrite lookup_insert_ne.
    + rewrite Hne5; [by apply Hkeep4|].
      unfold define_proto_path, variables_index_path.
      intros Hpre%prefix_app_inv. by destruct Hpre as [k [=]].
    + unfold define_meta_path, variables_index_path.
      intros Heq%app_inv_head. discriminate.
  - rewrite lookup_insert_ne.
    + rewrite Hne5; [by apply Hkeep4|].
      unfold define_proto_path, variables_data_path.
      intros Hpre%prefix_app_inv. by destruct Hpre as [k [=]].
    + unfold define_meta_path, variables_data_path.
      intros Heq%app_inv_head. discriminate.
  - rewrite lookup_insert_ne.
    + unfold fs5. rewrite foldr_insert_tree_ne; [exact Hdst4|].
      intros rel n [Hrel _]%elem_of_tree_under Heq.
      exact (app_ne_self _ _ Hrel (eq_sym Heq)).
    + unfold define_meta_path, define_proto_path.
      intros Heq%app_inv_head. discriminate.
  - apply lookup_insert_eq.
  - intros c a. erewrite get_model_proto_index_at;
      [|by rewrite Hmp'|apply lookup_insert_eq]. simpl.
    by rewrite lookup_empty.
  - erewrite (get_component_define_at _ _ _ None);
      [|by rewrite Hmp'|apply lookup_insert_eq]. done.
  - intros rel n Hrel Hfile. rewrite lookup_insert_ne.
    + apply foldr_insert_tree.
      * intros n' [_ Hn']%elem_of_tree_under.
        rewrite (Hkeep3 _ _ Hfile) in Hn'. congruence.
      * apply elem_of_tree_under. split; [done|]. by apply Hkeep3.
    + intros Heq. apply Hmeta_not. rewrite Heq. by apply prefix_app_r.
Qed.

(** X22. A creation that fails is not undone. When the directory of
    the proto files is missing, [create_pipelined_model] raises
    [FileNotFoundError] after it has made the cache directory: from then
    on the cache counts as existing, a second creation is refused with
    [FileExistsError], and the meta file that reading needs is not
    there. *)
Theorem create_pipelined_model_not_undone (self : PipelinedModel)
    (fs : filesystem) :
  (∀ p, model_path self `prefix_of` p → fs !! p = None) →
  (∀ p, p `prefix_of` model_path self → fs !! p = None ∨ fs !! p = Some Dir) →
  fs !! (python_base_directory ++ ["federatedml"; "protobuf"; "proto"]) = None →
  ¬ (python_base_directory ++ ["federatedml"; "protobuf"; "proto"])
      `prefix_of` model_path self →
  ∃ fs',
    create_pipelined_model self fs = (Err FileNotFoundError, fs') ∧
    fs' !! (model_path self) = Some Dir ∧
    create_pipelined_model self fs' = (Err FileExistsError, fs') ∧
    (∀ component_name model_alias,
       get_model_proto_index self component_name model_alias fs'
       = (Err FileNotFoundError, fs')).
Proof.
  intros Hbelow Habove Hsrc Hunrelated.
  set (src := python_base_directory ++ ["federatedml"; "protobuf"; "proto"]) in *.
  destruct (create_directories self fs Hbelow Habove)
    as (fs3 & Hdirs & Hinv3 & Hmp3 & Hvdp3 & Hkeep3 & Hsame3 & _).
  assert (Hnot_src : ∀ a b : string, b ≠ "proto" → a ≠ "proto" →
            ¬ src `prefix_of` model_path self ++ [a; b]).
  { intros a b Hb Ha Hpre.
    change (model_path self ++ [a; b])
      with (model_path self ++ [a] ++ [b]) in Hpre.
    rewrite (assoc_L (++)) in Hpre.
    apply prefix_snoc_inv in Hpre as [Hpre|Heq].
    - apply prefix_snoc_inv in Hpre as [Hpre|Heq]; [done|].
      unfold src in Heq.
      change ["federatedml"; "protobuf"; "proto"]
        with (["federatedml"; "protobuf"] ++ ["proto"]) in Heq.
      rewrite (assoc_L (++)) in Heq. by apply app_inj_tail in Heq as [_ ?].
    - unfold src in Heq.
      change ["federatedml"; "protobuf"; "proto"]
        with (["federatedml"; "protobuf"] ++ ["proto"]) in Heq.
      rewrite (assoc_L (++)) in Heq. by apply app_inj_tail in Heq as [_ ?]. }
  assert (Hsrc3 : fs3 !! src = None).
  { rewrite Hsame3; [done|by apply Hnot_src..]. }
  assert (Hmeta3 : fs3 !! (define_meta_path self) = None).
  { rewrite Hsame3.
    - apply Hbelow. by apply prefix_app_r.
    - unfold define_meta_path, variables_index_path.
      intros Hpre%prefix_app_inv. by destruct Hpre as [k [=]].
    - unfold define_meta_path, variables_data_path.
      intros Hpre%prefix_app_inv. by destruct Hpre as [k [=]]. }
  exists fs3. split_and!.
  - unfold create_pipelined_model, bind at 1, exists_, os_path_exists.
    rewrite bool_decide_false
      by (rewrite (Hbelow (model_path self)) by done; by intros [? ?]).
    revert Hdirs. unfold bind.
    destruct (os_makedirs (model_path self) false fs) as [[[]|?] fs1]; [|done].
    destruct (os_makedirs (variables_index_path self) false fs1)
      as [[[]|?] fs2]; [|done].
    intros ->. fold src. unfold shutil_copytree. by rewrite Hsrc3.
  - done.
  - unfold create_pipelined_model, bind at 1, exists_, os_path_exists.
    by rewrite bool_decide_true by (by rewrite Hmp3).
  - intros c a. unfold get_model_proto_index.
    rewrite local_cache_required_there by (by rewrite Hmp3).
    unfold bind, read_define_meta. by rewrite Hmeta3.
Qed.

Lemma append_eq_self (x ext : string) : x +:+ ext = x → ext = "".
Proof.
  induction x as [|c x IH]; [done|]. simpl. intros [= Heq]. by apply IH.
Qed.

Lemma add_ext_ne (p : path) (ext : string) : ext ≠ "" → add_ext p ext ≠ p.
Proof.
  intros Hext. unfold add_ext.
  destruct (reverse p) as [|x r] eqn:Hrev.
  - apply (f_equal reverse) in Hrev. rewrite reverse_involutive in Hrev.
    by subst p.
  - intros Heq. rewrite <- Heq in Hrev. rewrite reverse_involutive in Hrev.
    injection Hrev as Hx. by apply append_eq_self in Hx.
Qed.

(** X23. An archive made by [packaging_model] is accepted by
    [unpack_model], and the files come back. The path returned is the
    one that [archive_model_file_path] names. Provided that the text
    codec gives back the digest of the archive, that this digest has no
    white space around it, and that the archive made of the cache
    unpacks to its members: after [packaging_model] succeeds,
    [unpack_model] of that archive into a model without a cache passes
    the hash check and puts every file of the packaged cache under the
    same relative path of the new cache. *)
Theorem packaging_then_unpack (self other : PipelinedModel)
    (fs fs1 : filesystem) (archive_file_path : path) :
  let archive := zip_of (tree_under (model_path self) fs) in
  decode_utf8 (encode_utf8 (sha1_hexdigest archive))
    = Some (sha1_hexdigest archive) →
  strip (sha1_hexdigest archive) = sha1_hexdigest archive →
  archive_entries archive = Some (tree_under (model_path self) fs) →
  packaging_model self fs = (Ok archive_file_path, fs1) →
  fs1 !! (model_path other) = None →
  (∀ a, a ∈ ancestors (model_path other) →
        fs1 !! a = None ∨ fs1 !! a = Some Dir) →
  archive_file_path = archive_model_file_path self ∧
  ∃ fs2,
    unpack_model other archive_file_path fs1 = (Ok tt, fs2) ∧
    ∀ rel n, rel ≠ [] → fs !! (model_path self ++ rel) = Some n →
             fs2 !! (model_path other ++ rel) = Some n.
Proof.
  intros zipped Hcodec Hstrip Hzip Hpack Hno Hanc. subst zipped.
  set (tree := tree_under (model_path self) fs) in *.
  set (archive := add_ext (archive_model_base_path self) ".zip").
  assert (Hfiles : archive_file_path = archive ∧
            fs1 !! archive = Some (File (zip_of tree)) ∧
            fs1 !! (add_ext archive ".sha1")
            = Some (File (encode_utf8 (sha1_hexdigest (zip_of tree))))).
  { revert Hpack. unfold packaging_model, local_cache_required, bind at 1,
      exists_, os_path_exists.
    destruct (bool_decide _); [|done].
    unfold bind at 1, shutil_make_archive.
    destruct (fs !! (model_path self)) as [[| |]|]; try done.
    fold tree. fold archive. unfold bind at 1.
    destruct ((if bool_decide _ then ret tt else os_makedirs _ false) fs)
      as [[[]|e] fsA]; [|done].
    unfold bind at 1.
    destruct (write_bytes archive (zip_of tree) fsA) as [[[]|e] fsB] eqn:Hw;
      [|done].
    apply write_bytes_ok in Hw as ->. unfold ret at 1.
    unfold bind at 1, read_bytes at 1. rewrite lookup_insert_eq.
    unfold bind at 1.
    destruct (write_bytes (add_ext archive ".sha1") _ _)
      as [[[]|e] fsC] eqn:Hw; [|done].
    apply write_bytes_ok in Hw as ->. unfold ret. intros [= <- <-].
    split_and!; [done| |apply lookup_insert_eq].
    rewrite lookup_insert_ne by (by apply add_ext_ne).
    apply lookup_insert_eq. }
  destruct Hfiles as (-> & Harch & Hsha). split; [done|].
  assert (Hmk : os_makedirs (model_path other) false fs1 =
            (Ok tt, foldr (λ a fs, <[a := Dir]> fs) fs1
                      (model_path other :: ancestors (model_path other))))
    by (by apply os_makedirs_fresh).
  set (fsD := foldr (λ a fs, <[a := Dir]> fs) fs1
                (model_path other :: ancestors (model_path other))) in Hmk.
  exists (foldr (λ '(rel, n) fs, <[model_path other ++ rel := n]> fs) fsD tree).
  split.
  - unfold unpack_model, bind at 1, exists_, os_path_exists.
    rewrite bool_decide_false by (rewrite Hno; by intros [? ?]).
    unfold bind at 1, os_path_isfile. rewrite Hsha.
    unfold bind at 1 2, read_bytes at 1. rewrite Hsha, Hcodec, Hstrip.
    unfold bind at 1, read_bytes at 1. rewrite Harch.
    rewrite decide_False by (intros Hne; by apply Hne).
    unfold ret at 1. unfold bind at 1. rewrite Hmk.
    unfold shutil_unpack_archive, bind, read_bytes.
    rewrite (proj2 (os_makedirs_ok _ _ _ _ Hmk) _ _ Harch).
    by rewrite Hzip.
  - intros rel n Hrel Hfile. apply foldr_insert_tree.
    + intros n' [_ Hn']%elem_of_tree_under. congruence.
    + by apply elem_of_tree_under.
Qed.

End PipelinedModel_trees.

Section PipelinedModel_more_samples.
Import PipelinedModel.
#[local] Existing Instances sample_runtime wire_protobuf sample_library.

Lemma missing_cache_is_reported_witness :
  read_component_model sample_model "hetero_lr_0" "model" true ∅
  = (Err FileNotFoundError, ∅).
Proof.
  exact (proj1 (proj2 (proj2 (proj2
    (missing_cache_is_reported sample_model ∅ "hetero_lr_0" "HeteroLR" "model"
       ∅ true None (lookup_empty _)))))).
Defined.

Lemma update_component_meta_sample :
  ∃ fs', update_component_meta sample_model "hetero_lr_0" "HeteroLR" "model"
           {[ "Meta" := "LRModelMeta" ]} created_cache = (Ok tt, fs').
Proof.
  apply (update_component_meta_succeeds _ _
           {| component_define := ∅; model_proto := ∅ |}).
  - vm_compute. by eexists.
  - vm_compute. reflexivity.
Qed.

Lemma update_component_meta_then_get_witness :
  ∃ fs' old_index,
    update_component_meta sample_model "hetero_lr_0" "HeteroLR" "model"
      {[ "Meta" := "LRModelMeta" ]} created_cache = (Ok tt, fs') ∧
    get_model_proto_index sample_model "hetero_lr_0" "model" fs'
    = (Ok ({[ "Meta" := "LRModelMeta" ]} ∪ old_index), fs').
Proof.
  destruct update_component_meta_sample as [fs' Hup].
  destruct (update_component_meta_then_get _ _ _ _ _ _ _ Hup)
    as (old_index & old_define & _ & _ & Hnew & _).
  exists fs', old_index. split; [exact Hup|exact Hnew].
Defined.

Lemma update_component_meta_idempotent_witness :
  ∃ fs',
    update_component_meta sample_model "hetero_lr_0" "HeteroLR" "model"
      {[ "Meta" := "LRModelMeta" ]} created_cache = (Ok tt, fs') ∧
    update_component_meta sample_model "hetero_lr_0" "HeteroLR" "model"
      {[ "Meta" := "LRModelMeta" ]} fs' = (Ok tt, fs').
Proof.
  destruct update_component_meta_sample as [fs' Hup].
  exists fs'. split; [exact Hup|].
  exact (update_component_meta_idempotent _ _ _ _ _ _ _ Hup).
Defined.

(** [str.replace] and [str.strip] on samples: occurrences do not
    overlap, an empty [old] is found between all characters, and the
    no-break space and the line separator are stripped. *)
Lemma str_replace_strip_samples :
  str_replace "aaa" "aa" "" = "a" ∧
  str_replace "abab" "ab" "x" = "xx" ∧
  str_replace "abc" "" "-" = "-a-b-c-" ∧
  str_replace "/data/model_local_cache/m/v/variables/data/c/a/n" "/data" ""
    = "/model_local_cache/m/v/variables/c/a/n" ∧
  strip [32; 51; 160; 8232; 10]%N = [51]%N ∧
  strip [8203; 51]%N = [8203; 51]%N.
Proof. by vm_compute. Qed.

Lemma save_component_model_for_tracker_witness :
  save_component_model data_model "c" "HeteroLR" "a" [("n", sample_meta)]
    true ∅ =
  (Ok (Some {| cm_buffer :=
                 [("/model_local_cache/m/v/variables/c/a/n",
                   b64encode (serialized_or_fill sample_meta))];
               cm_component_name := "c";
               cm_component_module_name := "HeteroLR";
               cm_model_alias := "a";
               cm_model_proto_index := {[ "n" := "LRModelMeta" ]} |}), ∅).
Proof.
  destruct (save_component_model_for_tracker data_model "c" "HeteroLR" "a"
              [("n", sample_meta)] ∅)
    as (buffer & Hsave & _ & _ & _ & Heq).
  - reflexivity.
  - reflexivity.
  - by repeat constructor.
  - rewrite Hsave, Heq by apply NoDup_singleton. reflexivity.
Defined.


Lemma nothing_below (mp : path) (entries : list (path * node)) :
  forallb (λ k, negb (bool_decide (mp `prefix_of` k ∧ k ≠ mp))) entries.*1
    = true →
  ∀ p, mp `prefix_of` p → p ≠ mp →
       (list_to_map entries : filesystem) !! p = None.
Proof.
  intros Hall p Hp Hne. apply not_elem_of_list_to_map_1. intros Hin.
  rewrite forallb_forall in Hall.
  specialize (Hall p ltac:(by apply list_elem_of_In)).
  by rewrite bool_decide_true in Hall.
Qed.

Lemma dirs_along (mp : path) (fs : filesystem) :
  forallb (λ n, match fs !! take n mp with
                | None | Some Dir => true
                | _ => false
                end) (seq 0 (S (length mp))) = true →
  ∀ p, p `prefix_of` mp → fs !! p = None ∨ fs !! p = Some Dir.
Proof.
  intros Hall p Hp. rewrite forallb_forall in Hall.
  specialize (Hall (length p)).
  assert (take (length p) mp = p) as Htake.
  { destruct Hp as [k ->]. by rewrite take_app_length. }
  rewrite Htake in Hall.
  destruct (fs !! p) as [[| |]|]; [by right| | |by left];
    (discriminate Hall;
     apply list_elem_of_In, elem_of_seq; apply prefix_length in Hp; lia).
Qed.

Lemma save_then_read_component_model_witness :
  ∃ fs' l,
    save_component_model sample_model "hetero_lr_0" "HeteroLR" "model"
      [("Meta", sample_meta)] false created_cache = (Ok None, fs') ∧
    read_component_model sample_model "hetero_lr_0" "model" true fs'
      = (Ok l, fs') ∧
    ("Meta", inl sample_meta) ∈ l.
Proof.
  destruct (save_component_model_succeeds sample_model "hetero_lr_0"
              "HeteroLR" "model" [("Meta", sample_meta)] created_cache
              {| component_define := ∅; model_proto := ∅ |})
    as [fs' Hsave].
  - apply NoDup_singleton.
  - vm_compute. reflexivity.
  - vm_compute. reflexivity.
  - apply dirs_along. vm_compute. reflexivity.
  - apply nothing_below. vm_compute. reflexivity.
  - destruct (save_then_read_component_model sample_model "hetero_lr_0"
                "HeteroLR" "model" [("Meta", sample_meta)] true created_cache
                fs' None)
      as (l & Hread & _ & Hin).
    + reflexivity.
    + reflexivity.
    + by repeat constructor.
    + apply NoDup_singleton.
    + rewrite (get_model_proto_index_at _ _
                 {| component_define := ∅; model_proto := ∅ |});
        [|vm_compute; by eexists|vm_compute; reflexivity].
      simpl. by rewrite lookup_empty.
    + intros _ name buf [[= -> ->]|[]%elem_of_nil]%elem_of_cons.
      split_and!; [by vm_compute|vm_compute; reflexivity..].
    + exact Hsave.
    + exists fs', l. split; [exact Hsave|]. split; [exact Hread|].
      apply (Hin "Meta" sample_meta). by left.
Defined.

Lemma get_proto_buffer_class_finds_witness :
  ∃ f members,
    f ∈ listdir_generated ∧ startswith_dot f = false ∧
    import_module ("federatedml.protobuf.generated." +:+
                   rstrip f ["."; "p"; "y"]%char) = Some members ∧
    ("OneHotMeta", Some OneHotMeta) ∈ members.
Proof.
  exact (proj1 (get_proto_buffer_class_finds "OneHotMeta") OneHotMeta eq_refl).
Defined.

Lemma module_name_of_generated_file_witness :
  rstrip "happy.py" ["."; "p"; "y"]%char = "ha" ∧
  rstrip "lr_model_meta_pb2.py" ["."; "p"; "y"]%char = "lr_model_meta_pb2".
Proof.
  split.
  - etrans; [|exact (eq_refl : rstrip "happ" ["."; "p"; "y"]%char = "ha")].
    apply (proj2 (module_name_of_generated_file "happ" "y")).
    repeat constructor.
  - apply (proj1 (module_name_of_generated_file "lr_model_meta_pb" "2")).
    intros Hin. repeat (apply elem_of_cons in Hin as [[=]|Hin]).
    by apply elem_of_nil in Hin.
Defined.

Lemma create_pipelined_model_fresh_witness :
  ∃ fs',
    create_pipelined_model sample_model installed = (Ok tt, fs') ∧
    get_model_proto_index sample_model "hetero_lr_0" "model" fs' = (Ok ∅, fs') ∧
    fs' !! (define_proto_path sample_model ++ ["lr-model-meta.proto"])
    = Some (File [x73; x79; x6e; x74; x61; x78]).
Proof.
  destruct (create_pipelined_model_fresh sample_model installed)
    as (fs' & Hcreate & _ & _ & _ & _ & _ & Hindex & _ & Hcopy).
  - intros p Hp. destruct (decide (p = model_path sample_model)) as [->|Hne];
      [vm_compute; reflexivity|].
    revert p Hp Hne. apply nothing_below. vm_compute. reflexivity.
  - apply dirs_along. vm_compute. reflexivity.
  - vm_compute. reflexivity.
  - exists fs'. split; [exact Hcreate|]. split; [apply Hindex|].
    apply Hcopy; [done|]. vm_compute. reflexivity.
Defined.

Lemma create_pipelined_model_not_undone_witness :
  ∃ fs',
    create_pipelined_model sample_model ∅ = (Err FileNotFoundError, fs') ∧
    create_pipelined_model sample_model fs' = (Err FileExistsError, fs').
Proof.
  destruct (create_pipelined_model_not_undone sample_model ∅)
    as (fs' & Hfirst & _ & Hsecond & _).
  - intros p _. apply lookup_empty.
  - intros p _. left. apply lookup_empty.
  - apply lookup_empty.
  - intros [k Hk]. discriminate Hk.
  - exists fs'. split; [exact Hfirst|exact Hsecond].
Defined.

Lemma packaging_then_unpack_witness :
  ∃ fs1 fs2,
    packaging_model sample_model packed_cache
      = (Ok ["fate"; "temp"; "guest-9999_202101.zip"], fs1) ∧
    unpack_model other_model ["fate"; "temp"; "guest-9999_202101.zip"] fs1
      = (Ok tt, fs2) ∧
    fs2 !! (model_path other_model ++ ["pipeline.pb"])
    = Some (File [x01; x02]).
Proof.
  pose (fs1 := (packaging_model sample_model packed_cache).2).
  assert (Hpack : packaging_model sample_model packed_cache
                  = (Ok ["fate"; "temp"; "guest-9999_202101.zip"], fs1)).
  { rewrite (surjective_pairing (packaging_model sample_model packed_cache)).
    f_equal; vm_compute; reflexivity. }
  destruct (packaging_then_unpack sample_model other_model packed_cache fs1
              ["fate"; "temp"; "guest-9999_202101.zip"])
    as (_ & fs2 & Hunpack & Hfiles).
  - vm_compute. reflexivity.
  - vm_compute. reflexivity.
  - vm_compute. reflexivity.
  - exact Hpack.
  - unfold fs1. vm_compute. reflexivity.
  - intros a (Hpre & _)%elem_of_ancestors. revert a Hpre.
    apply dirs_along. unfold fs1. vm_compute. reflexivity.
  - exists fs1, fs2. split; [exact Hpack|].
    split; [exact Hunpack|]. apply Hfiles; [done|]. vm_compute. reflexivity.
Defined.

End PipelinedModel_more_samples.
